(** * Fusion regression harness ([run_pfusion_regression.py])

    A shallow embedding of the fusion-command construction and of the
    result-verification protocol, followed by the properties proved about
    them.

    - [PyFloat]: Python's [float], that is IEEE 754 binary64 with
      round-to-nearest-even, as far as the harness uses it
      ([-], [*], [abs], comparisons).
    - [PyBuiltins]: the builtins the harness calls on strings and numbers
      ([str.strip], [str.split], [' '.join], [float()], [round()], [str()],
      [max], [os.path.join]).
    - [Config]: the YAML document the harness loads.
    - [Harness]: the functions of the script, in a trace-and-exception
      monad; subprocesses and the file system are an explicit [world]. *)

From Stdlib Require Import ZArith Bool List String Ascii Lia.
From Stdlib Require SpecFloat.
Import ListNotations.
Open Scope string_scope.
Open Scope list_scope.
Open Scope Z_scope.

(* ===================================================================== *)
(** ** Python floats *)
(* ===================================================================== *)

Module PyFloat.

(** A finite binary64 number is an integer multiple of [2^-1074] (the
    smallest subnormal).  [FFin neg n] stands for [(-1)^neg * n * 2^-1074];
    the sign is kept apart because IEEE zero is signed. *)
Inductive float64 : Type :=
| FNan
| FInf (neg : bool)
| FFin (neg : bool) (n : Z).

(** [1.0], counted in units of [2^-1074]. *)
Definition ONE : Z := 2 ^ 1074.

(** [2^2098 * 2^-1074 = 2^1024]: the first magnitude that is out of range. *)
Definition OVERFLOW : Z := 2 ^ 2098.

(** The multiples of [2^-1074] that binary64 holds: at most 53 significant
    bits, below [2^1024]. *)
Definition representable (n : Z) : bool :=
  (0 <=? n) && (n <? OVERFLOW) && (n mod 2 ^ (Z.max 0 (Z.log2 n - 52)) =? 0).

Definition valid (x : float64) : bool :=
  match x with
  | FFin _ n => representable n
  | _ => true
  end.

Definition is_finite (x : float64) : bool :=
  match x with
  | FFin _ _ => true
  | _ => false
  end.

(** [p / q] rounded to the nearest integer, ties to even ([0 <= p], [0 < q]). *)
Definition div_half_even (p q : Z) : Z :=
  let m := p / q in
  let r := p mod q in
  if 2 * r <? q then m
  else if q <? 2 * r then m + 1
  else if Z.even m then m else m + 1.

(** The number of low bits of [p / q] that do not fit in 53 bits. *)
Definition lost_bits (p q : Z) : Z := Z.max 0 (Z.log2 (p / q) - 52).

(** Round the non-negative rational [p / q] (in units of [2^-1074]) to 53
    significant bits, to nearest, ties to even. *)
Definition round_mag (p q : Z) : Z :=
  let s := lost_bits p q in
  div_half_even p (q * 2 ^ s) * 2 ^ s.

Definition pack (neg : bool) (mag : Z) : float64 :=
  if mag <? OVERFLOW then FFin neg mag else FInf neg.

Definition round_ne (neg : bool) (p q : Z) : float64 :=
  pack neg (round_mag p q).

Definition sval (neg : bool) (n : Z) : Z := if neg then - n else n.

(** [x - y]: the exact difference, rounded. *)
Definition fsub (x y : float64) : float64 :=
  match x, y with
  | FNan, _ | _, FNan => FNan
  | FInf sx, FInf sy => if Bool.eqb sx sy then FNan else FInf sx
  | FInf sx, FFin _ _ => FInf sx
  | FFin _ _, FInf sy => FInf (negb sy)
  | FFin sx nx, FFin sy ny =>
      let z := sval sx nx - sval sy ny in
      if z =? 0 then FFin (sx && negb sy) 0
      else round_ne (z <? 0) (Z.abs z) 1
  end.

(** [x * y]: the exact product, rounded. *)
Definition fmul (x y : float64) : float64 :=
  match x, y with
  | FNan, _ | _, FNan => FNan
  | FInf sx, FInf sy => FInf (xorb sx sy)
  | FInf sx, FFin sy ny => if ny =? 0 then FNan else FInf (xorb sx sy)
  | FFin sx nx, FInf sy => if nx =? 0 then FNan else FInf (xorb sx sy)
  | FFin sx nx, FFin sy ny => round_ne (xorb sx sy) (nx * ny) ONE
  end.

(** [abs(x)] *)
Definition fabs (x : float64) : float64 :=
  match x with
  | FNan => FNan
  | FInf _ => FInf false
  | FFin _ n => FFin false n
  end.

(** IEEE comparison: unordered ([None]) as soon as one side is NaN;
    [-0.0] and [0.0] are equal. *)
Definition fcompare (x y : float64) : option comparison :=
  match x, y with
  | FNan, _ | _, FNan => None
  | FInf sx, FInf sy =>
      Some (if sx then (if sy then Eq else Lt) else (if sy then Gt else Eq))
  | FInf sx, FFin _ _ => Some (if sx then Lt else Gt)
  | FFin _ _, FInf sy => Some (if sy then Gt else Lt)
  | FFin sx nx, FFin sy ny => Some (sval sx nx ?= sval sy ny)
  end.

(** [x <= y] *)
Definition fle (x y : float64) : bool :=
  match fcompare x y with
  | Some Lt | Some Eq => true
  | _ => false
  end.

(** [x > y] *)
Definition fgt (x y : float64) : bool :=
  match fcompare x y with
  | Some Gt => true
  | _ => false
  end.

(** The decimal number [(-1)^neg * D * 10^k], correctly rounded: what the
    compiler does with a literal and [float()] with a string. *)
Definition of_decimal (neg : bool) (D k : Z) : float64 :=
  if 0 <=? k then round_ne neg (D * 10 ^ k * ONE) 1
  else round_ne neg (D * ONE) (10 ^ (- k)).

(** The order of the extended real line on the values that are not NaN. *)
Definition ext_le (x y : float64) : Prop :=
  match x, y with
  | FNan, _ | _, FNan => False
  | FInf true, _ => True
  | _, FInf false => True
  | FInf false, _ => False
  | _, FInf true => False
  | FFin sx nx, FFin sy ny => sval sx nx <= sval sy ny
  end.

(** The same number in the format of the Standard Library's reference
    implementation of IEEE 754 ([SpecFloat]): a mantissa of at most 53 bits
    and an exponent. *)
Definition to_spec (x : float64) : SpecFloat.spec_float :=
  match x with
  | FNan => SpecFloat.S754_nan
  | FInf s => SpecFloat.S754_infinity s
  | FFin s n =>
      let sh := Z.max 0 (Z.log2 n - 52) in
      match n / 2 ^ sh with
      | Zpos m => SpecFloat.S754_finite s m (sh - 1074)
      | _ => SpecFloat.S754_zero s
      end
  end.

End PyFloat.
Export PyFloat.

(* ===================================================================== *)
(** ** Python builtins used by the harness *)
(* ===================================================================== *)

Module PyBuiltins.

(** The exceptions that can travel through the harness.  [SystemExit] is
    what [exit(code)] raises; it is not an [Exception], so that
    [except Exception] lets it through. *)
Inductive exn : Type :=
| KeyError (key : string)
| IndexError
| ValueError
| TypeError
| RuntimeError
| OverflowError
| UnicodeDecodeError
| OSError
| SystemExit (code : Z).

(** [dict.get(key, default)] on an optional field. *)
Definition get_or {A : Type} (o : option A) (default : A) : A :=
  match o with
  | Some v => v
  | None => default
  end.

(** Truth value of a string: non-empty. *)
Definition truthy (s : string) : bool :=
  match s with
  | EmptyString => false
  | String _ _ => true
  end.

(** *** Strings.  Text is modelled over 8-bit characters. *)

(** [str.isspace] on one character. *)
Definition is_space (c : ascii) : bool :=
  let n := Z.of_N (N_of_ascii c) in
  ((9 <=? n) && (n <=? 13)) || ((28 <=? n) && (n <=? 32)) || (n =? 133) || (n =? 160).

Fixpoint lstrip (l : list ascii) : list ascii :=
  match l with
  | c :: l' => if is_space c then lstrip l' else l
  | [] => []
  end.

(** [s.strip()] *)
Definition strip (s : string) : string :=
  string_of_list_ascii (rev (lstrip (rev (lstrip (list_ascii_of_string s))))).

(** [s.split(sep)] for a separator that is not [None]: the pieces between
    the leftmost non-overlapping occurrences of [sep].  [skip] counts the
    characters of a matched separator still to be passed over. *)
Fixpoint split_go (sep : string) (skip : nat) (s : string) (cur : list ascii)
  : list string :=
  match s with
  | EmptyString => [string_of_list_ascii (rev cur)]
  | String c s' =>
      match skip with
      | S k => split_go sep k s' cur
      | O =>
          if String.prefix sep s
          then string_of_list_ascii (rev cur)
                 :: split_go sep (Nat.pred (String.length sep)) s' []
          else split_go sep O s' (c :: cur)
      end
  end.

Definition py_split (s sep : string) : exn + list string :=
  match sep with
  | EmptyString => inl ValueError
  | _ => inr (split_go sep O s [])
  end.

(** [l[i]] with Python's negative indices. *)
Definition py_index {A : Type} (l : list A) (i : Z) : exn + A :=
  let len := Z.of_nat (List.length l) in
  let j := if i <? 0 then i + len else i in
  if (j <? 0) || (len <=? j) then inl IndexError
  else match nth_error l (Z.to_nat j) with
       | Some a => inr a
       | None => inl IndexError
       end.

(** [' '.join(tokens)]; a token that is [None] is a [TypeError]. *)
Fixpoint all_strings (l : list (option string)) : option (list string) :=
  match l with
  | [] => Some []
  | Some s :: l' => option_map (cons s) (all_strings l')
  | None :: _ => None
  end.

Definition join_tokens (l : list (option string)) : exn + string :=
  match all_strings l with
  | Some ss => inr (String.concat " " ss)
  | None => inl TypeError
  end.

(** [os.path.join(a, b)] (posix) *)
Definition path_join (a b : string) : string :=
  if String.prefix "/" b then b
  else if negb (truthy a) || String.prefix "/" (string_of_list_ascii
                                                 (firstn 1 (rev (list_ascii_of_string a))))
       then String.append a b
       else String.append a (String.append "/" b).

(** *** [str()] of integers *)

Fixpoint digits_rev (fuel : nat) (n : Z) : list ascii :=
  match fuel with
  | O => []
  | S f => if n <? 10 then [ascii_of_N (Z.to_N (48 + n))]
           else ascii_of_N (Z.to_N (48 + n mod 10)) :: digits_rev f (n / 10)
  end.

Definition nat_digits (n : Z) : list ascii :=
  rev (digits_rev (S (Z.to_nat (Z.log2 n))) n).

Definition str_int (z : Z) : string :=
  string_of_list_ascii
    (if z <? 0 then "-"%char :: nat_digits (- z) else nat_digits z).

(** *** [float(s)] *)

Definition digit_val (c : ascii) : option Z :=
  let n := Z.of_N (N_of_ascii c) in
  if (48 <=? n) && (n <=? 57) then Some (n - 48) else None.

Definition is_digit (c : ascii) : bool :=
  match digit_val c with
  | Some _ => true
  | None => false
  end.

(** Underscores may only stand between two digits; they are dropped
    before the number is read. *)
Fixpoint drop_underscores (prev : option ascii) (l : list ascii)
  : option (list ascii) :=
  match l with
  | [] => match prev with
          | Some "_"%char => None
          | _ => Some []
          end
  | c :: l' =>
      if Ascii.eqb c "_" then
        match prev with
        | Some p => if is_digit p then drop_underscores (Some c) l' else None
        | None => None
        end
      else
        match prev with
        | Some "_"%char =>
            if is_digit c then option_map (cons c) (drop_underscores (Some c) l')
            else None
        | _ => option_map (cons c) (drop_underscores (Some c) l')
        end
  end.

(** Leading decimal digits: their value on top of [acc], their number on
    top of [cnt], and the rest. *)
Fixpoint take_digits (acc cnt : Z) (l : list ascii) : Z * Z * list ascii :=
  match l with
  | c :: l' =>
      match digit_val c with
      | Some d => take_digits (10 * acc + d) (cnt + 1) l'
      | None => (acc, cnt, l)
      end
  | [] => (acc, cnt, [])
  end.

Definition take_sign (l : list ascii) : bool * list ascii :=
  match l with
  | "-"%char :: l' => (true, l')
  | "+"%char :: l' => (false, l')
  | _ => (false, l)
  end.

Definition lower (c : ascii) : ascii :=
  let n := N_of_ascii c in
  if ((65 <=? n) && (n <=? 90))%N then ascii_of_N (n + 32) else c.

Definition lower_string (l : list ascii) : string :=
  string_of_list_ascii (map lower l).

Definition parse_exponent (l : list ascii) : option Z :=
  match l with
  | [] => Some 0
  | c :: l' =>
      if Ascii.eqb (lower c) "e" then
        let '(neg, l2) := take_sign l' in
        let '(v, cnt, rest) := take_digits 0 0 l2 in
        match rest with
        | [] => if 0 <? cnt then Some (if neg then - v else v) else None
        | _ => None
        end
      else None
  end.

Definition parse_number (neg : bool) (l : list ascii) : option float64 :=
  let '(ip, icnt, r1) := take_digits 0 0 l in
  let '(fp, fcnt, r2) :=
    match r1 with
    | "."%char :: r => take_digits ip 0 r
    | _ => (ip, 0, r1)
    end in
  if 0 <? icnt + fcnt then
    match parse_exponent r2 with
    | Some e => Some (of_decimal neg fp (e - fcnt))
    | None => None
    end
  else None.

(** [float(s)]: [None] stands for [ValueError].  Surrounding white space
    is ignored; the body is a signed decimal number with optional
    fraction and exponent, or [inf], [infinity], [nan] in any case. *)
Definition py_float (s : string) : option float64 :=
  match drop_underscores None (list_ascii_of_string s) with
  | None => None
  | Some l =>
      let body := rev (lstrip (rev (lstrip l))) in
      let '(neg, rest) := take_sign body in
      let w := lower_string rest in
      if String.eqb w "inf" || String.eqb w "infinity" then Some (FInf neg)
      else if String.eqb w "nan" then Some FNan
      else parse_number neg rest
  end.

(** *** [round(x, ndigits)] on a float *)

Definition NDIGITS_MAX : Z := 323.
Definition NDIGITS_MIN : Z := -308.

(** The value is rounded to [ndigits] decimals on its exact binary
    expansion, and the decimal result is converted back to a float. *)
Definition py_round (x : float64) (ndigits : Z) : exn + float64 :=
  match x with
  | FNan | FInf _ => inr x
  | FFin neg n =>
      if NDIGITS_MAX <? ndigits then inr x
      else if ndigits <? NDIGITS_MIN then inr (FFin neg 0)
      else
        let D := if 0 <=? ndigits
                 then div_half_even (n * 10 ^ ndigits) ONE
                 else div_half_even n (ONE * 10 ^ (- ndigits)) in
        match of_decimal neg D (- ndigits) with
        | FInf _ => inl OverflowError
        | r => inr r
        end
  end.

(** *** [str(x)] on a float: the shortest decimal string that reads back
    as [x] *)

(** [10^e <= n * 2^-1074] *)
Definition ge_pow10 (n e : Z) : bool :=
  if 0 <=? e then 10 ^ e * ONE <=? n else ONE <=? n * 10 ^ (- e).

(** The decimal exponent of [n * 2^-1074]: [10^e <= n * 2^-1074 < 10^(e+1)]. *)
Definition dec_exponent (n : Z) : Z :=
  let est := ((Z.log2 n - 1074) * 30103) / 100000 in
  if ge_pow10 n (est + 1) then est + 1
  else if ge_pow10 n est then est else est - 1.

(** floor of [n * 2^-1074 / 10^k] *)
Definition scaled_floor (n k : Z) : Z :=
  if 0 <=? k then n / (ONE * 10 ^ k) else (n * 10 ^ (- k)) / ONE.

(** Is [n * 2^-1074] nearer to [D * 10^k] ([Lt]) or to [(D+1) * 10^k]
    ([Gt])? *)
Definition closer_low (n D k : Z) : comparison :=
  if 0 <=? k then (2 * n ?= (2 * D + 1) * 10 ^ k * ONE)
  else (2 * n * 10 ^ (- k) ?= (2 * D + 1) * ONE).

Definition round_trips (n D k : Z) : bool :=
  match of_decimal false D k with
  | FFin _ n' => n' =? n
  | _ => false
  end.

(** Try [p], [p+1], ... significant digits until a [p]-digit decimal
    reads back as [n]; of two that do, the nearer one, the even one on a
    tie. *)
Fixpoint shortest (fuel : nat) (p : Z) (n e10 : Z) : Z * Z :=
  let k := e10 - p + 1 in
  let D := scaled_floor n k in
  let lo := round_trips n D k in
  let hi := round_trips n (D + 1) k in
  let pick :=
    if lo && hi then
      match closer_low n D k with
      | Lt => Some D
      | Gt => Some (D + 1)
      | Eq => Some (if Z.even D then D else D + 1)
      end
    else if lo then Some D
    else if hi then Some (D + 1)
    else None in
  match pick with
  | Some d => (d, k)
  | None =>
      match fuel with
      | O => (D, k)
      | S fuel' => shortest fuel' (p + 1) n e10
      end
  end.

Fixpoint strip_zeros (fuel : nat) (D k : Z) : Z * Z :=
  match fuel with
  | O => (D, k)
  | S f => if (D mod 10 =? 0) && (0 <? D) then strip_zeros f (D / 10) (k + 1)
           else (D, k)
  end.

Definition zeros (n : Z) : list ascii := repeat "0"%char (Z.to_nat n).

(** Layout of the digits [D] with decimal exponent [k]: scientific
    notation when the decimal point would be far from the digits, and a
    [.0] after an integer. *)
Definition format_repr (neg : bool) (D k : Z) : string :=
  let ds := nat_digits D in
  let nd := Z.of_nat (List.length ds) in
  let decpt := nd + k in
  let body :=
    if (decpt <=? -4) || (16 <? decpt) then
      let e := decpt - 1 in
      let mant := match ds with
                  | [] => []
                  | d :: rest => match rest with
                                 | [] => [d]
                                 | _ => d :: "."%char :: rest
                                 end
                  end in
      let es := nat_digits (Z.abs e) in
      mant ++ ["e"%char; if e <? 0 then "-"%char else "+"%char]
           ++ (if Z.abs e <? 10 then "0"%char :: es else es)
    else if decpt <=? 0 then
      ["0"%char; "."%char] ++ zeros (- decpt) ++ ds
    else if nd <=? decpt then
      ds ++ zeros (decpt - nd) ++ ["."%char; "0"%char]
    else
      firstn (Z.to_nat decpt) ds ++ "."%char :: skipn (Z.to_nat decpt) ds in
  string_of_list_ascii (if neg then "-"%char :: body else body).

Definition float_repr (x : float64) : string :=
  match x with
  | FNan => "nan"
  | FInf neg => if neg then "-inf" else "inf"
  | FFin neg n =>
      if n =? 0 then (if neg then "-0.0" else "0.0")
      else
        let '(D, k) := shortest 16 1 n (dec_exponent n) in
        let '(D', k') := strip_zeros 20 D k in
        format_repr neg D' k'
  end.

(** *** [max(x, y)]: the first of the largest, found with [>] *)
Definition py_max (x y : float64) : float64 := if fgt y x then y else x.

End PyBuiltins.
Export PyBuiltins.

(* ===================================================================== *)
(** ** The configuration document *)
(* ===================================================================== *)

Module Config.

(** A YAML scalar, as [yaml.safe_load] returns it. *)
Inductive yaml_value : Type :=
| YInt (z : Z)
| YFloat (f : float64)
| YStr (s : string)
| YBool (b : bool)
| YNull.

(** [str(v)] *)
Definition py_str (v : yaml_value) : string :=
  match v with
  | YInt z => str_int z
  | YFloat f => float_repr f
  | YStr s => s
  | YBool b => if b then "True" else "False"
  | YNull => "None"
  end.

(** The mappings of the document.  A field of type [option] is a key that
    may be absent; the other keys are taken to be present with a value of
    the type shown.  [runs], [methods], [topics] and [metrics] are read
    with [yaml_data[...]], [file] with [run['file']], [results] with
    [method['results']]: there absence is a [KeyError].  The other
    optional fields are read with [.get] or tested with [in]. *)
Record run_ref : Type := {
  r_file : option string
}.

Record method_spec : Type := {
  m_name : option string;
  m_output : option string;
  m_k : option yaml_value;
  m_depth : option yaml_value;
  m_rrf_k : option yaml_value;
  m_alpha : option yaml_value;
  m_results : option (list (string * list float64))
}.

Record topic_set : Type := {
  t_id : string;
  t_qrel : option string
}.

Record metric_spec : Type := {
  mt_metric : string;
  mt_command : string;
  mt_params : option string;
  mt_separator : string;
  mt_parse_index : Z;
  mt_metric_precision : Z
}.

Record yaml_data : Type := {
  runs : option (list run_ref);
  methods : option (list method_spec);
  topics : option (list topic_set);
  metrics : option (list metric_spec)
}.

(** Lookup in a mapping kept as an association list. *)
Fixpoint dict_get {V : Type} (d : list (string * V)) (key : string) : option V :=
  match d with
  | [] => None
  | (k, v) :: d' => if String.eqb k key then Some v else dict_get d' key
  end.

(** [d[key] = v] *)
Fixpoint dict_set {V : Type} (d : list (string * V)) (key : string) (v : V)
  : list (string * V) :=
  match d with
  | [] => [(key, v)]
  | (k, v0) :: d' =>
      if String.eqb k key then (k, v) :: d' else (k, v0) :: dict_set d' key v
  end.

End Config.
Export Config.

(* ===================================================================== *)
(** ** The harness *)
(* ===================================================================== *)

Module Harness.

(** *** What a run does: log records and subprocesses *)

Inductive level : Type := INFO | ERROR.

(** Log records.  Commands are kept as the text that is logged; the other
    records keep the values that the format string interpolates. *)
Inductive message : Type :=
| MsgText (text : string)
| MsgUsing (use_pyserini : bool)
| MsgTesting (names : list (option string))
| MsgNormalize (method_name : string)
| MsgRunning (cmd : string)
| MsgCommandFailed (return_code : Z) (cmd : string)
| MsgCommandError (cmd : string) (e : exn)
| MsgVerifying
| MsgEvalFailed (e : exn)
| MsgOk (expected actual : float64) (metric method topics : string)
| MsgFail (expected actual : float64) (metric method topics : string)
| MsgElapsed
| MsgSomeFailed
| MsgAllPassed
| MsgConfigMissing
| MsgRunFileMissing (file : string).

Inductive event : Type :=
| Log (l : level) (m : message)
| Spawn (cmd : string).

Definition trace : Type := list event.

Definition is_spawn (e : event) : bool :=
  match e with
  | Spawn _ => true
  | Log _ _ => false
  end.

(** Number of subprocesses started so far. *)
Definition spawned (tr : trace) : nat := List.length (filter is_spawn tr).

(** *** What a run meets: the file system and the external programs *)

(** Outcome of [Popen(...).communicate()]: the spawn raised, or the
    process ended with a return code and a standard output; [stdout] is
    the output decoded as UTF-8, [None] when it does not decode. *)
Inductive proc_result : Type :=
| ProcRaised
| ProcDone (returncode : Z) (stdout : option string).

(** The external world.  A subprocess is given its rank among the
    subprocesses of the run, so that the same command line may behave
    differently each time. *)
Record world : Type := {
  load_yaml : string -> option yaml_data;  (* [None]: [FileNotFoundError] *)
  path_exists : string -> bool;
  call : nat -> string -> option Z;       (* [None]: [call] raised *)
  popen : nat -> string -> proc_result
}.

(** *** Computations: a trace is extended, and an exception may end them *)

Definition M (A : Type) : Type := trace -> trace * (exn + A).

Definition ret {A : Type} (a : A) : M A := fun tr => (tr, inr a).

Definition bind {A B : Type} (m : M A) (f : A -> M B) : M B :=
  fun tr =>
    match m tr with
    | (tr', inl e) => (tr', inl e)
    | (tr', inr a) => f a tr'
    end.

Definition raise {A : Type} (e : exn) : M A := fun tr => (tr, inl e).

Definition emit (ev : event) : M unit := fun tr => (tr ++ [ev], inr tt).

Definition lift {A : Type} (r : exn + A) : M A := fun tr => (tr, r).

Definition is_exception (e : exn) : bool :=
  match e with
  | SystemExit _ => false
  | _ => true
  end.

(** [try: m  except Exception as e: handler e] *)
Definition try_except {A : Type} (m : M A) (handler : exn -> M A) : M A :=
  fun tr =>
    match m tr with
    | (tr', inl e) => if is_exception e then handler e tr' else (tr', inl e)
    | r => r
    end.

Declare Scope harness_scope.
Delimit Scope harness_scope with harness.
Notation "x <- m ;; k" := (bind m (fun x => k))
  (at level 100, m at next level, right associativity) : harness_scope.
Notation "m ;;; k" := (bind m (fun _ => k))
  (at level 100, right associativity) : harness_scope.
Open Scope harness_scope.

(** [for a in l: s = body a s] *)
Fixpoint for_each {A S : Type} (body : A -> S -> M S) (l : list A) (s : S) : M S :=
  match l with
  | [] => ret s
  | a :: l' => s' <- body a s ;; for_each body l' s'
  end.

(** [[f(a) for a in l]] *)
Fixpoint map_M {A B : Type} (f : A -> M B) (l : list A) : M (list B) :=
  match l with
  | [] => ret []
  | a :: l' => b <- f a ;; bs <- map_M f l' ;; ret (b :: bs)
  end.

Definition logger_info (m : message) : M unit := emit (Log INFO m).
Definition logger_error (m : message) : M unit := emit (Log ERROR m).

(** [d[key]] on an optional field *)
Definition item {A : Type} (key : string) (o : option A) : M A :=
  match o with
  | Some v => ret v
  | None => raise (KeyError key)
  end.

(** [exit(code)] *)
Definition exit {A : Type} (code : Z) : M A := raise (SystemExit code).

(** [subprocess.call(cmd, shell=True)] *)
Definition subprocess_call (w : world) (cmd : string) : M Z :=
  fun tr =>
    match call w (spawned tr) cmd with
    | Some rc => (tr ++ [Spawn cmd], inr rc)
    | None => (tr ++ [Spawn cmd], inl OSError)
    end.

(** [Popen(cmd, shell=True, stdout=PIPE)] followed by [communicate()] *)
Definition subprocess_popen (w : world) (cmd : string) : M (Z * option string) :=
  fun tr =>
    match popen w (spawned tr) cmd with
    | ProcDone rc out => (tr ++ [Spawn cmd], inr (rc, out))
    | ProcRaised => (tr ++ [Spawn cmd], inl OSError)
    end.

(** *** Constants *)

Definition ANSERINI_FUSE_COMMAND : string := "bin/run.sh io.anserini.fusion.FuseRuns".
Definition PYSERINI_FUSE_COMMAND : string := "python -m pyserini.fusion".

Definition NL : string := String "010"%char EmptyString.

(** The float that the literal [1e-9] denotes, [0x1.12e0be826d695p-30]. *)
Definition rel_tol_units : Z := 4835703278458517 * 2 ^ 992.
Definition rel_tol_default : float64 := FFin false rel_tol_units.
Definition abs_tol_default : float64 := FFin false 0.

(** The float [0.5], the default of [alpha]. *)
Definition alpha_default : float64 := FFin false (2 ^ 1073).

(** *** [is_close] *)

Definition is_close (a b rel_tol abs_tol : float64) : bool :=
  fle (fabs (fsub a b)) (py_max (fmul rel_tol (py_max (fabs a) (fabs b))) abs_tol).

(** The call [is_close(a, b)], both tolerances left to their defaults. *)
Definition is_close_2 (a b : float64) : bool :=
  is_close a b rel_tol_default abs_tol_default.

(** *** [check_output] *)

Definition check_output (w : world) (command : string) : M (option string) :=
  r <- subprocess_popen w command ;;
  let '(returncode, output) := r in
  if returncode =? 0 then ret output else raise RuntimeError.

(** [bytes.decode('utf-8')] *)
Definition decode (output : option string) : M string :=
  match output with
  | Some text => ret text
  | None => raise UnicodeDecodeError
  end.

(** *** [construct_fusion_commands] *)

Definition name_in (name : option string) (supported : list string) : bool :=
  match name with
  | Some n => existsb (String.eqb n) supported
  | None => false
  end.

(** A command is a list of tokens; a token is [None] where the
    configuration had no value to put there. *)
Definition command : Type := list (option string).

Definition fusion_supported_methods : list string :=
  ["rrf"; "average"; "interpolation"].

(** The list that [cmd] is first bound to in the Pyserini branch. *)
Definition pyserini_cmd (method : method_spec) (method_name : string)
  (run_files : list string) (output_file : option string) : command :=
  [Some PYSERINI_FUSE_COMMAND;
   Some "--method"; Some method_name;
   Some "--runs"] ++ map Some run_files ++
  [Some "--output"; output_file;
   Some "--runtag"; Some (String.append "pyserini." method_name);
   Some "--k"; Some (py_str (get_or (m_k method) (YInt 1000)));
   Some "--depth"; Some (py_str (get_or (m_depth method) (YInt 1000)))].

(** The Pyserini branch: [cmd], extended with the parameters of the method. *)
Definition pyserini_command (method : method_spec) (method_name : string)
  (run_files : list string) (output_file : option string) : M command :=
  let cmd := pyserini_cmd method method_name run_files output_file in
  if String.eqb method_name "rrf" then
    ret (cmd ++ [Some "--rrf.k"; Some (py_str (get_or (m_rrf_k method) (YInt 60)))])
  else if String.eqb method_name "interpolation" then
    ret (cmd ++ [Some "--alpha";
                 Some (py_str (get_or (m_alpha method) (YFloat alpha_default)))])
  else if String.eqb method_name "normalize" then
    logger_info (MsgNormalize method_name) ;;; ret cmd
  else ret cmd.

Definition anserini_command (method : method_spec) (method_name : string)
  (run_files : list string) (output_file : option string) : command :=
  [Some ANSERINI_FUSE_COMMAND;
   Some "-runs"; Some (String.concat " " run_files);
   Some "-output"; output_file;
   Some "-method"; Some method_name;
   Some "-k"; Some (py_str (get_or (m_k method) (YInt 1000)));
   Some "-depth"; Some (py_str (get_or (m_depth method) (YInt 1000)));
   Some "-rrf_k"; Some (py_str (get_or (m_rrf_k method) (YInt 60)));
   Some "-alpha"; Some (py_str (get_or (m_alpha method) (YFloat alpha_default)))].

(** The body of the loop over the methods: the command of [method] is
    appended to [commands]. *)
Definition add_fusion_command (yaml_data : yaml_data) (use_pyserini : bool)
  (method : method_spec) (commands : list command) : M (list command) :=
  let method_name := get_or (m_name method) "average" in
  all_runs <- item "runs" (runs yaml_data) ;;
  run_files <- map_M (fun run => item "file" (r_file run)) all_runs ;;
  let output_file := m_output method in
  if use_pyserini then
    cmd <- pyserini_command method method_name run_files output_file ;;
    ret (commands ++ [cmd])
  else
    ret (commands ++ [anserini_command method method_name run_files output_file]).

Definition construct_fusion_commands (yaml_data : yaml_data) (use_pyserini : bool)
  : M (list command) :=
  all_methods <- item "methods" (methods yaml_data) ;;
  let filtered_methods :=
    filter (fun method => name_in (m_name method) fusion_supported_methods)
           all_methods in
  logger_info (MsgTesting (map m_name filtered_methods)) ;;;
  for_each (add_fusion_command yaml_data use_pyserini) filtered_methods [].

(** *** [run_fusion_commands] *)

Definition run_fusion_commands (w : world) (cmds : list command) : M unit :=
  for_each
    (fun cmd_list _ =>
       cmd <- lift (join_tokens cmd_list) ;;
       logger_info (MsgRunning cmd) ;;;
       try_except
         (return_code <- subprocess_call w cmd ;;
          if negb (return_code =? 0)
          then logger_error (MsgCommandFailed return_code cmd)
          else ret tt)
         (fun e => logger_error (MsgCommandError cmd e)))
    cmds tt.

(** *** [evaluate_and_verify] *)

Definition verify_supported_methods : list string :=
  ["rrf"; "average"; "interpolation"; "normalize"].

(** The two variables carried through the loops. *)
Record verify_state : Type := {
  failures : bool;
  results : list (string * list (string * float64))
}.

(** [results[name][metric] = actual], after [results[name] = {}] when
    the name is new. *)
Definition record_result (results : list (string * list (string * float64)))
  (name metric : string) (actual : float64)
  : list (string * list (string * float64)) :=
  let results' :=
    match dict_get results name with
    | Some _ => results
    | None => dict_set results name []
    end in
  dict_set results' name (dict_set (get_or (dict_get results' name) []) metric actual).

Definition eval_cmd (method : method_spec) (topic_set : topic_set)
  (metric : metric_spec) : list string :=
  let output_runfile :=
    match m_output method with
    | Some o => o
    | None => "None"
    end in
  [mt_command metric;
   match mt_params metric with
   | Some p => if truthy p then p else ""
   | None => ""
   end;
   match t_qrel topic_set with
   | Some q => if truthy q then path_join "tools/topics-and-qrels" q else ""
   | None => ""
   end;
   output_runfile].

(** [if line.strip()] *)
Definition nonblank (line : string) : bool := truthy (strip line).

(** The body of the [try]: the last line of the evaluator's output that
    is not blank; [None] stands for the [continue] inside the [try]. *)
Definition result_line (w : world) (cmdline : string) : M (option string) :=
  output <- check_output w cmdline ;;
  text <- decode output ;;
  lines <- lift (py_split text NL) ;;
  out <- lift (py_index (filter nonblank lines) (-1)) ;;
  if negb (nonblank out) then ret None else ret (Some out).

(** The verdict on one triple and its effect on the failure flag. *)
Definition passes (expected actual : float64) : bool :=
  is_close_2 expected actual || fgt actual expected.

(** What is done with the result line [out]: the score is read off it,
    rounded like the expected score, compared with it, logged and
    recorded. *)
Definition compare_scores (method : method_spec) (i : nat) (topic_set : topic_set)
  (metric : metric_spec) (st : verify_state) (out : string) : M verify_state :=
  fields <- lift (py_split (strip out) (mt_separator metric)) ;;
  eval_out <- lift (py_index fields (mt_parse_index metric)) ;;
  all_results <- item "results" (m_results method) ;;
  scores <- item (mt_metric metric) (dict_get all_results (mt_metric metric)) ;;
  score <- lift (py_index scores (Z.of_nat i)) ;;
  expected <- lift (py_round score (mt_metric_precision metric)) ;;
  parsed <- match py_float eval_out with
            | Some x => ret x
            | None => raise ValueError
            end ;;
  actual <- lift (py_round parsed (mt_metric_precision metric)) ;;
  name <- item "name" (m_name method) ;;
  failures' <-
    (if passes expected actual
     then logger_info (MsgOk expected actual (mt_metric metric) name (t_id topic_set)) ;;;
          ret (failures st)
     else logger_error (MsgFail expected actual (mt_metric metric) name (t_id topic_set)) ;;;
          ret true) ;;
  ret {| failures := failures';
         results := record_result (results st) name (mt_metric metric) actual |}.

(** The body of the innermost loop, for the method [method], the
    [i]-th topic set [topic_set] and the metric [metric]. *)
Definition verify_triple (w : world) (dry_run : bool) (method : method_spec)
  (i : nat) (topic_set : topic_set) (metric : metric_spec) (st : verify_state)
  : M verify_state :=
  let cmdline := String.concat " " (eval_cmd method topic_set metric) in
  if dry_run then
    logger_info (MsgText cmdline) ;;; ret st
  else
    line <- try_except (result_line w cmdline)
              (fun e => logger_error (MsgEvalFailed e) ;;; ret None) ;;
    match line with
    | None => ret st
    | Some out => compare_scores method i topic_set metric st out
    end.

(** [enumerate(l)] *)
Definition enumerate {A : Type} (l : list A) : list (nat * A) :=
  combine (seq 0 (List.length l)) l.

(** The three nested loops. *)
Definition verify_loops (w : world) (yaml_data : yaml_data) (dry_run : bool)
  : M verify_state :=
  all_methods <- item "methods" (methods yaml_data) ;;
  let filtered_methods :=
    filter (fun method => name_in (m_name method) verify_supported_methods)
           all_methods in
  for_each
    (fun method st =>
       all_topics <- item "topics" (topics yaml_data) ;;
       for_each
         (fun it st =>
            all_metrics <- item "metrics" (metrics yaml_data) ;;
            for_each
              (fun metric st => verify_triple w dry_run method (fst it) (snd it) metric st)
              all_metrics st)
         (enumerate all_topics) st)
    filtered_methods {| failures := false; results := [] |}.

Definition evaluate_and_verify (w : world) (yaml_data : yaml_data) (dry_run : bool)
  : M unit :=
  logger_info MsgVerifying ;;;
  st <- verify_loops w yaml_data dry_run ;;
  logger_info MsgElapsed ;;;
  if failures st then logger_error MsgSomeFailed else logger_info MsgAllPassed.

(** *** The script *)

Record args : Type := {
  regression : string;
  dry_run : bool;
  use_pyserini : bool
}.

Definition config_path (a : args) : string :=
  String.append "src/main/resources/fusion_regression/"
                (String.append (regression a) ".yaml").

Definition main (w : world) (a : args) : M unit :=
  yaml_data <- match load_yaml w (config_path a) with
               | Some y => ret y
               | None => logger_error MsgConfigMissing ;;; exit 1
               end ;;
  all_runs <- item "runs" (runs yaml_data) ;;
  for_each
    (fun run _ =>
       file <- item "file" (r_file run) ;;
       if negb (path_exists w file)
       then logger_error (MsgRunFileMissing file) ;;; exit 1
       else ret tt)
    all_runs tt ;;;
  logger_info (MsgUsing (use_pyserini a)) ;;;
  fusion_commands <- construct_fusion_commands yaml_data (use_pyserini a) ;;
  (if dry_run a
   then text <- lift (join_tokens (List.concat fusion_commands)) ;;
        logger_info (MsgText text)
   else run_fusion_commands w fusion_commands) ;;;
  evaluate_and_verify w yaml_data (dry_run a) ;;;
  logger_info MsgElapsed.

(** A run of the script from nothing: its trace and how it ends. *)
Definition run (w : world) (a : args) : trace * (exn + unit) := main w a [].

(** The exit status of the process: the code given to [exit], 1 after an
    exception nobody caught, 0 at the end of the script. *)
Definition exit_status (r : exn + unit) : Z :=
  match r with
  | inr _ => 0
  | inl (SystemExit code) => code
  | inl _ => 1
  end.

End Harness.
Export Harness.

(* ===================================================================== *)
(** ** Vocabulary of the statements *)
(* ===================================================================== *)

Module Spec.

(** [ext_le] as a test, and the larger of two values under it. *)
Definition ext_leb (x y : float64) : bool :=
  match x, y with
  | FNan, _ | _, FNan => false
  | FInf true, _ => true
  | _, FInf false => true
  | FInf false, _ => false
  | _, FInf true => false
  | FFin sx nx, FFin sy ny => sval sx nx <=? sval sy ny
  end.

Definition math_max (x y : float64) : float64 := if ext_leb x y then y else x.

(** The closeness test in the words of the specification:
    [|a - b| <= max(rel_tol * max(|a|, |b|), abs_tol)], with the order and
    the maximum of the extended real line. *)
Definition is_close_spec (a b rel_tol abs_tol : float64) : Prop :=
  ext_le (fabs (fsub a b)) (math_max (fmul rel_tol (math_max (fabs a) (fabs b))) abs_tol).

(** A stretch of trace in which no subprocess is started. *)
Definition only_logs (l : trace) : Prop := Forall (fun e => is_spawn e = false) l.

(** [m] only appends events that satisfy [P], and only raises exceptions
    that satisfy [R]. *)
Definition ensures {A : Type} (P : event -> Prop) (R : exn -> Prop) (m : M A) : Prop :=
  forall tr, exists l,
    fst (m tr) = tr ++ l /\ Forall P l /\ (forall e, snd (m tr) = inl e -> R e).

(** The log record of a verdict. *)
Definition verdict (pass : bool) (expected actual : float64)
  (metric method topics : string) : event :=
  if pass then Log INFO (MsgOk expected actual metric method topics)
  else Log ERROR (MsgFail expected actual metric method topics).

(** The command line that evaluates a triple. *)
Definition eval_cmdline (method : method_spec) (topic_set : topic_set)
  (metric : metric_spec) : string :=
  String.concat " " (eval_cmd method topic_set metric).

(** How a triple shows in the trace: its command line is logged in
    dry-run mode and started as a subprocess otherwise. *)
Definition triple_event (dry_run : bool) (method : method_spec)
  (topic_set : topic_set) (metric : metric_spec) : event :=
  if dry_run then Log INFO (MsgText (eval_cmdline method topic_set metric))
  else Spawn (eval_cmdline method topic_set metric).

(** The values of [file] in the runs, when every run has one. *)
Fixpoint files_of (rs : list run_ref) : option (list string) :=
  match rs with
  | [] => Some []
  | r :: rs' =>
      match r_file r, files_of rs' with
      | Some f, Some fs => Some (f :: fs)
      | _, _ => None
      end
  end.

(** The methods for which a fusion command is built. *)
Definition fusion_methods (ms : list method_spec) : list method_spec :=
  filter (fun method => name_in (m_name method) fusion_supported_methods) ms.

(** The parameters that the Pyserini branch adds for a method. *)
Definition pyserini_extra (method : method_spec) (name : string) : command :=
  if String.eqb name "rrf"
  then [Some "--rrf.k"; Some (py_str (get_or (m_rrf_k method) (YInt 60)))]
  else if String.eqb name "interpolation"
  then [Some "--alpha"; Some (py_str (get_or (m_alpha method) (YFloat alpha_default)))]
  else [].

(** The command built for one method, given the run files. *)
Definition fusion_command (use_pyserini : bool) (files : list string)
  (method : method_spec) : command :=
  let name := get_or (m_name method) "average" in
  if use_pyserini
  then pyserini_cmd method name files (m_output method) ++ pyserini_extra method name
  else anserini_command method name files (m_output method).

(** The script once the configuration is loaded and the run files are
    checked. *)
Definition after_checks (w : world) (a : args) (yaml_data : yaml_data) : M unit :=
  logger_info (MsgUsing (use_pyserini a)) ;;;
  fusion_commands <- construct_fusion_commands yaml_data (use_pyserini a) ;;
  (if dry_run a
   then text <- lift (join_tokens (List.concat fusion_commands)) ;;
        logger_info (MsgText text)
   else run_fusion_commands w fusion_commands) ;;;
  evaluate_and_verify w yaml_data (dry_run a) ;;;
  logger_info MsgElapsed.

(** The check of the run files. *)
Definition check_run_files (w : world) (all_runs : list run_ref) : M unit :=
  for_each
    (fun run _ =>
       file <- item "file" (r_file run) ;;
       if negb (path_exists w file)
       then logger_error (MsgRunFileMissing file) ;;; exit 1
       else ret tt)
    all_runs tt.

(** Exceptions in the sense of [except Exception]. *)
Definition is_exn (e : exn) : Prop := is_exception e = true.

(** In dry-run mode no event is a subprocess. *)
Definition mode_event (dry_run : bool) (ev : event) : Prop :=
  dry_run = true -> is_spawn ev = false.

(** The evaluation failed, or printed nothing but blank lines. *)
Definition evaluation_failed (r : proc_result) : Prop :=
  r = ProcRaised \/
  (exists rc out, r = ProcDone rc out /\ rc <> 0) \/
  r = ProcDone 0 None \/
  (exists text lines, r = ProcDone 0 (Some text) /\ py_split text NL = inr lines /\
                      filter nonblank lines = []).

(** The trace [tr'] extends [tr0] by events among which [ev] is. *)
Definition happened_since (tr0 : trace) (ev : event) (tr' : trace) : Prop :=
  exists l, tr' = tr0 ++ l /\ In ev l.

(** The tokens of a command that come from the configuration. *)
Definition data_tokens (method : method_spec) (files : list string) : command :=
  map Some files ++
  [m_output method;
   Some (py_str (get_or (m_k method) (YInt 1000)));
   Some (py_str (get_or (m_depth method) (YInt 1000)));
   Some (py_str (get_or (m_rrf_k method) (YInt 60)));
   Some (py_str (get_or (m_alpha method) (YFloat alpha_default)))].

End Spec.
Export Spec.

(* ===================================================================== *)
(** ** Configurations and worlds used as examples *)
(* ===================================================================== *)

Module Scenarios.

Definition TAB : string := String "009"%char EmptyString.

(** The floats [0.4123] and [0.7]. *)
Definition f_0_4123 : float64 := of_decimal false 4123 (-4).
Definition f_0_7 : float64 := of_decimal false 7 (-1).

Definition rrf_method : method_spec := {|
  m_name := Some "rrf";
  m_output := Some "runs/fused.rrf.txt";
  m_k := None; m_depth := None; m_rrf_k := Some (YInt 60); m_alpha := None;
  m_results := Some [("nDCG@10", [f_0_4123])]
|}.

Definition interpolation_method : method_spec := {|
  m_name := Some "interpolation";
  m_output := Some "runs/fused.interp.txt";
  m_k := None; m_depth := None; m_rrf_k := None; m_alpha := Some (YFloat f_0_7);
  m_results := Some [("nDCG@10", [f_0_4123])]
|}.

Definition normalize_method : method_spec := {|
  m_name := Some "normalize";
  m_output := Some "runs/fused.norm.txt";
  m_k := None; m_depth := None; m_rrf_k := None; m_alpha := None;
  m_results := Some [("nDCG@10", [f_0_4123])]
|}.

(** A method whose mapping has no [output] key. *)
Definition no_output_method : method_spec := {|
  m_name := Some "rrf";
  m_output := None;
  m_k := None; m_depth := None; m_rrf_k := None; m_alpha := None;
  m_results := Some [("nDCG@10", [f_0_4123])]
|}.

Definition ndcg : metric_spec := {|
  mt_metric := "nDCG@10";
  mt_command := "bin/trec_eval";
  mt_params := Some "-c -m ndcg_cut.10";
  mt_separator := TAB;
  mt_parse_index := 2;
  mt_metric_precision := 4
|}.

Definition dl19 : topic_set := {| t_id := "dl19"; t_qrel := Some "qrels.dl19.txt" |}.

Definition two_runs : list run_ref :=
  [ {| r_file := Some "runs/a.txt" |}; {| r_file := Some "runs/b.txt" |} ].

Definition config_of (ms : list method_spec) : yaml_data := {|
  runs := Some two_runs;
  methods := Some ms;
  topics := Some [dl19];
  metrics := Some [ndcg]
|}.

(** A world where the configuration is [cfg], every file exists, fusion
    commands succeed and every evaluation prints [out]. *)
Definition world_of (cfg : yaml_data) (out : string) : world := {|
  load_yaml := fun _ => Some cfg;
  path_exists := fun _ => true;
  call := fun _ _ => Some 0;
  popen := fun _ _ => ProcDone 0 (Some out)
|}.

(** The same world with the file [missing] absent. *)
Definition world_without (cfg : yaml_data) (missing : string) : world := {|
  load_yaml := fun _ => Some cfg;
  path_exists := fun f => negb (String.eqb f missing);
  call := fun _ _ => Some 0;
  popen := fun _ _ => ProcDone 0 (Some "")
|}.

(** A world where every evaluation ends with return code 1. *)
Definition world_failing (cfg : yaml_data) : world := {|
  load_yaml := fun _ => Some cfg;
  path_exists := fun _ => true;
  call := fun _ _ => Some 0;
  popen := fun _ _ => ProcDone 1 (Some "")
|}.

(** The last line that [trec_eval] prints for one measure. *)
Definition eval_output (score : string) : string :=
  String.append "ndcg_cut_10"
    (String.append TAB (String.append "all" (String.append TAB (String.append score NL)))).

Definition execute : args := {| regression := "example"; dry_run := false; use_pyserini := false |}.
Definition dry_pyserini : args := {| regression := "example"; dry_run := true; use_pyserini := true |}.

Definition empty_state : verify_state := {| failures := false; results := [] |}.

End Scenarios.
Export Scenarios.

(* ===================================================================== *)
(** ** The comparison with ranx ([compare_with_ranx]) *)
(* ===================================================================== *)

Module Ranx.

(** The names of the fusion methods and of the metrics in ranx. *)
Definition fusion_method_ranx : list (string * string) :=
  [("rrf", "rrf"); ("average", "sum"); ("interpolation", "wsum"); ("normalize", "sum")].

Definition metrics_ranx : list (string * string) :=
  [("nDCG@10", "ndcg@10"); ("R@100", "recall@100"); ("R@1000", "recall@1000")].

(** [1 - v] on a value of the configuration. *)
Definition one_minus (v : yaml_value) : exn + yaml_value :=
  match v with
  | YInt z => inr (YInt (1 - z))
  | YBool b => inr (YInt (1 - (if b then 1 else 0)))
  | YFloat f => inr (YFloat (fsub (FFin false ONE) f))
  | YStr _ | YNull => inl TypeError
  end.

(** The values of [best_params]. *)
Inductive param : Type :=
| Weights (first second : yaml_value)
| Value (v : yaml_value).

(** The arguments of one call of [fuse], the runs apart. *)
Record fuse_args : Type := {
  fa_norm : option string;
  fa_method : string;
  fa_params : list (string * param)
}.

Section Library.

(** The objects of ranx: relevance judgments, runs, evaluation results. *)
Variables qrels_t run_t scores_t : Type.

(** The functions of ranx that are called; each may raise. *)
Record library : Type := {
  Qrels_from_file : string -> exn + qrels_t;
  Run_from_file : string -> exn + run_t;        (* [kind="trec"] *)
  make_comparable : run_t -> qrels_t -> exn + run_t;
  fuse : list run_t -> fuse_args -> exn + run_t;
  evaluate : qrels_t -> run_t -> list string -> exn + scores_t
}.

Variable lib : library.

(** The first loop, [runs[i] = Run.from_file(r, ...).make_comparable(qrels)]:
    the list that the caller passed is updated in place, so that what it
    holds when an exception interrupts the loop is part of the outcome.
    [done] are the elements already replaced, in reverse order. *)
Fixpoint load_runs (q : qrels_t) (done : list run_t) (todo : list string)
  : list (string + run_t) * (exn + list run_t) :=
  match todo with
  | [] => (map inr (rev done), inr (rev done))
  | r :: todo' =>
      match Run_from_file lib r with
      | inl e => (map inr (rev done) ++ map inl todo, inl e)
      | inr loaded =>
          match make_comparable lib loaded q with
          | inl e => (map inr (rev done) ++ map inl todo, inl e)
          | inr comparable => load_runs q (comparable :: done) todo'
          end
      end
  end.

(** The arguments of [fuse] for one method: the name of the method in
    ranx, [best_params] and [norm_method]. *)
Definition fuse_arguments (m : method_spec) : exn + (string * fuse_args) :=
  match m_name m with
  | None => inl (KeyError "name")
  | Some name =>
      match dict_get fusion_method_ranx name with
      | None => inl (KeyError name)
      | Some ranx_method =>
          let best_params :=
            if String.eqb ranx_method "wsum" then
              let alpha := get_or (m_alpha m) (YFloat alpha_default) in
              match one_minus alpha with
              | inl e => inl e
              | inr rest => inr [("weights", Weights alpha rest)]
              end
            else if String.eqb ranx_method "rrf" then
              inr [("k", Value (get_or (m_rrf_k m) (YInt 60)))]
            else inr [] in
          match best_params with
          | inl e => inl e
          | inr params =>
              let norm_method :=
                if String.eqb name "normalize" then Some "min-max" else None in
              inr (name, {| fa_norm := norm_method; fa_method := ranx_method;
                            fa_params := params |})
          end
      end
  end.

(** The second loop. *)
Fixpoint fuse_methods (q : qrels_t) (rs : list run_t) (metrics : list string)
  (methods : list method_spec) (ranx_results : list (string * scores_t))
  : exn + list (string * scores_t) :=
  match methods with
  | [] => inr ranx_results
  | m :: methods' =>
      match fuse_arguments m with
      | inl e => inl e
      | inr (name, args) =>
          match fuse lib rs args with
          | inl e => inl e
          | inr fused =>
              match evaluate lib q fused metrics with
              | inl e => inl e
              | inr results =>
                  fuse_methods q rs metrics methods' (dict_set ranx_results name results)
              end
          end
      end
  end.

(** [compare_with_ranx]: the list [runs] as the call leaves it, and the
    result or the exception. *)
Definition compare_with_ranx (qrel_file : string) (runs : list string)
  (methods : list method_spec) (metrics : list string)
  : list (string + run_t) * (exn + list (string * scores_t)) :=
  match Qrels_from_file lib qrel_file with
  | inl e => (map inl runs, inl e)
  | inr q =>
      match load_runs q [] runs with
      | (runs', inl e) => (runs', inl e)
      | (runs', inr rs) => (runs', fuse_methods q rs metrics methods [])
      end
  end.

End Library.

Arguments Qrels_from_file {qrels_t run_t scores_t}.
Arguments Run_from_file {qrels_t run_t scores_t}.
Arguments make_comparable {qrels_t run_t scores_t}.
Arguments fuse {qrels_t run_t scores_t}.
Arguments evaluate {qrels_t run_t scores_t}.
Arguments load_runs {qrels_t run_t scores_t}.
Arguments fuse_methods {qrels_t run_t scores_t}.
Arguments compare_with_ranx {qrels_t run_t scores_t}.

(** A library for the examples: judgments and runs are the names of
    their files, a fused run lists the method and the runs, the results
    are those of the run [fused]. *)
Definition toy_library : library string string string := {|
  Qrels_from_file := fun f => inr f;
  Run_from_file := fun f => inr f;
  make_comparable := fun r _ => inr r;
  fuse := fun rs args => inr (String.concat "+" (fa_method args :: rs));
  evaluate := fun _ fused _ => inr fused
|}.

End Ranx.
Export Ranx.

(* ===================================================================== *)
(** ** More vocabulary: traces, commands, recorded scores *)
(* ===================================================================== *)

Module Behaviour.

(** A FAIL verdict. *)
Definition is_fail (ev : event) : bool :=
  match ev with
  | Log _ (MsgFail _ _ _ _ _) => true
  | _ => false
  end.

(** The methods that the verification goes through. *)
Definition verified_methods (ms : list method_spec) : list method_spec :=
  filter (fun method => name_in (m_name method) verify_supported_methods) ms.

(** The evaluation command lines in the order of the three loops:
    methods, then topic sets, then metrics. *)
Definition eval_lines (ms : list method_spec) (ts : list topic_set)
  (mts : list metric_spec) : list string :=
  flat_map (fun method =>
    flat_map (fun topic_set => map (eval_cmdline method topic_set) mts) ts)
    (verified_methods ms).

(** The command lines of the commands [cmds], when no token is missing. *)
Definition joined (cmds : list command) (texts : list string) : Prop :=
  Forall2 (fun cmd text => join_tokens cmd = inr text) cmds texts.

(** What a skipped evaluation leaves in the trace. *)
Definition skip_event (ev : event) : Prop :=
  is_spawn ev = true \/ exists e, ev = Log ERROR (MsgEvalFailed e).

(** The events of [run_fusion_commands]: subprocesses and the records
    about them. *)
Definition fusion_event (ev : event) : bool :=
  match ev with
  | Spawn _ => true
  | Log INFO (MsgRunning _) => true
  | Log ERROR (MsgCommandFailed _ _) => true
  | Log ERROR (MsgCommandError _ _) => true
  | _ => false
  end.

(** The exceptions that the script lets out: those of the lookups and of
    the conversions, and [exit(1)]. *)
Definition may_escape (e : exn) : bool :=
  match e with
  | KeyError _ | IndexError | ValueError | TypeError | OverflowError => true
  | SystemExit code => code =? 1
  | OSError | RuntimeError | UnicodeDecodeError => false
  end.

Definition escapes (e : exn) : Prop := may_escape e = true.

(** A world where the first fusion command returns 2 and the second
    cannot be started. *)
Definition world_fusion_failing (cfg : yaml_data) : world := {|
  load_yaml := fun _ => Some cfg;
  path_exists := fun _ => true;
  call := fun n _ => match n with O => Some 2 | 1%nat => None | _ => Some 0 end;
  popen := fun _ _ => ProcDone 0 (Some "")
|}.

(** [results[name][metric]] *)
Definition recorded (results : list (string * list (string * float64)))
  (name metric : string) : option float64 :=
  match dict_get results name with
  | Some scores => dict_get scores metric
  | None => None
  end.

(** A score that rounds to at most [2^26] units of the last of [p]
    decimals: [|x| * 10^p <= 2^26]. *)
Definition score_in_range (x : float64) (p : Z) : bool :=
  match x with
  | FFin _ n => (0 <=? n) && (n * 10 ^ p <=? 2 ^ 26 * ONE)
  | _ => false
  end.

(** What the summary at the end of the verification says. *)
Definition summary (failed : bool) : event :=
  if failed then Log ERROR MsgSomeFailed else Log INFO MsgAllPassed.

End Behaviour.
Export Behaviour.

(* ===================================================================== *)
(** ** Numbers written with decimal digits *)
(* ===================================================================== *)

Module Decimals.

(** The character of a decimal digit, and a number written with digits:
    [ip] before the point and [fp] after it. *)
Definition digit_char (d : Z) : ascii := ascii_of_N (Z.to_N (48 + d)).

Definition digits_value (ds : list Z) : Z :=
  fold_left (fun acc d => 10 * acc + d) ds 0.

Definition decimal_text (ip fp : list Z) : string :=
  string_of_list_ascii (map digit_char ip ++ "."%char :: map digit_char fp).

(** The characters of a plain decimal: digits and the point. *)
Definition plain (c : ascii) : Prop :=
  c = "."%char \/ exists d, 0 <= d <= 9 /\ c = digit_char d.

End Decimals.
Export Decimals.

Open Scope harness_scope.

(* ===================================================================== *)
(** ** The models of the builtins on known values *)
(* ===================================================================== *)

(** Subtraction and multiplication give the results of the Standard
    Library's binary64 operations. *)
Example fmul_conforms :
  to_spec (fmul rel_tol_default f_0_4123)
  = SpecFloat.SFmul 53 1024 (to_spec rel_tol_default) (to_spec f_0_4123).
Proof. vm_compute. reflexivity. Qed.

Example fsub_conforms :
  to_spec (fsub f_0_4123 f_0_7)
  = SpecFloat.SFsub 53 1024 (to_spec f_0_4123) (to_spec f_0_7)
  /\ to_spec (fsub alpha_default rel_tol_default)
    = SpecFloat.SFsub 53 1024 (to_spec alpha_default) (to_spec rel_tol_default).
Proof. vm_compute. split; reflexivity. Qed.

(** [0.1 + 0.2] is not [0.3], [1e22] and [1e-05] are printed with an
    exponent, integers with [.0]. *)
Example float_repr_examples :
  float_repr f_0_7 = "0.7" /\
  float_repr f_0_4123 = "0.4123" /\
  float_repr (of_decimal false 30000000000000004 (-17)) = "0.30000000000000004" /\
  float_repr (of_decimal false 1 22) = "1e+22" /\
  float_repr (of_decimal false 1 (-5)) = "1e-05" /\
  float_repr (of_decimal false 123456789 0) = "123456789.0" /\
  float_repr (FFin true 0) = "-0.0".
Proof. vm_compute. repeat split; reflexivity. Qed.

(** [round(2.675, 2)] is [2.67] (the float below 2.675), [round(0.41235, 4)]
    is [0.4123]. *)
Example py_round_examples :
  py_round (of_decimal false 2675 (-3)) 2 = inr (of_decimal false 267 (-2)) /\
  py_round (of_decimal false 41235 (-5)) 4 = inr f_0_4123 /\
  py_round f_0_4123 4 = inr f_0_4123 /\
  py_round (of_decimal true 3 (-1)) 0 = inr (FFin true 0).
Proof. vm_compute. repeat split; reflexivity. Qed.

Example py_float_examples :
  py_float " 1_000.5e-3 " = Some (of_decimal false 10005 (-4)) /\
  py_float "0.4123" = Some f_0_4123 /\
  py_float "-inf" = Some (FInf true) /\
  py_float "1e" = None /\ py_float "1__0" = None /\ py_float "" = None /\
  py_float "n/a" = None.
Proof. vm_compute. repeat split; reflexivity. Qed.

(** Expected 0.4123: the score 0.4123 passes, 0.3000 fails and 0.5000
    passes as an improvement. *)
Example pass_rule_scenarios :
  passes f_0_4123 f_0_4123 = true /\
  passes f_0_4123 (of_decimal false 3000 (-4)) = false /\
  passes f_0_4123 (of_decimal false 5000 (-4)) = true /\
  is_close_2 f_0_4123 (of_decimal false 5000 (-4)) = false.
Proof. vm_compute. repeat split; reflexivity. Qed.

(* ===================================================================== *)
(** ** Rounding *)
(* ===================================================================== *)

Lemma div_half_even_cases p d :
  0 <= p -> 0 < d ->
  exists m r, p = d * m + r /\ 0 <= r < d /\ 0 <= m /\
    ((2 * r < d /\ div_half_even p d = m) \/
     (d < 2 * r /\ div_half_even p d = m + 1) \/
     (2 * r = d /\ Z.even m = true /\ div_half_even p d = m) \/
     (2 * r = d /\ Z.even m = false /\ div_half_even p d = m + 1)).
Proof.
  intros Hp Hd. exists (p / d), (p mod d).
  pose proof (Z.div_mod p d ltac:(lia)) as E.
  pose proof (Z.mod_pos_bound p d Hd) as B.
  pose proof (Z.div_pos p d Hp Hd) as M.
  repeat split; try lia.
  unfold div_half_even.
  destruct (Z.ltb_spec (2 * (p mod d)) d); [left; lia|].
  destruct (Z.ltb_spec d (2 * (p mod d))); [right; left; lia|].
  destruct (Z.even (p / d)) eqn:Ev; [right; right; left | right; right; right]; repeat split; lia.
Qed.

Lemma div_half_even_bounds p d :
  0 <= p -> 0 < d ->
  2 * p - d <= 2 * (d * div_half_even p d) <= 2 * p + d.
Proof.
  intros Hp Hd.
  destruct (div_half_even_cases p d Hp Hd) as (m & r & E & B & M & C).
  destruct C as [[? ->]|[[? ->]|[(? & ? & ->)|(? & ? & ->)]]]; nia.
Qed.

Lemma div_half_even_nonneg p d : 0 <= p -> 0 < d -> 0 <= div_half_even p d.
Proof.
  intros Hp Hd.
  destruct (div_half_even_cases p d Hp Hd) as (m & r & E & B & M & C).
  destruct C as [[? ->]|[[? ->]|[(? & ? & ->)|(? & ? & ->)]]]; lia.
Qed.

Lemma div_half_even_floor p d :
  0 <= p -> 0 < d -> p / d <= div_half_even p d <= p / d + 1.
Proof.
  intros Hp Hd. unfold div_half_even.
  repeat match goal with |- context [if ?b then _ else _] => destruct b end; lia.
Qed.

Lemma even_succ_flip m : Z.even m = true -> Z.even (m + 1) = false.
Proof. intros H. rewrite Z.even_add, H. reflexivity. Qed.

Lemma div_half_even_mono p1 d1 p2 d2 :
  0 <= p1 -> 0 < d1 -> 0 <= p2 -> 0 < d2 ->
  p1 * d2 <= p2 * d1 ->
  div_half_even p1 d1 <= div_half_even p2 d2.
Proof.
  intros Hp1 Hd1 Hp2 Hd2 H.
  destruct (div_half_even_cases p1 d1 Hp1 Hd1) as (m1 & r1 & E1 & B1 & M1 & C1).
  destruct (div_half_even_cases p2 d2 Hp2 Hd2) as (m2 & r2 & E2 & B2 & M2 & C2).
  assert (Hm : m1 <= m2) by nia.
  destruct (Z.eq_dec m1 m2) as [->|Hne].
  - assert (Hr : r1 * d2 <= r2 * d1) by nia.
    destruct C1 as [[? ->]|[[? ->]|[(? & Ev1 & ->)|(? & Ev1 & ->)]]];
    destruct C2 as [[? ->]|[[? ->]|[(? & Ev2 & ->)|(? & Ev2 & ->)]]];
    try lia; try congruence; exfalso; nia.
  - assert (m1 + 1 <= m2) by lia.
    destruct C1 as [[? ->]|[[? ->]|[(? & Ev1 & ->)|(? & Ev1 & ->)]]];
    destruct C2 as [[? ->]|[[? ->]|[(? & Ev2 & ->)|(? & Ev2 & ->)]]]; lia.
Qed.

Lemma div_half_even_exact k d : 0 <= k -> 0 < d -> div_half_even (k * d) d = k.
Proof.
  intros Hk Hd. unfold div_half_even.
  rewrite Z.div_mul, Z.mod_mul by lia.
  destruct (Z.ltb_spec (2 * 0) d); [reflexivity | lia].
Qed.

Lemma lost_bits_nonneg p q : 0 <= lost_bits p q.
Proof. unfold lost_bits. lia. Qed.

Lemma log2_excess_spec f :
  0 <= f ->
  let s := Z.max 0 (Z.log2 f - 52) in
  (s = 0 /\ f < 2 ^ 53) \/ (0 < s /\ 2 ^ (52 + s) <= f < 2 ^ (53 + s)).
Proof.
  intros Hf s. subst s.
  destruct (Z.eq_dec f 0) as [->|Hne].
  - left. split; [reflexivity | reflexivity].
  - pose proof (Z.log2_spec f ltac:(lia)) as [Hlo Hhi].
    pose proof (Z.log2_nonneg f) as Hn.
    destruct (Z.le_gt_cases (Z.log2 f - 52) 0) as [Hs|Hs].
    + left. split; [lia|].
      eapply Z.lt_le_trans; [exact Hhi|].
      apply Z.pow_le_mono_r; lia.
    + right. rewrite Z.max_r by lia. split; [lia|].
      replace (52 + (Z.log2 f - 52)) with (Z.log2 f) by lia.
      replace (53 + (Z.log2 f - 52)) with (Z.succ (Z.log2 f)) by lia.
      split; assumption.
Qed.

Lemma lost_bits_spec p q :
  0 <= p -> 0 < q ->
  (lost_bits p q = 0 /\ p / q < 2 ^ 53) \/
  (0 < lost_bits p q /\ 2 ^ (52 + lost_bits p q) <= p / q < 2 ^ (53 + lost_bits p q)).
Proof.
  intros Hp Hq. apply log2_excess_spec. apply Z.div_pos; lia.
Qed.

Lemma div_cross_mono p1 q1 p2 q2 :
  0 <= p1 -> 0 < q1 -> 0 <= p2 -> 0 < q2 ->
  p1 * q2 <= p2 * q1 -> p1 / q1 <= p2 / q2.
Proof.
  intros Hp1 Hq1 Hp2 Hq2 H.
  apply Z.div_le_lower_bound; [lia|].
  pose proof (Z.mul_div_le p1 q1 Hq1).
  pose proof (Z.div_pos p1 q1 Hp1 Hq1).
  nia.
Qed.

Lemma lost_bits_mono p1 q1 p2 q2 :
  0 <= p1 -> 0 < q1 -> 0 <= p2 -> 0 < q2 ->
  p1 * q2 <= p2 * q1 -> lost_bits p1 q1 <= lost_bits p2 q2.
Proof.
  intros Hp1 Hq1 Hp2 Hq2 H. unfold lost_bits.
  pose proof (Z.log2_le_mono _ _ (div_cross_mono _ _ _ _ Hp1 Hq1 Hp2 Hq2 H)).
  lia.
Qed.

Lemma round_mag_nonneg p q : 0 <= p -> 0 < q -> 0 <= round_mag p q.
Proof.
  intros Hp Hq. unfold round_mag.
  pose proof (lost_bits_nonneg p q) as Hs.
  assert (0 < 2 ^ lost_bits p q) by (apply Z.pow_pos_nonneg; lia).
  pose proof (div_half_even_nonneg p (q * 2 ^ lost_bits p q) Hp ltac:(nia)).
  nia.
Qed.

(** The rounding error is at most half a unit in the last place [δ / q]. *)
Lemma round_mag_bounds p q :
  0 <= p -> 0 < q ->
  exists δ, (δ = q \/ δ * 2 ^ 52 <= p) /\
            2 * p - δ <= 2 * (q * round_mag p q) <= 2 * p + δ.
Proof.
  intros Hp Hq. unfold round_mag.
  pose proof (lost_bits_spec p q Hp Hq) as Spec.
  pose proof (lost_bits_nonneg p q) as Hs.
  set (s := lost_bits p q) in *.
  assert (H2 : 0 < 2 ^ s) by (apply Z.pow_pos_nonneg; lia).
  exists (q * 2 ^ s). split.
  - destruct Spec as [[H0 _]|[Hpos [Hlo _]]].
    + left. rewrite H0. change (2 ^ 0) with 1. lia.
    + right. rewrite Z.pow_add_r in Hlo by lia.
      pose proof (Z.mul_div_le p q Hq). nia.
  - pose proof (div_half_even_bounds p (q * 2 ^ s) Hp ltac:(nia)) as B.
    replace (q * (div_half_even p (q * 2 ^ s) * 2 ^ s))
      with (q * 2 ^ s * div_half_even p (q * 2 ^ s)) by ring.
    exact B.
Qed.

Lemma round_mag_small_exact d : 0 <= d < 2 ^ 53 -> round_mag d 1 = d.
Proof.
  intros [H0 H1]. unfold round_mag.
  assert (Hs : lost_bits d 1 = 0).
  { destruct (lost_bits_spec d 1 H0 ltac:(lia)) as [[E _]|[Hpos [Hlo _]]]; [exact E|].
    rewrite Z.div_1_r in Hlo.
    assert (2 ^ 53 <= 2 ^ (52 + lost_bits d 1)) by (apply Z.pow_le_mono_r; lia).
    lia. }
  rewrite Hs. change (1 * 2 ^ 0) with 1.
  rewrite <- (Z.mul_1_r d) at 1. rewrite div_half_even_exact by lia. change (2 ^ 0) with 1. lia.
Qed.

Lemma round_mag_mono p1 q1 p2 q2 :
  0 <= p1 -> 0 < q1 -> 0 <= p2 -> 0 < q2 ->
  p1 * q2 <= p2 * q1 ->
  round_mag p1 q1 <= round_mag p2 q2.
Proof.
  intros Hp1 Hq1 Hp2 Hq2 H.
  pose proof (lost_bits_mono _ _ _ _ Hp1 Hq1 Hp2 Hq2 H) as Hs.
  pose proof (lost_bits_nonneg p1 q1) as Hs1.
  pose proof (lost_bits_spec p1 q1 Hp1 Hq1) as Spec1.
  pose proof (lost_bits_spec p2 q2 Hp2 Hq2) as Spec2.
  unfold round_mag.
  set (s1 := lost_bits p1 q1) in *. set (s2 := lost_bits p2 q2) in *.
  assert (P1 : 0 < 2 ^ s1) by (apply Z.pow_pos_nonneg; lia).
  assert (P2 : 0 < 2 ^ s2) by (apply Z.pow_pos_nonneg; lia).
  destruct (Z.eq_dec s1 s2) as [E|NE].
  - rewrite <- E.
    apply Z.mul_le_mono_nonneg_r; [lia|].
    apply div_half_even_mono; try nia.
  - assert (Hlt : s1 < s2) by lia.
    (* the two values lie in different binades *)
    assert (U1 : div_half_even p1 (q1 * 2 ^ s1) * 2 ^ s1 <= 2 ^ (53 + s1)).
    { pose proof (div_half_even_floor p1 (q1 * 2 ^ s1) Hp1 ltac:(nia)) as [_ Hu].
      rewrite <- Z.div_div in Hu by lia.
      assert (p1 / q1 < 2 ^ (53 + s1)) as Hf.
      { destruct Spec1 as [[E0 Hb]|[_ [_ Hb]]].
        - rewrite E0. exact Hb.
        - exact Hb. }
      rewrite Z.pow_add_r in Hf |- * by lia.
      assert (p1 / q1 / 2 ^ s1 < 2 ^ 53) by (apply Z.div_lt_upper_bound; lia).
      nia. }
    assert (L2 : 2 ^ (52 + s2) <= div_half_even p2 (q2 * 2 ^ s2) * 2 ^ s2).
    { pose proof (div_half_even_floor p2 (q2 * 2 ^ s2) Hp2 ltac:(nia)) as [Hl _].
      rewrite <- Z.div_div in Hl by lia.
      destruct Spec2 as [[E0 _]|[_ [Hb _]]]; [lia|].
      rewrite Z.pow_add_r in Hb |- * by lia.
      assert (2 ^ 52 <= p2 / q2 / 2 ^ s2) by (apply Z.div_le_lower_bound; lia).
      nia. }
    assert (2 ^ (53 + s1) <= 2 ^ (52 + s2)) by (apply Z.pow_le_mono_r; lia).
    lia.
Qed.

Lemma representable_spec n :
  representable n = true ->
  0 <= n < OVERFLOW /\ n mod 2 ^ (Z.max 0 (Z.log2 n - 52)) = 0.
Proof.
  unfold representable. intros H.
  apply andb_prop in H as [H H3]. apply andb_prop in H as [H1 H2].
  apply Z.leb_le in H1. apply Z.ltb_lt in H2. apply Z.eqb_eq in H3. lia.
Qed.

(** Two distinct representable numbers are at least one unit in the last
    place of the smaller one apart. *)
Lemma representable_gap x y :
  representable x = true -> representable y = true -> 0 < y < x ->
  y + 1 <= 2 ^ 53 * (x - y).
Proof.
  intros Hx Hy [Hy0 Hlt].
  apply representable_spec in Hx as [_ Hx]. apply representable_spec in Hy as [_ Hy].
  pose proof (log2_excess_spec y ltac:(lia)) as SpecY. cbv zeta in SpecY.
  set (sx := Z.max 0 (Z.log2 x - 52)) in *. set (sy := Z.max 0 (Z.log2 y - 52)) in *.
  assert (Hs : sy <= sx).
  { pose proof (Z.log2_le_mono y x ltac:(lia)). subst sx sy. lia. }
  assert (Hsy : 0 <= sy) by (subst sy; lia).
  assert (P : 0 < 2 ^ sy) by (apply Z.pow_pos_nonneg; lia).
  assert (Dx : x mod 2 ^ sy = 0).
  { apply Z.mod_divide in Hx; [|apply Z.pow_nonzero; lia].
    apply Z.mod_divide; [lia|].
    eapply Z.divide_trans; [|exact Hx].
    exists (2 ^ (sx - sy)). rewrite <- Z.pow_add_r by lia. f_equal. lia. }
  assert (Yb : y < 2 ^ (53 + sy)).
  { destruct SpecY as [[E0 Hb]|[_ [_ Hb]]].
    - rewrite E0. exact Hb.
    - exact Hb. }
  rewrite Z.pow_add_r in Yb by lia.
  apply Z.mod_divide in Dx as [kx Ex]; [|lia].
  apply Z.mod_divide in Hy as [ky Ey]; [|lia].
  assert (ky + 1 <= kx) by nia.
  nia.
Qed.


Lemma core_neg (X Y Z0 L R δ δ' : Z) :
  1 <= Z0 -> Z0 < Y -> Y < X ->
  Y + 1 <= 2 ^ 53 * (X - Y) ->
  2 * (ONE * R) <= 2 * (rel_tol_units * X) + δ -> (δ = ONE \/ δ * 2 ^ 52 <= rel_tol_units * X) ->
  2 * (X - Z0) - δ' <= 2 * (1 * L) -> (δ' = 1 \/ δ' * 2 ^ 52 <= X - Z0) ->
  L <= R ->
  (Y - Z0) * ONE <= rel_tol_units * Y * 1.
Proof.
  unfold rel_tol_units, ONE. intros. lia.
Qed.

Lemma core_absurd (E A L R δ δ' : Z) :
  0 <= E -> A < - E ->
  2 * (ONE * R) <= 2 * (rel_tol_units * (- A)) + δ -> (δ = ONE \/ δ * 2 ^ 52 <= rel_tol_units * (- A)) ->
  2 * (E - A) - δ' <= 2 * (1 * L) -> (δ' = 1 \/ δ' * 2 ^ 52 <= E - A) ->
  L <= R -> False.
Proof.
  unfold rel_tol_units, ONE. intros. lia.
Qed.

Lemma tol_in_range (M R δ : Z) :
  0 <= M < OVERFLOW ->
  2 * (ONE * R) <= 2 * (rel_tol_units * M) + δ -> (δ = ONE \/ δ * 2 ^ 52 <= rel_tol_units * M) ->
  R < OVERFLOW.
Proof.
  unfold rel_tol_units, ONE, OVERFLOW. intros. lia.
Qed.

Lemma fabs_pack s m : fabs (pack s m) = pack false m.
Proof. unfold pack. destruct (m <? OVERFLOW); reflexivity. Qed.

Lemma py_max_abs_fin se ne sx nx :
  py_max (fabs (FFin se ne)) (fabs (FFin sx nx)) = FFin false (Z.max ne nx).
Proof.
  unfold py_max, fgt, fabs, fcompare, sval.
  destruct (Z.compare_spec nx ne); f_equal; lia.
Qed.

Lemma py_max_pack_zero t : 0 <= t -> py_max (pack false t) abs_tol_default = pack false t.
Proof.
  intros Ht. unfold py_max, fgt, pack, abs_tol_default.
  destruct (t <? OVERFLOW); unfold fcompare, sval; [|reflexivity].
  destruct (Z.compare_spec 0 t); try reflexivity; lia.
Qed.

Lemma fle_pack d t :
  0 <= d -> 0 <= t -> t < OVERFLOW ->
  (fle (pack false d) (pack false t) = true <-> d <= t).
Proof.
  intros Hd Ht Hb. unfold fle, pack.
  destruct (Z.ltb_spec t OVERFLOW); [|lia].
  destruct (Z.ltb_spec d OVERFLOW); unfold fcompare, sval.
  - destruct (Z.compare_spec d t); split; intros; try reflexivity; try lia; discriminate.
  - split; intros; [discriminate | lia].
Qed.

Lemma fsub_fin_abs se ne sx nx :
  fabs (fsub (FFin se ne) (FFin sx nx))
  = pack false (round_mag (Z.abs (sval se ne - sval sx nx)) 1).
Proof.
  unfold fsub. destruct (Z.eqb_spec (sval se ne - sval sx nx) 0) as [E|NE].
  - rewrite E. reflexivity.
  - unfold round_ne. apply fabs_pack.
Qed.

Lemma is_close_2_fin se ne sx nx :
  0 <= ne < OVERFLOW -> 0 <= nx < OVERFLOW ->
  (is_close_2 (FFin se ne) (FFin sx nx) = true <->
   round_mag (Z.abs (sval se ne - sval sx nx)) 1
   <= round_mag (rel_tol_units * Z.max ne nx) ONE).
Proof.
  intros He Hx. unfold is_close_2, is_close.
  rewrite fsub_fin_abs, py_max_abs_fin.
  change (fmul rel_tol_default (FFin false (Z.max ne nx)))
    with (pack false (round_mag (rel_tol_units * Z.max ne nx) ONE)).
  assert (HM : 0 <= Z.max ne nx < OVERFLOW) by lia.
  assert (Hp : 0 <= rel_tol_units * Z.max ne nx) by (unfold rel_tol_units; lia).
  assert (Hq : 0 < ONE) by (unfold ONE; lia).
  pose proof (round_mag_nonneg _ _ Hp Hq) as Hn.
  rewrite py_max_pack_zero by exact Hn.
  apply fle_pack; [apply round_mag_nonneg; lia | exact Hn |].
  destruct (round_mag_bounds _ _ Hp Hq) as (δ & Hδ & _ & Hu).
  eapply tol_in_range; eauto.
Qed.

Lemma close_core E A A' :
  Z.abs E < OVERFLOW ->
  representable (Z.abs A) = true -> representable (Z.abs A') = true ->
  A < A' <= E ->
  round_mag (Z.abs (E - A)) 1 <= round_mag (rel_tol_units * Z.max (Z.abs E) (Z.abs A)) ONE ->
  round_mag (Z.abs (E - A')) 1 <= round_mag (rel_tol_units * Z.max (Z.abs E) (Z.abs A')) ONE.
Proof.
  intros HE RA RA' [Hlt Hle] H.
  assert (Hq : 0 < ONE) by (unfold ONE; lia).
  assert (HNT : 0 < rel_tol_units) by (unfold rel_tol_units; lia).
  destruct (Z.le_gt_cases 0 E) as [E0|E0].
  - destruct (Z.le_gt_cases (- E) A) as [A0|A0].
    + replace (Z.max (Z.abs E) (Z.abs A')) with (Z.max (Z.abs E) (Z.abs A)) by lia.
      eapply Z.le_trans; [|exact H].
      apply round_mag_mono; lia.
    + exfalso.
      replace (Z.max (Z.abs E) (Z.abs A)) with (- A) in H by lia.
      replace (Z.abs (E - A)) with (E - A) in H by lia.
      destruct (round_mag_bounds (rel_tol_units * - A) ONE ltac:(nia) Hq) as (δ & Hδ & _ & Hu).
      destruct (round_mag_bounds (E - A) 1 ltac:(lia) ltac:(lia)) as (δ' & Hδ' & Hl & _).
      eapply (core_absurd E A); eauto.
  - replace (Z.max (Z.abs E) (Z.abs A)) with (- A) in H by lia.
    replace (Z.abs (E - A)) with (- A - - E) in H by lia.
    replace (Z.max (Z.abs E) (Z.abs A')) with (- A') by lia.
    replace (Z.abs (E - A')) with (- A' - - E) by lia.
    destruct (Z.eq_dec A' E) as [->|NE].
    + replace (- E - - E) with 0 by lia.
      rewrite round_mag_small_exact by lia.
      apply round_mag_nonneg; nia.
    + apply round_mag_mono; try lia; try nia.
      destruct (round_mag_bounds (rel_tol_units * - A) ONE ltac:(nia) Hq) as (δ & Hδ & _ & Hu).
      destruct (round_mag_bounds (- A - - E) 1 ltac:(lia) ltac:(lia)) as (δ' & Hδ' & Hl & _).
      pose proof (representable_gap (Z.abs A) (Z.abs A') RA RA' ltac:(lia)) as G.
      replace (Z.abs A) with (- A) in G by lia.
      replace (Z.abs A') with (- A') in G by lia.
      eapply (core_neg (- A) (- A') (- E)); eauto; lia.
Qed.

Lemma abs_sval s n : 0 <= n -> Z.abs (sval s n) = n.
Proof. unfold sval. destruct s; lia. Qed.

(** C8.  The pass rule is monotonic in the actual score: for finite floats
    [expected] and [actual], if the pair passes under
    [is_close(expected, actual) or actual > expected] with the default
    tolerances, then it passes with every float [actual' > actual] in place
    of [actual]. *)
Theorem pass_rule_monotonic expected actual actual' :
  valid expected = true -> valid actual = true -> valid actual' = true ->
  is_finite expected = true -> is_finite actual = true ->
  passes expected actual = true ->
  fgt actual' actual = true ->
  passes expected actual' = true.
Proof.
  intros Ve Va Va' Fe Fa Hp Hgt.
  destruct expected as [| |se ne]; try discriminate.
  destruct actual as [| |sa na]; try discriminate.
  unfold passes in *.
  destruct actual' as [|s'|sa' na'].
  - discriminate.
  - destruct s'; [discriminate|]. apply orb_true_r.
  - simpl in Ve, Va, Va'.
    pose proof (representable_spec _ Ve) as [Be _].
    pose proof (representable_spec _ Va) as [Ba _].
    pose proof (representable_spec _ Va') as [Ba' _].
    assert (Hlt : sval sa na < sval sa' na').
    { unfold fgt, fcompare in Hgt.
      destruct (Z.compare_spec (sval sa' na') (sval sa na)); try discriminate; lia. }
    destruct (Z.lt_ge_cases (sval se ne) (sval sa' na')) as [Hbig|Hsmall].
    + apply orb_true_iff. right. unfold fgt, fcompare.
      destruct (Z.compare_spec (sval sa' na') (sval se ne)); try reflexivity; lia.
    + apply orb_true_iff. left.
      apply orb_true_iff in Hp as [Hc|Hg].
      * apply is_close_2_fin in Hc; [|lia|lia].
        apply is_close_2_fin; [lia|lia|].
        replace (Z.max ne na')
          with (Z.max (Z.abs (sval se ne)) (Z.abs (sval sa' na')))
          by (rewrite !abs_sval by lia; reflexivity).
        replace (Z.max ne na)
          with (Z.max (Z.abs (sval se ne)) (Z.abs (sval sa na))) in Hc
          by (rewrite !abs_sval by lia; reflexivity).
        apply (close_core _ (sval sa na)); try assumption.
        -- rewrite abs_sval; lia.
        -- rewrite abs_sval; [assumption|lia].
        -- rewrite abs_sval; [assumption|lia].
        -- lia.
      * exfalso. unfold fgt, fcompare in Hg.
        destruct (Z.compare_spec (sval sa na) (sval se ne)); try discriminate; lia.
Qed.

(** ** [is_close] against its specification *)

Lemma fle_ext_le x y : fle x y = true <-> ext_le x y.
Proof.
  destruct x as [|[]|sx nx], y as [|[]|sy ny]; unfold fle, ext_le; simpl;
    try (split; intros; (reflexivity || discriminate || contradiction || exact I)).
  destruct (Z.compare_spec (sval sx nx) (sval sy ny)); split; intros;
    try reflexivity; try discriminate; lia.
Qed.

Lemma max_abs_agree a b :
  is_finite a = true -> is_finite b = true ->
  math_max (fabs a) (fabs b) = py_max (fabs a) (fabs b).
Proof.
  destruct a as [| |sa na], b as [| |sb nb]; try discriminate. intros _ _.
  rewrite py_max_abs_fin. unfold math_max, fabs, ext_leb, sval.
  destruct (Z.leb_spec na nb); f_equal; lia.
Qed.

Lemma max_le_agree d t a :
  t <> FNan -> a <> FNan ->
  (fle d (py_max t a) = true <-> ext_le d (math_max t a)).
Proof.
  intros Ht Ha. rewrite fle_ext_le.
  destruct t as [|[]|st nt]; try contradiction;
  destruct a as [|[]|sa na]; try contradiction;
  unfold py_max, math_max, fgt, ext_leb, fcompare; simpl; try reflexivity.
  destruct (Z.compare_spec (sval sa na) (sval st nt));
    destruct (Z.leb_spec (sval st nt) (sval sa na)); try reflexivity; try lia.
  (* equal values: the two maxima may differ in the sign of zero only *)
  destruct d as [|[]|sd nd]; simpl; try reflexivity. lia.
Qed.

Lemma pack_not_nan s m : pack s m <> FNan.
Proof. unfold pack. destruct (m <? OVERFLOW); discriminate. Qed.

Lemma fmul_fin_not_nan x y :
  is_finite x = true -> is_finite y = true -> fmul x y <> FNan.
Proof.
  destruct x as [| |sx nx], y as [| |sy ny]; try discriminate. intros _ _.
  apply pack_not_nan.
Qed.

Lemma is_close_refines a b rel_tol abs_tol :
  is_finite a = true -> is_finite b = true ->
  is_finite rel_tol = true -> is_finite abs_tol = true ->
  (is_close a b rel_tol abs_tol = true <-> is_close_spec a b rel_tol abs_tol).
Proof.
  intros Fa Fb Fr Ft. unfold is_close, is_close_spec.
  rewrite max_abs_agree by assumption.
  apply max_le_agree.
  - apply fmul_fin_not_nan; [exact Fr|].
    destruct a as [| |sa na], b as [| |sb nb]; try discriminate.
    rewrite py_max_abs_fin. reflexivity.
  - destruct abs_tol; discriminate.
Qed.

Lemma default_tolerances :
  rel_tol_default = of_decimal false 1 (-9) /\ abs_tol_default = of_decimal false 0 0.
Proof. vm_compute. split; reflexivity. Qed.

(* ===================================================================== *)
(** ** Computations of the harness *)
(* ===================================================================== *)

(** ** Reasoning about computations *)

Section Ensures.

Variable P : event -> Prop.
Variable R : exn -> Prop.

Lemma ensures_ret {A : Type} (a : A) : ensures P R (ret a).
Proof.
  intros tr. exists []. simpl. rewrite app_nil_r. repeat split; [constructor | discriminate].
Qed.

Lemma ensures_raise {A : Type} (e : exn) : R e -> ensures P R (@raise A e).
Proof.
  intros He tr. exists []. simpl. rewrite app_nil_r.
  repeat split; [constructor | intros e' [= <-]; exact He].
Qed.

Lemma ensures_lift {A : Type} (r : exn + A) :
  (forall e, r = inl e -> R e) -> ensures P R (lift r).
Proof.
  intros Hr tr. exists []. simpl. rewrite app_nil_r. repeat split; [constructor | exact Hr].
Qed.

Lemma ensures_emit (ev : event) : P ev -> ensures P R (emit ev).
Proof.
  intros Hev tr. exists [ev]. simpl. repeat split; [repeat constructor; exact Hev | discriminate].
Qed.

Lemma ensures_bind {A B : Type} (m : M A) (f : A -> M B) :
  ensures P R m -> (forall a, ensures P R (f a)) -> ensures P R (bind m f).
Proof.
  intros Hm Hf tr. unfold bind.
  destruct (Hm tr) as (l & Htr & Hl & He).
  destruct (m tr) as [tr1 [e|a]] eqn:E; simpl in *; subst tr1.
  - exists l. repeat split; [assumption |].
    intros e' [= <-]. apply He. reflexivity.
  - destruct (Hf a (tr ++ l)) as (l' & Htr' & Hl' & He').
    exists (l ++ l'). rewrite Htr', app_assoc. repeat split; [|exact He'].
    apply Forall_app; split; assumption.
Qed.

Lemma ensures_try_except {A : Type} (m : M A) (handler : exn -> M A) :
  ensures P R m -> (forall e, ensures P R (handler e)) -> ensures P R (try_except m handler).
Proof.
  intros Hm Hh tr. unfold try_except.
  destruct (Hm tr) as (l & Htr & Hl & He).
  destruct (m tr) as [tr1 [e|a]] eqn:E; simpl in *; subst tr1.
  - destruct (is_exception e).
    + destruct (Hh e (tr ++ l)) as (l' & Htr' & Hl' & He').
      exists (l ++ l'). rewrite Htr', app_assoc. repeat split; [|exact He'].
      apply Forall_app; split; assumption.
    + exists l. repeat split; [assumption | exact He].
  - exists l. repeat split; [assumption | discriminate].
Qed.

Lemma ensures_for_each {A S : Type} (body : A -> S -> M S) (l : list A) :
  (forall a s, In a l -> ensures P R (body a s)) ->
  forall s, ensures P R (for_each body l s).
Proof.
  induction l as [|a l IH]; intros Hb s; simpl.
  - apply ensures_ret.
  - apply ensures_bind.
    + apply Hb. left. reflexivity.
    + intros s'. apply IH. intros a' s'' Hin. apply Hb. right. exact Hin.
Qed.

Lemma ensures_map_M {A B : Type} (f : A -> M B) (l : list A) :
  (forall a, ensures P R (f a)) -> ensures P R (map_M f l).
Proof.
  intros Hf. induction l as [|a l IH]; simpl.
  - apply ensures_ret.
  - apply ensures_bind; [apply Hf|]. intros b.
    apply ensures_bind; [exact IH|]. intros bs. apply ensures_ret.
Qed.

Lemma ensures_item {A : Type} (key : string) (o : option A) :
  R (KeyError key) -> ensures P R (item key o).
Proof.
  intros HR. destruct o; simpl; [apply ensures_ret | apply ensures_raise; exact HR].
Qed.

End Ensures.

Lemma ensures_weaken {A : Type} (P P' : event -> Prop) (R R' : exn -> Prop) (m : M A) :
  (forall ev, P ev -> P' ev) -> (forall e, R e -> R' e) ->
  ensures P R m -> ensures P' R' m.
Proof.
  intros HP HR Hm tr. destruct (Hm tr) as (l & Htr & Hl & He).
  exists l. repeat split; [assumption | | auto].
  eapply Forall_impl; [|exact Hl]. exact HP.
Qed.

(** Builtins raise exceptions, never [SystemExit]. *)

Lemma py_split_exn s sep e : py_split s sep = inl e -> is_exn e.
Proof. unfold py_split. destruct sep; intros [= <-]; reflexivity. Qed.

Lemma py_index_exn {A : Type} (l : list A) i e : py_index l i = inl e -> is_exn e.
Proof.
  unfold py_index.
  destruct (_ || _); [intros [= <-]; reflexivity|].
  destruct (nth_error _ _); [discriminate | intros [= <-]; reflexivity].
Qed.

Lemma py_round_exn x nd e : py_round x nd = inl e -> is_exn e.
Proof.
  unfold py_round. destruct x; try discriminate.
  destruct (_ <? _); [discriminate|]. destruct (_ <? _); [discriminate|].
  destruct (of_decimal _ _ _); try discriminate. intros [= <-]; reflexivity.
Qed.

Lemma join_tokens_exn l e : join_tokens l = inl e -> is_exn e.
Proof. unfold join_tokens. destruct (all_strings l); [discriminate | intros [= <-]; reflexivity]. Qed.


Lemma mode_event_log dry l m : mode_event dry (Log l m).
Proof. intros _. reflexivity. Qed.

Lemma pyserini_command_ensures P method name files out :
  (forall l m, P (Log l m)) ->
  ensures P is_exn (pyserini_command method name files out).
Proof.
  intros HP. unfold pyserini_command.
  repeat match goal with |- context [if ?b then _ else _] => destruct b end;
    try apply ensures_ret.
  apply ensures_bind; [apply ensures_emit; apply HP | intros; apply ensures_ret].
Qed.

Lemma construct_fusion_commands_ensures P yd b :
  (forall l m, P (Log l m)) ->
  ensures P is_exn (construct_fusion_commands yd b).
Proof.
  intros HP. unfold construct_fusion_commands.
  apply ensures_bind; [apply ensures_item; reflexivity | intros ms].
  apply ensures_bind; [apply ensures_emit; apply HP | intros _].
  apply ensures_for_each. intros m acc _. unfold add_fusion_command.
  apply ensures_bind; [apply ensures_item; reflexivity | intros rs].
  apply ensures_bind; [apply ensures_map_M; intros r; apply ensures_item; reflexivity | intros fs].
  destruct b.
  - apply ensures_bind; [apply pyserini_command_ensures; exact HP | intros; apply ensures_ret].
  - apply ensures_ret.
Qed.

Lemma subprocess_call_ensures w cmd : ensures (fun _ => True) is_exn (subprocess_call w cmd).
Proof.
  intros tr. unfold subprocess_call. exists [Spawn cmd].
  destruct (call w (spawned tr) cmd); simpl; repeat split; auto; try discriminate.
  intros e [= <-]. reflexivity.
Qed.

Lemma subprocess_popen_ensures w cmd : ensures (fun _ => True) is_exn (subprocess_popen w cmd).
Proof.
  intros tr. unfold subprocess_popen. exists [Spawn cmd].
  destruct (popen w (spawned tr) cmd); simpl; repeat split; auto; try discriminate.
  intros e [= <-]. reflexivity.
Qed.

Lemma run_fusion_commands_ensures w cmds :
  ensures (fun _ => True) is_exn (run_fusion_commands w cmds).
Proof.
  unfold run_fusion_commands. apply ensures_for_each. intros cmd_list [] _.
  apply ensures_bind; [apply ensures_lift; apply join_tokens_exn | intros cmd].
  apply ensures_bind; [apply ensures_emit; exact I | intros _].
  apply ensures_try_except.
  - apply ensures_bind; [apply subprocess_call_ensures | intros rc].
    destruct (negb _); [apply ensures_emit; exact I | apply ensures_ret].
  - intros e. apply ensures_emit. exact I.
Qed.

Lemma result_line_ensures w cmdline :
  ensures (fun _ => True) is_exn (result_line w cmdline).
Proof.
  unfold result_line, check_output, decode.
  apply ensures_bind.
  { apply ensures_bind; [apply subprocess_popen_ensures | intros [rc out]].
    destruct (rc =? 0); [apply ensures_ret | apply ensures_raise; reflexivity]. }
  intros out. apply ensures_bind.
  { destruct out; [apply ensures_ret | apply ensures_raise; reflexivity]. }
  intros text. apply ensures_bind; [apply ensures_lift; apply py_split_exn | intros lines].
  apply ensures_bind; [apply ensures_lift; apply py_index_exn | intros out'].
  destruct (negb _); apply ensures_ret.
Qed.

Lemma compare_scores_ensures method i topic metric st out :
  ensures (fun _ => True) is_exn (compare_scores method i topic metric st out).
Proof.
  unfold compare_scores.
  apply ensures_bind; [apply ensures_lift; apply py_split_exn | intros fields].
  apply ensures_bind; [apply ensures_lift; apply py_index_exn | intros eval_out].
  apply ensures_bind; [apply ensures_item; reflexivity | intros all_results].
  apply ensures_bind; [apply ensures_item; reflexivity | intros scores].
  apply ensures_bind; [apply ensures_lift; apply py_index_exn | intros score].
  apply ensures_bind; [apply ensures_lift; apply py_round_exn | intros expected].
  apply ensures_bind.
  { destruct (py_float eval_out); [apply ensures_ret | apply ensures_raise; reflexivity]. }
  intros parsed.
  apply ensures_bind; [apply ensures_lift; apply py_round_exn | intros actual].
  apply ensures_bind; [apply ensures_item; reflexivity | intros name].
  apply ensures_bind; [|intros; apply ensures_ret].
  destruct (passes expected actual);
    (apply ensures_bind; [apply ensures_emit; exact I | intros; apply ensures_ret]).
Qed.

Lemma verify_triple_ensures w dry method i topic metric st :
  ensures (mode_event dry) is_exn (verify_triple w dry method i topic metric st).
Proof.
  unfold verify_triple. destruct dry.
  - apply ensures_bind; [apply ensures_emit; apply mode_event_log | intros; apply ensures_ret].
  - apply (ensures_weaken (fun _ => True) _ is_exn is_exn);
      [intros ev _ [=] | auto |].
    apply ensures_bind.
    { apply ensures_try_except; [apply result_line_ensures|].
      intros e. apply ensures_bind; [apply ensures_emit; exact I | intros; apply ensures_ret]. }
    intros [out|]; [apply compare_scores_ensures | apply ensures_ret].
Qed.

Lemma verify_loops_ensures w yd dry :
  ensures (mode_event dry) is_exn (verify_loops w yd dry).
Proof.
  unfold verify_loops.
  apply ensures_bind; [apply ensures_item; reflexivity | intros ms].
  apply ensures_for_each. intros method st _.
  apply ensures_bind; [apply ensures_item; reflexivity | intros ts].
  apply ensures_for_each. intros it st' _.
  apply ensures_bind; [apply ensures_item; reflexivity | intros mts].
  apply ensures_for_each. intros metric st'' _.
  apply verify_triple_ensures.
Qed.

Lemma evaluate_and_verify_ensures w yd dry :
  ensures (mode_event dry) is_exn (evaluate_and_verify w yd dry).
Proof.
  unfold evaluate_and_verify.
  apply ensures_bind; [apply ensures_emit; apply mode_event_log | intros _].
  apply ensures_bind; [apply verify_loops_ensures | intros st].
  apply ensures_bind; [apply ensures_emit; apply mode_event_log | intros _].
  destruct (failures st); apply ensures_emit; apply mode_event_log.
Qed.

Lemma after_checks_ensures w a yd :
  ensures (mode_event (dry_run a)) is_exn (after_checks w a yd).
Proof.
  unfold after_checks.
  apply ensures_bind; [apply ensures_emit; apply mode_event_log | intros _].
  apply ensures_bind; [apply construct_fusion_commands_ensures; apply mode_event_log | intros cmds].
  apply ensures_bind.
  { destruct (dry_run a).
    - apply ensures_bind; [apply ensures_lift; apply join_tokens_exn | intros text].
      apply ensures_emit; apply mode_event_log.
    - apply (ensures_weaken (fun _ => True) _ is_exn is_exn); [intros ev _ [=] | auto |].
      apply run_fusion_commands_ensures. }
  intros _.
  apply ensures_bind; [apply evaluate_and_verify_ensures | intros _].
  apply ensures_emit; apply mode_event_log.
Qed.

(** ** The command builder *)

Lemma map_M_files rs tr :
  map_M (fun run => item "file" (r_file run)) rs tr
  = (tr, match files_of rs with
         | Some fs => inr fs
         | None => inl (KeyError "file")
         end).
Proof.
  induction rs as [|r rs IH]; simpl; [reflexivity|].
  unfold bind. destruct (r_file r) as [f|]; simpl; [|reflexivity].
  rewrite IH. destruct (files_of rs); reflexivity.
Qed.

Lemma name_in_fusion n :
  name_in (Some n) fusion_supported_methods = true ->
  n = "rrf" \/ n = "average" \/ n = "interpolation".
Proof.
  unfold name_in, fusion_supported_methods. simpl.
  destruct (String.eqb_spec n "rrf"); [auto|].
  destruct (String.eqb_spec n "average"); [auto|].
  destruct (String.eqb_spec n "interpolation"); [auto|].
  discriminate.
Qed.

Lemma fusion_methods_named ms m :
  In m (fusion_methods ms) ->
  exists n, m_name m = Some n /\ (n = "rrf" \/ n = "average" \/ n = "interpolation").
Proof.
  unfold fusion_methods. intros H. apply filter_In in H as [_ H].
  destruct (m_name m) as [n|] eqn:E; [|discriminate].
  exists n. split; [reflexivity | apply name_in_fusion; exact H].
Qed.

Lemma pyserini_command_supported method n files out tr :
  n = "rrf" \/ n = "average" \/ n = "interpolation" ->
  pyserini_command method n files out tr
  = (tr, inr (pyserini_cmd method n files out ++ pyserini_extra method n)).
Proof.
  intros [-> | [-> | ->]]; unfold pyserini_command, pyserini_extra; simpl;
    rewrite ?app_nil_r; reflexivity.
Qed.

Lemma add_fusion_command_ok yd b rs files m acc tr :
  runs yd = Some rs -> files_of rs = Some files ->
  name_in (m_name m) fusion_supported_methods = true ->
  add_fusion_command yd b m acc tr = (tr, inr (acc ++ [fusion_command b files m])).
Proof.
  intros Hr Hf Hm. unfold add_fusion_command.
  unfold bind at 1. rewrite Hr. simpl.
  unfold bind at 1. rewrite map_M_files, Hf.
  destruct (m_name m) as [n|] eqn:En; [|discriminate].
  apply name_in_fusion in Hm.
  unfold fusion_command. rewrite En. simpl get_or.
  destruct b; [|reflexivity].
  unfold bind. rewrite pyserini_command_supported by exact Hm. reflexivity.
Qed.

Lemma build_loop yd b rs files l :
  runs yd = Some rs -> files_of rs = Some files ->
  (forall m, In m l -> name_in (m_name m) fusion_supported_methods = true) ->
  forall acc tr,
    for_each (add_fusion_command yd b) l acc tr
    = (tr, inr (acc ++ map (fusion_command b files) l)).
Proof.
  intros Hr Hf. induction l as [|m l IH]; intros Hl acc tr; simpl.
  - rewrite app_nil_r. reflexivity.
  - unfold bind.
    rewrite (add_fusion_command_ok yd b rs files) by (auto; apply Hl; left; reflexivity).
    rewrite IH by (intros; apply Hl; right; assumption).
    rewrite <- app_assoc. reflexivity.
Qed.

Lemma fusion_methods_supported ms m :
  In m (fusion_methods ms) -> name_in (m_name m) fusion_supported_methods = true.
Proof. unfold fusion_methods. intros H. apply filter_In in H as [_ H]. exact H. Qed.

Lemma construct_ok yd b ms rs files tr :
  methods yd = Some ms -> runs yd = Some rs -> files_of rs = Some files ->
  construct_fusion_commands yd b tr
  = (tr ++ [Log INFO (MsgTesting (map m_name (fusion_methods ms)))],
     inr (map (fusion_command b files) (fusion_methods ms))).
Proof.
  intros Hm Hr Hf. unfold construct_fusion_commands.
  unfold bind at 1. rewrite Hm. simpl.
  unfold bind at 1. unfold logger_info, emit.
  fold (fusion_methods ms).
  rewrite (build_loop yd b rs files); [reflexivity | exact Hr | exact Hf |].
  apply fusion_methods_supported.
Qed.

Lemma construct_no_methods yd b tr :
  methods yd = None ->
  construct_fusion_commands yd b tr = (tr, inl (KeyError "methods")).
Proof.
  intros Hm. unfold construct_fusion_commands, bind. rewrite Hm. reflexivity.
Qed.

Lemma construct_nothing yd b ms tr :
  methods yd = Some ms -> fusion_methods ms = [] ->
  construct_fusion_commands yd b tr
  = (tr ++ [Log INFO (MsgTesting [])], inr []).
Proof.
  intros Hm He. unfold construct_fusion_commands.
  unfold bind at 1. rewrite Hm. simpl.
  unfold bind at 1. unfold logger_info, emit.
  fold (fusion_methods ms). rewrite He. reflexivity.
Qed.

Lemma construct_no_runs yd b ms tr :
  methods yd = Some ms -> fusion_methods ms <> [] -> runs yd = None ->
  construct_fusion_commands yd b tr
  = (tr ++ [Log INFO (MsgTesting (map m_name (fusion_methods ms)))],
     inl (KeyError "runs")).
Proof.
  intros Hm He Hr. unfold construct_fusion_commands.
  unfold bind at 1. rewrite Hm. simpl.
  unfold bind at 1. unfold logger_info, emit.
  fold (fusion_methods ms).
  destruct (fusion_methods ms) as [|m l]; [congruence|].
  simpl. unfold bind at 1. unfold add_fusion_command, bind. rewrite Hr. reflexivity.
Qed.

Lemma construct_no_file yd b ms rs tr :
  methods yd = Some ms -> fusion_methods ms <> [] ->
  runs yd = Some rs -> files_of rs = None ->
  construct_fusion_commands yd b tr
  = (tr ++ [Log INFO (MsgTesting (map m_name (fusion_methods ms)))],
     inl (KeyError "file")).
Proof.
  intros Hm He Hr Hf. unfold construct_fusion_commands.
  unfold bind at 1. rewrite Hm. simpl.
  unfold bind at 1. unfold logger_info, emit.
  fold (fusion_methods ms).
  destruct (fusion_methods ms) as [|m l]; [congruence|].
  simpl. unfold bind at 1. unfold add_fusion_command.
  unfold bind at 1. rewrite Hr. simpl.
  unfold bind at 1. rewrite map_M_files, Hf. reflexivity.
Qed.

(** ** One triple *)

Lemma py_index_In {A : Type} (l : list A) i a : py_index l i = inr a -> In a l.
Proof.
  unfold py_index. destruct (_ || _); [discriminate|].
  destruct (nth_error _ _) eqn:E; [|discriminate].
  intros [= <-]. eapply nth_error_In. exact E.
Qed.

Lemma last_line_nonblank lines out :
  py_index (filter nonblank lines) (-1) = inr out -> nonblank out = true.
Proof.
  intros H. apply py_index_In in H. apply filter_In in H as [_ H]. exact H.
Qed.

Lemma py_index_nil {A : Type} i : @py_index A [] i = inl IndexError.
Proof.
  unfold py_index. simpl.
  destruct (i <? 0); destruct (_ || _) eqn:E; try reflexivity.
  - apply orb_false_iff in E as [E1 E2]. apply Z.ltb_ge in E1. apply Z.leb_gt in E2. lia.
  - apply orb_false_iff in E as [E1 E2]. apply Z.ltb_ge in E1. apply Z.leb_gt in E2. lia.
Qed.

(** The evaluation succeeded and printed [text]. *)
Lemma result_line_ok w cmdline tr text lines out :
  popen w (spawned tr) cmdline = ProcDone 0 (Some text) ->
  py_split text NL = inr lines ->
  py_index (filter nonblank lines) (-1) = inr out ->
  result_line w cmdline tr = (tr ++ [Spawn cmdline], inr (Some out)).
Proof.
  intros Hp Hs Hi. unfold result_line, check_output, subprocess_popen, decode, bind, lift.
  rewrite Hp. cbn -[py_split py_index nonblank]. rewrite Hs, Hi.
  cbn -[nonblank]. rewrite (last_line_nonblank _ _ Hi). reflexivity.
Qed.

Lemma result_line_failed w cmdline tr :
  evaluation_failed (popen w (spawned tr) cmdline) ->
  exists e, is_exception e = true /\
            result_line w cmdline tr = (tr ++ [Spawn cmdline], inl e).
Proof.
  intros [H|[(rc & out & H & Hrc)|[H|(text & lines & H & Hs & Hf)]]];
    unfold result_line, check_output, subprocess_popen, decode, bind, lift; rewrite H.
  - exists OSError. split; reflexivity.
  - exists RuntimeError. split; [reflexivity|]. simpl.
    destruct (Z.eqb_spec rc 0); [contradiction | reflexivity].
  - exists UnicodeDecodeError. split; reflexivity.
  - exists IndexError. split; [reflexivity|].
    cbn -[py_split py_index nonblank]. rewrite Hs, Hf, py_index_nil. reflexivity.
Qed.

(** C1.  A triple that is evaluated (the evaluation succeeds, its last
    non-blank line yields the score [parsed], the configuration holds the
    expected score [score], and both round to [actual] and [expected]) is
    logged as OK exactly when [is_close(expected, actual)] holds with the
    default tolerances or [actual > expected]; otherwise it is logged as
    FAIL and the failure flag is set.  The flag is never cleared.  The
    default tolerances are the floats that [1e-9] and [0.0] denote. *)
Theorem verdict_rule w method i topic_set metric st tr text lines out fields eval_out
  all_results scores score expected parsed actual name :
  popen w (spawned tr) (eval_cmdline method topic_set metric) = ProcDone 0 (Some text) ->
  py_split text NL = inr lines ->
  py_index (filter nonblank lines) (-1) = inr out ->
  py_split (strip out) (mt_separator metric) = inr fields ->
  py_index fields (mt_parse_index metric) = inr eval_out ->
  m_results method = Some all_results ->
  dict_get all_results (mt_metric metric) = Some scores ->
  py_index scores (Z.of_nat i) = inr score ->
  py_round score (mt_metric_precision metric) = inr expected ->
  py_float eval_out = Some parsed ->
  py_round parsed (mt_metric_precision metric) = inr actual ->
  m_name method = Some name ->
  let pass := is_close expected actual rel_tol_default abs_tol_default
              || fgt actual expected in
  verify_triple w false method i topic_set metric st tr
  = (tr ++ [Spawn (eval_cmdline method topic_set metric);
            verdict pass expected actual (mt_metric metric) name (t_id topic_set)],
     inr {| failures := if pass then failures st else true;
            results := record_result (results st) name (mt_metric metric) actual |})
  /\ rel_tol_default = of_decimal false 1 (-9)
  /\ abs_tol_default = of_decimal false 0 0.
Proof.
  intros Hp Hl Ho Hf He Hr Hs Hi Hx Hy Ha Hn pass.
  split; [|exact default_tolerances].
  unfold verify_triple. fold (eval_cmdline method topic_set metric).
  unfold bind at 1. unfold try_except.
  rewrite (result_line_ok _ _ _ _ _ _ Hp Hl Ho).
  unfold compare_scores, bind, lift, item, ret.
  rewrite Hf, He, Hr, Hs, Hi, Hx, Hy, Ha, Hn.
  unfold passes, is_close_2. fold pass. unfold verdict.
  destruct pass; unfold logger_info, logger_error, emit;
    rewrite <- app_assoc; reflexivity.
Qed.

(** The first scenario: expected 0.4123, the evaluator prints 0.4123. *)
Lemma verdict_rule_witness :
  verify_triple (world_of (config_of [rrf_method]) (eval_output "0.4123")) false
    rrf_method 0 dl19 ndcg empty_state []
  = ([Spawn "bin/trec_eval -c -m ndcg_cut.10 tools/topics-and-qrels/qrels.dl19.txt runs/fused.rrf.txt";
      Log INFO (MsgOk f_0_4123 f_0_4123 "nDCG@10" "rrf" "dl19")],
     inr {| failures := false; results := [("rrf", [("nDCG@10", f_0_4123)])] |}).
Proof.
  refine (eq_trans
    (proj1 (verdict_rule (world_of (config_of [rrf_method]) (eval_output "0.4123"))
       rrf_method 0 dl19 ndcg empty_state [] (eval_output "0.4123")
       [String.append "ndcg_cut_10"
          (String.append TAB (String.append "all" (String.append TAB "0.4123"))); ""]
       (String.append "ndcg_cut_10"
          (String.append TAB (String.append "all" (String.append TAB "0.4123"))))
       ["ndcg_cut_10"; "all"; "0.4123"] "0.4123"
       [("nDCG@10", [f_0_4123])] [f_0_4123] f_0_4123 f_0_4123 f_0_4123 f_0_4123 "rrf"
       _ _ _ _ _ _ _ _ _ _ _ _)) _); vm_compute; reflexivity.
Defined.

(** C3, as stated, fails: the evaluation succeeds and prints a result
    line whose score field does not read as a float; the triple is not
    skipped, [float()] raises [ValueError] out of the loop and the run ends
    there. *)
Lemma unparseable_score_is_not_skipped :
  let w := world_of (config_of [rrf_method]) (eval_output "n/a") in
  py_float "n/a" = None /\
  verify_triple w false rrf_method 0 dl19 ndcg empty_state []
  = ([Spawn (eval_cmdline rrf_method dl19 ndcg)], inl ValueError) /\
  snd (run w execute) = inl ValueError.
Proof. vm_compute. repeat split; reflexivity. Qed.

(** C3, amended.  When the evaluation cannot be started, ends with a
    non-zero return code, prints bytes that do not decode, or prints no
    non-blank line, the triple is logged as an error and skipped: the
    verification state (failure flag and results) is returned unchanged
    and the loop goes on. *)
Theorem failed_evaluation_is_skipped w method i topic_set metric st tr :
  evaluation_failed (popen w (spawned tr) (eval_cmdline method topic_set metric)) ->
  exists e,
    verify_triple w false method i topic_set metric st tr
    = (tr ++ [Spawn (eval_cmdline method topic_set metric); Log ERROR (MsgEvalFailed e)],
       inr st).
Proof.
  intros H. destruct (result_line_failed _ _ _ H) as (e & He & Hr).
  exists e. unfold verify_triple. fold (eval_cmdline method topic_set metric).
  unfold bind at 1. unfold try_except. rewrite Hr, He.
  unfold bind, logger_error, emit, ret. rewrite <- app_assoc. reflexivity.
Qed.

Lemma failed_evaluation_is_skipped_witness :
  exists e,
    verify_triple (world_failing (config_of [rrf_method])) false
      rrf_method 0 dl19 ndcg empty_state []
    = ([Spawn (eval_cmdline rrf_method dl19 ndcg); Log ERROR (MsgEvalFailed e)],
       inr empty_state).
Proof.
  apply (failed_evaluation_is_skipped (world_failing (config_of [rrf_method]))
           rrf_method 0 dl19 ndcg empty_state []).
  right. left. exists 1, (Some ""). split; [reflexivity | discriminate].
Defined.

(** ** The script *)

Lemma main_unfold w a :
  main w a =
  (yaml_data <- match load_yaml w (config_path a) with
                | Some y => ret y
                | None => logger_error MsgConfigMissing ;;; exit 1
                end ;;
   all_runs <- item "runs" (runs yaml_data) ;;
   check_run_files w all_runs ;;;
   after_checks w a yaml_data).
Proof. reflexivity. Qed.

Lemma main_no_config w a tr :
  load_yaml w (config_path a) = None ->
  main w a tr = (tr ++ [Log ERROR MsgConfigMissing], inl (SystemExit 1)).
Proof.
  intros H. rewrite main_unfold. unfold bind at 1. rewrite H. reflexivity.
Qed.

Lemma check_run_files_spec w rs files tr :
  files_of rs = Some files ->
  check_run_files w rs tr
  = match find (fun f => negb (path_exists w f)) files with
    | Some f => (tr ++ [Log ERROR (MsgRunFileMissing f)], inl (SystemExit 1))
    | None => (tr, inr tt)
    end.
Proof.
  unfold check_run_files. revert files tr.
  induction rs as [|r rs IH]; intros files tr Hf; simpl in Hf.
  - injection Hf as <-. reflexivity.
  - destruct (r_file r) as [f|] eqn:Er; [|discriminate].
    destruct (files_of rs) as [fs|] eqn:Ef; [|discriminate].
    injection Hf as <-. simpl.
    unfold bind at 1. unfold bind at 1. rewrite Er. simpl.
    destruct (path_exists w f); simpl.
    + apply IH. reflexivity.
    + reflexivity.
Qed.

Lemma main_checked w a yd rs files tr :
  load_yaml w (config_path a) = Some yd ->
  runs yd = Some rs -> files_of rs = Some files ->
  main w a tr
  = match find (fun f => negb (path_exists w f)) files with
    | Some f => (tr ++ [Log ERROR (MsgRunFileMissing f)], inl (SystemExit 1))
    | None => after_checks w a yd tr
    end.
Proof.
  intros Hl Hr Hf. rewrite main_unfold.
  unfold bind at 1. rewrite Hl. simpl.
  unfold bind at 1. rewrite Hr. simpl.
  unfold bind at 1. rewrite (check_run_files_spec _ _ _ _ Hf).
  destruct (find _ files); reflexivity.
Qed.

Lemma find_missing (exists_ : string -> bool) files :
  (exists f, In f files /\ exists_ f = false) ->
  exists f, find (fun f => negb (exists_ f)) files = Some f.
Proof.
  intros (f & Hin & Hf).
  destruct (find (fun f => negb (exists_ f)) files) as [f'|] eqn:E; [eauto|].
  exfalso. eapply find_none in E; [|exact Hin]. rewrite Hf in E. discriminate.
Qed.

Lemma find_all_present (exists_ : string -> bool) files :
  (forall f, In f files -> exists_ f = true) ->
  find (fun f => negb (exists_ f)) files = None.
Proof.
  intros H. destruct (find _ files) as [f|] eqn:E; [|reflexivity].
  apply find_some in E as [Hin Hf]. rewrite (H f Hin) in Hf. discriminate.
Qed.

Lemma only_logs_dry (l : trace) : Forall (mode_event true) l -> only_logs l.
Proof.
  intros H. eapply Forall_impl; [|exact H]. intros ev Hev. apply Hev. reflexivity.
Qed.

Lemma dry_run_spawns_nothing w a :
  dry_run a = true -> only_logs (fst (run w a)).
Proof.
  intros Hd. unfold run.
  assert (E : ensures (mode_event true) (fun _ => True) (main w a)).
  { rewrite main_unfold.
    apply ensures_bind.
    { destruct (load_yaml w (config_path a)); [apply ensures_ret|].
      apply ensures_bind; [apply ensures_emit; apply mode_event_log | intros _].
      apply ensures_raise. exact I. }
    intros yd. apply ensures_bind; [apply ensures_item; exact I | intros rs].
    apply ensures_bind.
    { unfold check_run_files. apply ensures_for_each. intros r [] _.
      apply ensures_bind; [apply ensures_item; exact I | intros f].
      destruct (negb _); [|apply ensures_ret].
      apply ensures_bind; [apply ensures_emit; apply mode_event_log | intros _].
      apply ensures_raise. exact I. }
    intros _. rewrite <- Hd.
    eapply ensures_weaken; [| |apply after_checks_ensures]; auto. }
  destruct (E []) as (l & Htr & Hl & _). rewrite Htr. simpl.
  apply only_logs_dry. exact Hl.
Qed.

(** ** What a completed loop has done *)

Lemma bind_ok {A B : Type} (m : M A) (f : A -> M B) tr tr' a :
  m tr = (tr', inr a) -> bind m f tr = f a tr'.
Proof. intros H. unfold bind. rewrite H. reflexivity. Qed.


Lemma ensures_extends {A : Type} P R (m : M A) tr :
  ensures P R m -> exists l, fst (m tr) = tr ++ l.
Proof. intros H. destruct (H tr) as (l & Hl & _). eauto. Qed.

Lemma for_each_covers {A S : Type} (body : A -> S -> M S)
  (I : trace -> Prop) (Phi : A -> trace -> Prop) (l : list A) :
  (forall tr l', I tr -> I (tr ++ l')) ->
  (forall a tr l', Phi a tr -> Phi a (tr ++ l')) ->
  (forall a s, ensures (fun _ => True) (fun _ => True) (body a s)) ->
  (forall a s tr tr' s', In a l -> I tr -> body a s tr = (tr', inr s') -> Phi a tr') ->
  forall s tr tr' s',
    I tr -> for_each body l s tr = (tr', inr s') ->
    forall a, In a l -> Phi a tr'.
Proof.
  intros HI HPhi Hext. induction l as [|a0 l IH]; intros Hbody s tr tr' s' Htr Hrun a Hin.
  - destruct Hin.
  - simpl in Hrun. unfold bind in Hrun.
    destruct (body a0 s tr) as [tr1 [e|s1]] eqn:Eb; [discriminate|].
    destruct (ensures_extends _ _ (body a0 s) tr (Hext a0 s)) as (l1 & E1).
    rewrite Eb in E1. simpl in E1. subst tr1.
    destruct Hin as [<-|Hin].
    + assert (Ha : Phi a0 (tr ++ l1)) by (eapply Hbody; eauto; left; reflexivity).
      destruct (ensures_extends _ _ (for_each body l s1) (tr ++ l1)
                  (ensures_for_each _ _ body l (fun a s _ => Hext a s) s1)) as (l2 & E2).
      rewrite Hrun in E2. simpl in E2. subst tr'. apply HPhi. exact Ha.
    + eapply (IH (fun a s tr tr' s' H => Hbody a s tr tr' s' (or_intror H)));
        [| exact Hrun | exact Hin].
      apply HI. exact Htr.
Qed.

Lemma result_line_spawns w cmdline tr :
  exists r, result_line w cmdline tr = (tr ++ [Spawn cmdline], r).
Proof.
  unfold result_line, check_output, subprocess_popen, decode, bind, lift.
  destruct (popen w (spawned tr) cmdline) as [|rc out]; [eexists; reflexivity|].
  cbn -[py_split py_index nonblank].
  destruct (rc =? 0); [|eexists; reflexivity]. cbn -[py_split py_index nonblank].
  destruct out as [text|]; [|eexists; reflexivity]. cbn -[py_split py_index nonblank].
  destruct (py_split text NL) as [e|lines]; [eexists; reflexivity|].
  destruct (py_index (filter nonblank lines) (-1)) as [e|out]; [eexists; reflexivity|].
  cbn -[nonblank]. destruct (negb (nonblank out)); eexists; reflexivity.
Qed.

Lemma verify_triple_marks w dry method i topic metric st tr :
  exists l r,
    verify_triple w dry method i topic metric st tr
    = (tr ++ triple_event dry method topic metric :: l, r).
Proof.
  unfold verify_triple, triple_event. fold (eval_cmdline method topic metric).
  destruct dry.
  { exists [], (inr st). reflexivity. }
  destruct (result_line_spawns w (eval_cmdline method topic metric) tr) as (r & Hr).
  unfold bind at 1. unfold try_except. rewrite Hr.
  destruct r as [e|[out|]].
  - destruct (is_exception e).
    + unfold bind, logger_error, emit, ret. rewrite <- app_assoc. simpl.
      eexists _, _. reflexivity.
    + exists [], (inl e). reflexivity.
  - destruct (ensures_extends _ _ (compare_scores method i topic metric st out)
                (tr ++ [Spawn (eval_cmdline method topic metric)])
                (compare_scores_ensures _ _ _ _ _ _)) as (l & Hl).
    destruct (compare_scores method i topic metric st out _) as [tr' r'].
    simpl in Hl. subst tr'. rewrite <- app_assoc. simpl. eexists _, _. reflexivity.
  - unfold ret. exists [], (inr st). reflexivity.
Qed.

Lemma in_enumerate {A : Type} (l : list A) a :
  In a l -> exists i, In (i, a) (enumerate l).
Proof.
  unfold enumerate. generalize 0%nat.
  induction l as [|x l IH]; intros start Hin; [destruct Hin|].
  simpl. destruct Hin as [->|Hin].
  - exists start. left. reflexivity.
  - destruct (IH (S start) Hin) as (i & Hi). exists i. right. exact Hi.
Qed.

Lemma happened_since_app tr0 ev tr l : happened_since tr0 ev tr -> happened_since tr0 ev (tr ++ l).
Proof.
  intros (l0 & -> & Hin). exists (l0 ++ l). rewrite app_assoc. split; [reflexivity|].
  apply in_or_app. left. exact Hin.
Qed.

Lemma weaken_all {A : Type} P R (m : M A) :
  ensures P R m -> ensures (fun _ => True) (fun _ => True) m.
Proof. apply ensures_weaken; auto. Qed.

Lemma item_some {A : Type} key (v : A) tr : item key (Some v) tr = (tr, inr v).
Proof. reflexivity. Qed.

Lemma verify_loops_cover w yd dry tr tr' st ms ts mts :
  methods yd = Some ms -> topics yd = Some ts -> metrics yd = Some mts ->
  verify_loops w yd dry tr = (tr', inr st) ->
  forall method topic metric,
    In method ms -> name_in (m_name method) verify_supported_methods = true ->
    In topic ts -> In metric mts ->
    happened_since tr (triple_event dry method topic metric) tr'.
Proof.
  intros Hm Ht Hmt Hrun method topic metric Hin Hname Hint Hinm.
  unfold verify_loops in Hrun. unfold bind at 1 in Hrun.
  rewrite Hm, item_some in Hrun. cbv beta iota zeta in Hrun.
  set (ext := fun t : trace => exists l, t = tr ++ l).
  assert (Hext : forall t l, ext t -> ext (t ++ l)).
  { intros t l (l0 & ->). exists (l0 ++ l). apply eq_sym, app_assoc. }
  destruct (in_enumerate ts topic Hint) as (i & Hi).
  refine (for_each_covers _ ext
            (fun m t => forall it me, In it (enumerate ts) -> In me mts ->
                        happened_since tr (triple_event dry m (snd it) me) t)
            _ Hext _ _ _ _ tr tr' st _ Hrun method _ (i, topic) metric Hi Hinm).
  - intros m t l H it me Hit Hme. apply happened_since_app. auto.
  - intros m s. apply ensures_bind; [apply ensures_item; exact I | intros ts'].
    apply ensures_for_each. intros it s' _.
    apply ensures_bind; [apply ensures_item; exact I | intros mts'].
    apply ensures_for_each. intros me s'' _.
    eapply weaken_all. apply verify_triple_ensures.
  - intros m s t t' s' _ Htext Hbody it me Hit Hme.
    unfold bind at 1 in Hbody. rewrite Ht, item_some in Hbody. cbv beta iota in Hbody.
    refine (for_each_covers _ ext
              (fun it t => forall me, In me mts ->
                           happened_since tr (triple_event dry m (snd it) me) t)
              _ Hext _ _ _ _ t t' s' Htext Hbody it Hit me Hme).
    + intros it' t0 l H me' Hme'. apply happened_since_app. auto.
    + intros it' s0. apply ensures_bind; [apply ensures_item; exact I | intros mts'].
      apply ensures_for_each. intros me' s'' _.
      eapply weaken_all. apply verify_triple_ensures.
    + intros it' s0 t0 t0' s0' _ Ht0 Hb me' Hme'.
      unfold bind at 1 in Hb. rewrite Hmt, item_some in Hb. cbv beta iota in Hb.
      refine (for_each_covers _ ext
                (fun me t => happened_since tr (triple_event dry m (snd it') me) t)
                _ Hext _ _ _ _ t0 t0' s0' Ht0 Hb me' Hme').
      * intros me0 t1 l H. apply happened_since_app. exact H.
      * intros me0 s1. eapply weaken_all. apply verify_triple_ensures.
      * intros me0 s1 t1 t1' s1' _ (l1 & ->) Hv.
        destruct (verify_triple_marks w dry m (fst it') (snd it') me0 s1 (tr ++ l1)) as (l2 & r & E).
        rewrite Hv in E. injection E as E _. subst t1'.
        exists (l1 ++ triple_event dry m (snd it') me0 :: l2).
        rewrite app_assoc. split; [reflexivity|].
        apply in_or_app. right. left. reflexivity.
  - exists []. apply eq_sym, app_nil_r.
  - apply filter_In. split; assumption.
Qed.

(** In dry-run mode the fusion commands are logged as one line. *)
Lemma dry_fusion_line w a yd ms rs files text :
  dry_run a = true ->
  load_yaml w (config_path a) = Some yd ->
  methods yd = Some ms -> runs yd = Some rs -> files_of rs = Some files ->
  (forall f, In f files -> path_exists w f = true) ->
  join_tokens (List.concat (map (fusion_command (use_pyserini a) files) (fusion_methods ms)))
  = inr text ->
  happened_since [] (Log INFO (MsgText text)) (fst (run w a)).
Proof.
  intros Hd Hl Hm Hr Hf Hall Hj. unfold run.
  rewrite (main_checked w a yd rs files [] Hl Hr Hf).
  rewrite (find_all_present (path_exists w) files Hall).
  unfold after_checks.
  rewrite (bind_ok _ _ [] ([] ++ [Log INFO (MsgUsing (use_pyserini a))]) tt) by reflexivity.
  rewrite (bind_ok _ _ _ _ _ (construct_ok yd (use_pyserini a) ms rs files _ Hm Hr Hf)).
  rewrite Hd.
  set (tr2 := ([] ++ [Log INFO (MsgUsing (use_pyserini a))])
              ++ [Log INFO (MsgTesting (map m_name (fusion_methods ms)))]).
  rewrite (bind_ok _ _ tr2 (tr2 ++ [Log INFO (MsgText text)]) tt)
    by (unfold bind, lift; rewrite Hj; reflexivity).
  assert (E : ensures (fun _ => True) (fun _ => True)
                (evaluate_and_verify w yd true ;;; logger_info MsgElapsed)).
  { apply ensures_bind; [eapply weaken_all; apply evaluate_and_verify_ensures | intros _].
    apply ensures_emit. exact I. }
  destruct (E (tr2 ++ [Log INFO (MsgText text)])) as (l & -> & _).
  exists ((tr2 ++ [Log INFO (MsgText text)]) ++ l). split; [reflexivity|].
  apply in_or_app. left. apply in_or_app. right. left. reflexivity.
Qed.

(* ===================================================================== *)
(** ** The claims *)
(* ===================================================================== *)

Lemma Forall2_map_self {A B : Type} (R : A -> B -> Prop) (f : A -> B) (l : list A) :
  (forall x, In x l -> R x (f x)) -> Forall2 R l (map f l).
Proof.
  induction l as [|x l IH]; intros H; simpl; constructor.
  - apply H. left. reflexivity.
  - apply IH. intros y Hy. apply H. right. exact Hy.
Qed.

(** C4.  For a configuration with its [methods] and [runs] (each run with
    its [file]) and for either backend, the builder returns one command per
    configured method named [rrf], [average] or [interpolation], in order;
    each command carries all the run files and the output path of its
    method; a method named [normalize] gets no command. *)
Theorem one_command_per_supported_method yd (b : bool) tr ms rs files :
  methods yd = Some ms -> runs yd = Some rs -> files_of rs = Some files ->
  exists cmds,
    snd (construct_fusion_commands yd b tr) = inr cmds /\
    Forall2
      (fun method cmd =>
         exists n pre post,
           m_name method = Some n /\ In n ["rrf"; "average"; "interpolation"] /\
           cmd = pre ++ (if b then Some "--runs" :: map Some files
                         else [Some "-runs"; Some (String.concat " " files)])
                     ++ [Some (if b then "--output" else "-output"); m_output method]
                     ++ post)
      (filter (fun method => name_in (m_name method) ["rrf"; "average"; "interpolation"]) ms)
      cmds /\
    (forall method, In method ms -> m_name method = Some "normalize" ->
       ~ In method
           (filter (fun method => name_in (m_name method) ["rrf"; "average"; "interpolation"])
                   ms)).
Proof.
  intros Hm Hr Hf. rewrite (construct_ok yd b ms rs files tr Hm Hr Hf).
  exists (map (fusion_command b files) (fusion_methods ms)). split; [reflexivity|]. split.
  - apply Forall2_map_self. intros m Hin.
    destruct (fusion_methods_named _ _ Hin) as (n & En & Hn).
    unfold fusion_command. rewrite En. simpl get_or.
    exists n. destruct b.
    + exists [Some PYSERINI_FUSE_COMMAND; Some "--method"; Some n].
      exists ([Some "--runtag"; Some (String.append "pyserini." n);
               Some "--k"; Some (py_str (get_or (m_k m) (YInt 1000)));
               Some "--depth"; Some (py_str (get_or (m_depth m) (YInt 1000)))]
              ++ pyserini_extra m n).
      split; [reflexivity|]. split.
      * simpl. destruct Hn as [-> | [-> | ->]]; auto.
      * unfold pyserini_cmd. simpl. rewrite <- !app_assoc. reflexivity.
    + exists [Some ANSERINI_FUSE_COMMAND].
      exists [Some "-method"; Some n;
              Some "-k"; Some (py_str (get_or (m_k m) (YInt 1000)));
              Some "-depth"; Some (py_str (get_or (m_depth m) (YInt 1000)));
              Some "-rrf_k"; Some (py_str (get_or (m_rrf_k m) (YInt 60)));
              Some "-alpha"; Some (py_str (get_or (m_alpha m) (YFloat alpha_default)))].
      split; [reflexivity|]. split.
      * simpl. destruct Hn as [-> | [-> | ->]]; auto.
      * reflexivity.
  - intros m _ Hn Hin. apply filter_In in Hin as [_ Hin]. rewrite Hn in Hin. discriminate.
Qed.

Lemma one_command_per_supported_method_witness :
  exists cmds,
    snd (construct_fusion_commands
           (config_of [rrf_method; normalize_method; interpolation_method]) true [])
    = inr cmds /\ List.length cmds = 2%nat.
Proof.
  destruct (one_command_per_supported_method
              (config_of [rrf_method; normalize_method; interpolation_method]) true []
              [rrf_method; normalize_method; interpolation_method] two_runs
              ["runs/a.txt"; "runs/b.txt"] eq_refl eq_refl eq_refl)
    as (cmds & E & F & _).
  exists cmds. split; [exact E|].
  apply Forall2_length in F. etransitivity; [symmetry; exact F | reflexivity].
Defined.

(** C5.  For every method with a command: the Anserini command ends with
    the four flags [-k], [-depth], [-rrf_k], [-alpha], each followed by the
    configured value or by the default 1000, 1000, 60, 0.5; the Pyserini
    command is made of the method, the runs, the output, a [--runtag] whose
    value is [pyserini.] followed by the method name, [--k], [--depth],
    and then [--rrf.k] for [rrf], [--alpha] for [interpolation], nothing for
    the others.  When no path or value of the configuration is itself
    spelled [--rrf.k] (resp. [--alpha]), that token occurs in the command
    exactly when the method is [rrf] (resp. [interpolation]). *)
Theorem backend_parameter_flags yd tr ms rs files :
  methods yd = Some ms -> runs yd = Some rs -> files_of rs = Some files ->
  (exists cmds,
     snd (construct_fusion_commands yd false tr) = inr cmds /\
     Forall2
       (fun method cmd =>
          exists pre,
            cmd = pre ++
              [Some "-k"; Some (py_str (get_or (m_k method) (YInt 1000)));
               Some "-depth"; Some (py_str (get_or (m_depth method) (YInt 1000)));
               Some "-rrf_k"; Some (py_str (get_or (m_rrf_k method) (YInt 60)));
               Some "-alpha"; Some (py_str (get_or (m_alpha method) (YFloat alpha_default)))])
       (fusion_methods ms) cmds) /\
  (exists cmds,
     snd (construct_fusion_commands yd true tr) = inr cmds /\
     Forall2
       (fun method cmd =>
          exists n,
            m_name method = Some n /\
            cmd = [Some PYSERINI_FUSE_COMMAND; Some "--method"; Some n; Some "--runs"]
                  ++ map Some files ++
                  [Some "--output"; m_output method;
                   Some "--runtag"; Some (String.append "pyserini." n);
                   Some "--k"; Some (py_str (get_or (m_k method) (YInt 1000)));
                   Some "--depth"; Some (py_str (get_or (m_depth method) (YInt 1000)))]
                  ++ (if String.eqb n "rrf"
                      then [Some "--rrf.k"; Some (py_str (get_or (m_rrf_k method) (YInt 60)))]
                      else if String.eqb n "interpolation"
                      then [Some "--alpha";
                            Some (py_str (get_or (m_alpha method) (YFloat alpha_default)))]
                      else []) /\
            (~ In (Some "--rrf.k") (data_tokens method files) ->
             (In (Some "--rrf.k") cmd <-> n = "rrf")) /\
            (~ In (Some "--alpha") (data_tokens method files) ->
             (In (Some "--alpha") cmd <-> n = "interpolation")))
       (fusion_methods ms) cmds) /\
  py_str (YInt 1000) = "1000" /\ py_str (YInt 60) = "60" /\
  py_str (YFloat alpha_default) = "0.5".
Proof.
  intros Hm Hr Hf. split; [|split].
  - rewrite (construct_ok yd false ms rs files tr Hm Hr Hf).
    eexists. split; [reflexivity|].
    apply Forall2_map_self. intros m Hin.
    exists [Some ANSERINI_FUSE_COMMAND; Some "-runs"; Some (String.concat " " files);
            Some "-output"; m_output m; Some "-method"; Some (get_or (m_name m) "average")].
    reflexivity.
  - rewrite (construct_ok yd true ms rs files tr Hm Hr Hf).
    eexists. split; [reflexivity|].
    apply Forall2_map_self. intros m Hin.
    destruct (fusion_methods_named _ _ Hin) as (n & En & Hn).
    exists n. split; [exact En|].
    unfold fusion_command. rewrite En. simpl get_or.
    unfold pyserini_cmd, pyserini_extra. split; [rewrite <- !app_assoc; reflexivity|].
    unfold data_tokens.
    split; intros Hd; rewrite !in_app_iff in *; simpl in *;
      destruct Hn as [-> | [-> | ->]]; simpl;
      (split; [intros H | intros H; try discriminate; auto 10]);
      repeat match goal with
             | H : _ \/ _ |- _ => destruct H
             | H : False |- _ => destruct H
             | H : Some _ = Some _ |- _ => try discriminate H
             end;
      try reflexivity; try discriminate;
      try (exfalso; apply Hd; auto 10).
  - vm_compute. repeat split; reflexivity.
Qed.

Lemma backend_parameter_flags_witness :
  exists cmds,
    snd (construct_fusion_commands (config_of [rrf_method; interpolation_method]) false [])
    = inr cmds /\ List.length cmds = 2%nat.
Proof.
  destruct (backend_parameter_flags (config_of [rrf_method; interpolation_method]) []
              [rrf_method; interpolation_method] two_runs
              ["runs/a.txt"; "runs/b.txt"] eq_refl eq_refl eq_refl)
    as ((cmds & E & F) & _).
  exists cmds. split; [exact E|].
  apply Forall2_length in F. etransitivity; [symmetry; exact F | reflexivity].
Defined.

(** C2.  For finite floats [a], [b], [rel_tol], [abs_tol],
    [is_close(a, b, rel_tol, abs_tol)] is true exactly when
    [|a - b| <= max(rel_tol * max(|a|, |b|), abs_tol)], the difference and
    the product being those of the floats; and the two-argument call uses
    the floats that [1e-9] and [0.0] denote. *)
Theorem is_close_formula a b rel_tol abs_tol :
  is_finite a = true -> is_finite b = true ->
  is_finite rel_tol = true -> is_finite abs_tol = true ->
  (is_close a b rel_tol abs_tol = true <-> is_close_spec a b rel_tol abs_tol) /\
  is_close_2 a b = is_close a b (of_decimal false 1 (-9)) (of_decimal false 0 0).
Proof.
  intros Fa Fb Fr Ft. split.
  - apply is_close_refines; assumption.
  - destruct default_tolerances as [E1 E2]. unfold is_close_2. rewrite E1, E2. reflexivity.
Qed.

Lemma is_close_formula_witness :
  (is_close f_0_4123 f_0_7 rel_tol_default abs_tol_default = true <->
   is_close_spec f_0_4123 f_0_7 rel_tol_default abs_tol_default) /\
  is_close_2 f_0_4123 f_0_7
  = is_close f_0_4123 f_0_7 (of_decimal false 1 (-9)) (of_decimal false 0 0).
Proof.
  apply (is_close_formula f_0_4123 f_0_7 rel_tol_default abs_tol_default);
    vm_compute; reflexivity.
Defined.

(** Expected 0.4123: the actual score 0.4123 passes, hence 0.5 passes. *)
Lemma pass_rule_monotonic_witness :
  passes f_0_4123 alpha_default = true.
Proof.
  apply (pass_rule_monotonic f_0_4123 f_0_4123 alpha_default); vm_compute; reflexivity.
Defined.

(** C7, as stated, fails: a method whose mapping lacks the [output] key is
    built without any error, with [None] where the path should be and the
    defaults 1000, 1000, 60, 0.5 for the absent parameters; and the builder
    leaves a log record. *)
Lemma missing_output_is_not_an_error :
  construct_fusion_commands (config_of [no_output_method]) false []
  = ([Log INFO (MsgTesting [Some "rrf"])],
     inr [[Some "bin/run.sh io.anserini.fusion.FuseRuns";
           Some "-runs"; Some "runs/a.txt runs/b.txt";
           Some "-output"; None;
           Some "-method"; Some "rrf";
           Some "-k"; Some "1000"; Some "-depth"; Some "1000";
           Some "-rrf_k"; Some "60"; Some "-alpha"; Some "0.5"]]).
Proof. vm_compute. reflexivity. Qed.

(** C7, amended.  The builder only adds log records to the trace.  It
    raises [KeyError] when [methods] is absent and, if some method is
    supported, when [runs] is absent or a run has no [file]; it raises
    nothing else.  With these present it returns the commands of the
    supported methods whatever else is absent: a method without [output]
    gets a command that holds [None], absent parameters get their
    defaults. *)
Theorem builder_effects_and_errors yd (b : bool) tr :
  (exists l, fst (construct_fusion_commands yd b tr) = tr ++ l /\ only_logs l) /\
  (forall e, snd (construct_fusion_commands yd b tr) = inl e ->
     (e = KeyError "methods" /\ methods yd = None) \/
     (e = KeyError "runs" /\ runs yd = None) \/
     (e = KeyError "file" /\ exists rs, runs yd = Some rs /\ files_of rs = None)) /\
  (methods yd = None ->
   snd (construct_fusion_commands yd b tr) = inl (KeyError "methods")) /\
  (forall ms, methods yd = Some ms -> fusion_methods ms = [] ->
     snd (construct_fusion_commands yd b tr) = inr []) /\
  (forall ms, methods yd = Some ms -> fusion_methods ms <> [] -> runs yd = None ->
     snd (construct_fusion_commands yd b tr) = inl (KeyError "runs")) /\
  (forall ms rs, methods yd = Some ms -> fusion_methods ms <> [] ->
     runs yd = Some rs -> files_of rs = None ->
     snd (construct_fusion_commands yd b tr) = inl (KeyError "file")) /\
  (forall ms rs files,
     methods yd = Some ms -> runs yd = Some rs -> files_of rs = Some files ->
     snd (construct_fusion_commands yd b tr)
     = inr (map (fusion_command b files) (fusion_methods ms))) /\
  (forall files method,
     m_output method = None -> In None (fusion_command b files method)).
Proof.
  split; [|split; [|split; [|split; [|split; [|split; [|split]]]]]].
  - destruct (construct_fusion_commands_ensures (fun ev => is_spawn ev = false) yd b
                (fun _ _ => eq_refl) tr) as (l & Hl & Hf & _).
    exists l. split; assumption.
  - intros e He.
    destruct (methods yd) as [ms|] eqn:Hm.
    + destruct (fusion_methods ms) as [|m0 l0] eqn:Hfm.
      * rewrite (construct_nothing yd b ms tr Hm Hfm) in He. discriminate.
      * assert (Hne : fusion_methods ms <> []) by (rewrite Hfm; discriminate).
        destruct (runs yd) as [rs|] eqn:Hr.
        -- destruct (files_of rs) as [files|] eqn:Hf.
           ++ rewrite (construct_ok yd b ms rs files tr Hm Hr Hf) in He. discriminate.
           ++ rewrite (construct_no_file yd b ms rs tr Hm Hne Hr Hf) in He.
              injection He as <-. right. right. split; [reflexivity|]. eauto.
        -- rewrite (construct_no_runs yd b ms tr Hm Hne Hr) in He.
           injection He as <-. right. left. split; reflexivity.
    + rewrite (construct_no_methods yd b tr Hm) in He.
      injection He as <-. left. split; reflexivity.
  - intros Hm. rewrite (construct_no_methods yd b tr Hm). reflexivity.
  - intros ms Hm He. rewrite (construct_nothing yd b ms tr Hm He). reflexivity.
  - intros ms Hm Hne Hr. rewrite (construct_no_runs yd b ms tr Hm Hne Hr). reflexivity.
  - intros ms rs Hm Hne Hr Hf. rewrite (construct_no_file yd b ms rs tr Hm Hne Hr Hf).
    reflexivity.
  - intros ms rs files Hm Hr Hf. rewrite (construct_ok yd b ms rs files tr Hm Hr Hf). reflexivity.
  - intros files method Ho. unfold fusion_command. destruct b.
    + unfold pyserini_cmd. rewrite Ho. rewrite !in_app_iff. simpl. auto 10.
    + unfold anserini_command. rewrite Ho. simpl. auto 10.
Qed.

Lemma builder_effects_and_errors_witness :
  snd (construct_fusion_commands (config_of [no_output_method]) true [])
  = inr (map (fusion_command true ["runs/a.txt"; "runs/b.txt"])
             (fusion_methods [no_output_method])) /\
  In None (fusion_command true ["runs/a.txt"; "runs/b.txt"] no_output_method).
Proof.
  destruct (builder_effects_and_errors (config_of [no_output_method]) true [])
    as (_ & _ & _ & _ & _ & _ & H3 & H4).
  split.
  - apply (H3 [no_output_method] two_runs); reflexivity.
  - apply H4. reflexivity.
Defined.

(** C6, as stated, fails: the configuration file is there and so are the
    run files, commands are executed, and the process still ends with
    status 1, on the [ValueError] of a score that does not parse. *)
Lemma unparseable_score_exits_1 :
  let w := world_of (config_of [rrf_method]) (eval_output "n/a") in
  load_yaml w (config_path execute) = Some (config_of [rrf_method]) /\
  path_exists w "runs/a.txt" = true /\ path_exists w "runs/b.txt" = true /\
  exit_status (snd (run w execute)) = 1 /\
  In (Spawn (eval_cmdline rrf_method dl19 ndcg)) (fst (run w execute)).
Proof. vm_compute. repeat split; auto 10. Qed.

(** C6, amended.  Without a configuration file, or with a configured run
    file that does not exist, the process exits with status 1 and no
    command has been started.  With both in place, the status is 0 when the
    script reaches its end and 1 when an exception escapes; FAIL verdicts
    do not change it: the run of the second scenario logs a FAIL and ends
    with status 0. *)
Theorem exit_status_rule w a :
  (load_yaml w (config_path a) = None ->
   run w a = ([Log ERROR MsgConfigMissing], inl (SystemExit 1)) /\
   exit_status (snd (run w a)) = 1) /\
  (forall yd rs files,
     load_yaml w (config_path a) = Some yd -> runs yd = Some rs -> files_of rs = Some files ->
     (exists f, In f files /\ path_exists w f = false) ->
     exit_status (snd (run w a)) = 1 /\ only_logs (fst (run w a))) /\
  (forall yd rs files,
     load_yaml w (config_path a) = Some yd -> runs yd = Some rs -> files_of rs = Some files ->
     (forall f, In f files -> path_exists w f = true) ->
     (snd (run w a) = inr tt /\ exit_status (snd (run w a)) = 0) \/
     (exists e, is_exception e = true /\ snd (run w a) = inl e /\
                exit_status (snd (run w a)) = 1)) /\
  (let w' := world_of (config_of [rrf_method]) (eval_output "0.3000") in
   In (Log ERROR (MsgFail f_0_4123 (of_decimal false 3 (-1)) "nDCG@10" "rrf" "dl19"))
      (fst (run w' execute)) /\
   In (Log ERROR MsgSomeFailed) (fst (run w' execute)) /\
   exit_status (snd (run w' execute)) = 0).
Proof.
  split; [|split; [|split]].
  - intros H. unfold run. rewrite (main_no_config w a [] H). split; reflexivity.
  - intros yd rs files Hl Hr Hf Hmiss. unfold run.
    rewrite (main_checked w a yd rs files [] Hl Hr Hf).
    destruct (find_missing (path_exists w) files Hmiss) as (f & ->).
    split; [reflexivity|]. repeat constructor.
  - intros yd rs files Hl Hr Hf Hall. unfold run.
    rewrite (main_checked w a yd rs files [] Hl Hr Hf).
    rewrite (find_all_present (path_exists w) files Hall).
    destruct (after_checks_ensures w a yd []) as (l & _ & _ & He).
    destruct (after_checks w a yd []) as [tr' [e|[]]]; simpl in *.
    + right. exists e. pose proof (He e eq_refl) as Hx. unfold is_exn in Hx.
      split; [exact Hx|]. split; [reflexivity|].
      destruct e; try reflexivity. discriminate.
    + left. split; reflexivity.
  - vm_compute. repeat split; auto 20.
Qed.

Lemma exit_status_rule_witness :
  exit_status (snd (run (world_without (config_of [rrf_method]) "runs/b.txt") execute)) = 1 /\
  only_logs (fst (run (world_without (config_of [rrf_method]) "runs/b.txt") execute)).
Proof.
  destruct (exit_status_rule (world_without (config_of [rrf_method]) "runs/b.txt") execute)
    as (_ & H & _).
  apply (H (config_of [rrf_method]) two_runs ["runs/a.txt"; "runs/b.txt"]); try reflexivity.
  exists "runs/b.txt". split; [right; left; reflexivity | reflexivity].
Defined.

(** C9.  In dry-run mode the trace of a run holds log records only, no
    subprocess, whatever the world and the backend: the fusion commands are
    logged as one line, and a verification phase logs the command line of
    every triple.  With the Pyserini backend and an interpolation method
    whose [alpha] is 0.7, the fusion command is logged with the tokens
    [--alpha 0.7]. *)
Theorem dry_run_never_spawns :
  (forall w name b,
     only_logs (fst (run w {| regression := name; dry_run := true; use_pyserini := b |}))) /\
  (forall w name b yd ms rs files text,
     load_yaml w (config_path {| regression := name; dry_run := true; use_pyserini := b |})
     = Some yd ->
     methods yd = Some ms -> runs yd = Some rs -> files_of rs = Some files ->
     (forall f, In f files -> path_exists w f = true) ->
     join_tokens (List.concat (map (fusion_command b files) (fusion_methods ms))) = inr text ->
     happened_since [] (Log INFO (MsgText text))
       (fst (run w {| regression := name; dry_run := true; use_pyserini := b |}))) /\
  (forall w yd tr tr' st ms ts mts method topic metric,
     methods yd = Some ms -> topics yd = Some ts -> metrics yd = Some mts ->
     verify_loops w yd true tr = (tr', inr st) ->
     In method ms -> name_in (m_name method) verify_supported_methods = true ->
     In topic ts -> In metric mts ->
     happened_since tr (Log INFO (MsgText (eval_cmdline method topic metric))) tr') /\
  (forall out,
     m_alpha interpolation_method = Some (YFloat (of_decimal false 7 (-1))) /\
     run (world_of (config_of [interpolation_method]) out) dry_pyserini
     = ([Log INFO (MsgUsing true);
         Log INFO (MsgTesting [Some "interpolation"]);
         Log INFO (MsgText "python -m pyserini.fusion --method interpolation --runs runs/a.txt runs/b.txt --output runs/fused.interp.txt --runtag pyserini.interpolation --k 1000 --depth 1000 --alpha 0.7");
         Log INFO MsgVerifying;
         Log INFO (MsgText "bin/trec_eval -c -m ndcg_cut.10 tools/topics-and-qrels/qrels.dl19.txt runs/fused.interp.txt");
         Log INFO MsgElapsed; Log INFO MsgAllPassed; Log INFO MsgElapsed],
        inr tt)).
Proof.
  split; [|split; [|split]].
  - intros w name b. apply dry_run_spawns_nothing. reflexivity.
  - intros w name b yd ms rs files text Hl Hm Hr Hf Hall Hj.
    apply (dry_fusion_line w {| regression := name; dry_run := true; use_pyserini := b |}
             yd ms rs files text eq_refl Hl Hm Hr Hf Hall Hj).
  - intros w yd tr tr' st ms ts mts method topic metric Hm Ht Hmt Hrun Hin Hn Hit Him.
    apply (verify_loops_cover w yd true tr tr' st ms ts mts Hm Ht Hmt Hrun
             method topic metric Hin Hn Hit Him).
  - intros out. split; [reflexivity|]. vm_compute. reflexivity.
Qed.

(** The scenario of the specification, through the general statement. *)
Lemma dry_run_never_spawns_witness :
  happened_since []
    (Log INFO (MsgText "python -m pyserini.fusion --method interpolation --runs runs/a.txt runs/b.txt --output runs/fused.interp.txt --runtag pyserini.interpolation --k 1000 --depth 1000 --alpha 0.7"))
    (fst (run (world_of (config_of [interpolation_method]) "") dry_pyserini)).
Proof.
  destruct dry_run_never_spawns as (_ & H & _).
  apply (H (world_of (config_of [interpolation_method]) "") "example" true
           (config_of [interpolation_method]) [interpolation_method] two_runs
           ["runs/a.txt"; "runs/b.txt"]); reflexivity.
Defined.

(** C10.  The verification phase accepts the method names [rrf],
    [average], [interpolation] and [normalize], the command builder only
    the first three.  So a method named [normalize] gets no fusion command,
    while a verification phase that runs to its end has started the
    evaluation of each of its (topic set, metric) pairs; and such a triple
    can fail: in the example run no fusion command is started and the
    [normalize] triple is logged as FAIL. *)
Theorem normalize_is_verified_but_never_fused :
  (forall n, In n fusion_supported_methods -> In n verify_supported_methods) /\
  In "normalize" verify_supported_methods /\
  ~ In "normalize" fusion_supported_methods /\
  (forall yd (b : bool) tr ms rs files method,
     methods yd = Some ms -> runs yd = Some rs -> files_of rs = Some files ->
     m_name method = Some "normalize" ->
     snd (construct_fusion_commands yd b tr)
     = inr (map (fusion_command b files) (fusion_methods ms)) /\
     ~ In method (fusion_methods ms)) /\
  (forall w yd tr tr' st ms ts mts method topic metric,
     methods yd = Some ms -> topics yd = Some ts -> metrics yd = Some mts ->
     verify_loops w yd false tr = (tr', inr st) ->
     In method ms -> m_name method = Some "normalize" ->
     In topic ts -> In metric mts ->
     happened_since tr (Spawn (eval_cmdline method topic metric)) tr') /\
  run (world_of (config_of [normalize_method]) (eval_output "0.3000")) execute
  = ([Log INFO (MsgUsing false);
      Log INFO (MsgTesting []);
      Log INFO MsgVerifying;
      Spawn "bin/trec_eval -c -m ndcg_cut.10 tools/topics-and-qrels/qrels.dl19.txt runs/fused.norm.txt";
      Log ERROR (MsgFail f_0_4123 (of_decimal false 3 (-1)) "nDCG@10" "normalize" "dl19");
      Log INFO MsgElapsed; Log ERROR MsgSomeFailed; Log INFO MsgElapsed],
     inr tt).
Proof.
  split; [|split; [|split; [|split; [|split]]]].
  - intros n. unfold fusion_supported_methods, verify_supported_methods. simpl. intuition.
  - simpl. auto.
  - simpl. intros [H|[H|[H|[]]]]; discriminate.
  - intros yd b tr ms rs files method Hm Hr Hf Hn. split.
    + rewrite (construct_ok yd b ms rs files tr Hm Hr Hf). reflexivity.
    + intros Hin. apply fusion_methods_supported in Hin. rewrite Hn in Hin. discriminate.
  - intros w yd tr tr' st ms ts mts method topic metric Hm Ht Hmt Hrun Hin Hn Hit Him.
    apply (verify_loops_cover w yd false tr tr' st ms ts mts Hm Ht Hmt Hrun
             method topic metric Hin); [rewrite Hn; reflexivity | exact Hit | exact Him].
  - vm_compute. reflexivity.
Qed.

Lemma normalize_is_verified_witness :
  happened_since []
    (Spawn (eval_cmdline normalize_method dl19 ndcg))
    (fst (verify_loops (world_of (config_of [normalize_method]) (eval_output "0.3000"))
            (config_of [normalize_method]) false [])).
Proof.
  destruct normalize_is_verified_but_never_fused as (_ & _ & _ & _ & H & _).
  eapply (H (world_of (config_of [normalize_method]) (eval_output "0.3000"))
            (config_of [normalize_method]) [] _ _ [normalize_method] [dl19] [ndcg]);
    try reflexivity; try (left; reflexivity).
  vm_compute. reflexivity.
Defined.

(* ===================================================================== *)
(** ** Further properties of the harness *)
(* ===================================================================== *)

(** ** The closeness test on all floats *)

Lemma fabs_fsub_sym a b : fabs (fsub a b) = fabs (fsub b a).
Proof.
  destruct a as [|sa|sa na], b as [|sb|sb nb]; try reflexivity.
  - simpl. destruct sa, sb; reflexivity.
  - rewrite !fsub_fin_abs. do 2 f_equal. lia.
Qed.

Lemma py_max_fabs_sym a b :
  a <> FNan -> b <> FNan -> py_max (fabs a) (fabs b) = py_max (fabs b) (fabs a).
Proof.
  intros Ha Hb.
  destruct a as [|sa|sa na], b as [|sb|sb nb]; try contradiction; try reflexivity.
  rewrite !py_max_abs_fin. f_equal. lia.
Qed.

Lemma fle_nan_l x : fle FNan x = false.
Proof. reflexivity. Qed.

Lemma is_close_nan_l b r t : is_close FNan b r t = false.
Proof. reflexivity. Qed.

Lemma is_close_nan_r a r t : is_close a FNan r t = false.
Proof. unfold is_close. destruct a; reflexivity. Qed.

(** X1.  [is_close] does not depend on the order of its two numbers,
    whatever they and the tolerances are (NaN and the infinities
    included). *)
Theorem is_close_symmetric a b rel_tol abs_tol :
  is_close a b rel_tol abs_tol = is_close b a rel_tol abs_tol.
Proof.
  destruct a as [|sa|sa na] eqn:Ea.
  - rewrite is_close_nan_l, is_close_nan_r. reflexivity.
  - destruct b as [|sb|sb nb] eqn:Eb.
    + rewrite is_close_nan_l, is_close_nan_r. reflexivity.
    + unfold is_close. rewrite fabs_fsub_sym. rewrite py_max_fabs_sym by discriminate. reflexivity.
    + unfold is_close. rewrite fabs_fsub_sym. rewrite py_max_fabs_sym by discriminate. reflexivity.
  - destruct b as [|sb|sb nb] eqn:Eb.
    + rewrite is_close_nan_l, is_close_nan_r. reflexivity.
    + unfold is_close. rewrite fabs_fsub_sym. rewrite py_max_fabs_sym by discriminate. reflexivity.
    + unfold is_close. rewrite fabs_fsub_sym. rewrite py_max_fabs_sym by discriminate. reflexivity.
Qed.

(** X2.  With the default tolerances a float is close to itself exactly
    when it is finite: [inf - inf] is NaN, and nothing is [<=]-comparable
    with NaN. *)
Theorem is_close_reflexive_iff_finite a :
  valid a = true -> is_close_2 a a = is_finite a.
Proof.
  destruct a as [|s|s n]; try reflexivity.
  - destruct s; reflexivity.
  - simpl. intros V. apply representable_spec in V as [V _].
    apply (is_close_2_fin s n s n V V).
    replace (sval s n - sval s n) with 0 by lia. simpl Z.abs.
    rewrite round_mag_small_exact by lia.
    apply round_mag_nonneg; [unfold rel_tol_units; lia | unfold ONE; lia].
Qed.

Lemma is_close_reflexive_iff_finite_witness :
  is_close_2 f_0_4123 f_0_4123 = true.
Proof. apply (is_close_reflexive_iff_finite f_0_4123). vm_compute. reflexivity. Defined.

(** X3.  Scores that are not finite.  A NaN on either side never passes.
    An infinite actual score passes against every finite expected score,
    [-inf] included: the difference and the tolerance are both [inf].  It
    fails only against NaN and against the same infinity. *)
Theorem non_finite_scores :
  (forall x, passes FNan x = false /\ passes x FNan = false) /\
  (forall s expected, is_finite expected = true -> passes expected (FInf s) = true) /\
  (forall s s', passes (FInf s) (FInf s') = negb (Bool.eqb s s')) /\
  (forall p s, py_float "nan" = Some FNan /\ py_float "-inf" = Some (FInf true) /\
               py_round FNan p = inr FNan /\ py_round (FInf s) p = inr (FInf s)).
Proof.
  split; [|split; [|split]].
  - intros x. split; [destruct x; reflexivity|].
    unfold passes, is_close_2. rewrite is_close_nan_r. destruct x; reflexivity.
  - intros s expected F. destruct expected as [| |se ne]; try discriminate.
    destruct s; reflexivity.
  - intros s s'. destruct s, s'; reflexivity.
  - intros p s. repeat split; reflexivity.
Qed.

Lemma tolerance_core (d m D T δ δ' : Z) :
  0 <= d -> 0 <= m < OVERFLOW ->
  (δ' = 1 \/ δ' * 2 ^ 52 <= d) -> 2 * d - δ' <= 2 * (1 * D) ->
  (δ = ONE \/ δ * 2 ^ 52 <= rel_tol_units * m) ->
  2 * (ONE * T) <= 2 * (rel_tol_units * m) + δ ->
  D <= T -> 2 ^ 28 * d <= m.
Proof. unfold rel_tol_units, ONE, OVERFLOW. intros. lia. Qed.

Lemma close_gives_bound se ne sx nx :
  0 <= ne < OVERFLOW -> 0 <= nx < OVERFLOW ->
  is_close_2 (FFin se ne) (FFin sx nx) = true ->
  2 ^ 28 * Z.abs (sval se ne - sval sx nx) <= Z.max ne nx.
Proof.
  intros Ve Vx H.
  assert (Hq : 0 < ONE) by (unfold ONE; lia).
  assert (Hp : 0 <= rel_tol_units * Z.max ne nx) by (unfold rel_tol_units; lia).
  apply (is_close_2_fin se ne sx nx Ve Vx) in H.
  destruct (round_mag_bounds _ _ Hp Hq) as (δ & Hδ & _ & Hu).
  destruct (round_mag_bounds (Z.abs (sval se ne - sval sx nx)) 1 ltac:(lia) ltac:(lia))
    as (δ' & Hδ' & Hl & _).
  eapply (tolerance_core _ (Z.max ne nx)); eauto; lia.
Qed.

Lemma close_when_equal se ne sx nx :
  0 <= ne < OVERFLOW -> 0 <= nx < OVERFLOW ->
  sval se ne = sval sx nx -> is_close_2 (FFin se ne) (FFin sx nx) = true.
Proof.
  intros Ve Vx E. apply (is_close_2_fin se ne sx nx Ve Vx).
  rewrite E, Z.sub_diag. simpl Z.abs. rewrite round_mag_small_exact by lia.
  apply round_mag_nonneg; [unfold rel_tol_units; lia | unfold ONE; lia].
Qed.

(** X4.  What the default tolerance amounts to.  With [d] the distance
    between two finite floats and [m] the larger of their magnitudes (both
    exact): [d <= m / 2^30] is enough to be close, and closeness gives
    [d <= m / 2^28]; so 0 is close to 0 only. *)
Theorem default_tolerance_bounds se ne sx nx :
  valid (FFin se ne) = true -> valid (FFin sx nx) = true ->
  let d := Z.abs (sval se ne - sval sx nx) in
  let m := Z.max ne nx in
  (2 ^ 30 * d <= m -> is_close_2 (FFin se ne) (FFin sx nx) = true) /\
  (is_close_2 (FFin se ne) (FFin sx nx) = true -> 2 ^ 28 * d <= m) /\
  (ne = 0 -> is_close_2 (FFin se ne) (FFin sx nx) = true -> nx = 0).
Proof.
  simpl valid. intros Ve Vx d m.
  apply representable_spec in Ve as [Ve _]. apply representable_spec in Vx as [Vx _].
  assert (Hd : 0 <= d) by (unfold d; lia).
  split; [|split].
  - intros H. apply (is_close_2_fin se ne sx nx Ve Vx). fold d m.
    apply round_mag_mono; try lia; try (unfold ONE; lia).
    + unfold rel_tol_units, m. lia.
    + revert H. unfold rel_tol_units, ONE. lia.
  - apply close_gives_bound; assumption.
  - intros -> H. apply close_gives_bound in H; [|assumption..].
    unfold sval in H. destruct se, sx; lia.
Qed.

Lemma default_tolerance_bounds_witness :
  is_close_2 (FFin false ONE) (FFin false (ONE + 2 ^ 1022)) = true /\
  2 ^ 28 * Z.abs (sval false ONE - sval false (ONE + 2 ^ 1022)) <= Z.max ONE (ONE + 2 ^ 1022).
Proof.
  destruct (default_tolerance_bounds false ONE false (ONE + 2 ^ 1022)) as (H & N & _);
    [vm_compute; reflexivity ..|].
  assert (C : is_close_2 (FFin false ONE) (FFin false (ONE + 2 ^ 1022)) = true)
    by (apply H; vm_compute; discriminate).
  split; [exact C | exact (N C)].
Defined.

(** ** The pass rule on rounded scores *)

Lemma pow10_bounds p : 0 <= p <= 323 -> 1 <= 10 ^ p <= 10 ^ 323.
Proof.
  intros Hp. split.
  - apply (Z.pow_le_mono_r 10 0 p); lia.
  - apply Z.pow_le_mono_r; lia.
Qed.

Lemma dec_mantissa_small n q :
  0 <= n -> 0 <= q -> n * q <= 2 ^ 26 * ONE -> 0 <= div_half_even (n * q) ONE <= 2 ^ 26.
Proof.
  intros Hn Hq0 Hb.
  assert (Hq : 0 < ONE) by (unfold ONE; lia).
  assert (H0 : 0 <= n * q) by (apply Z.mul_nonneg_nonneg; lia).
  pose proof (div_half_even_bounds (n * q) ONE H0 Hq) as [_ Hu].
  pose proof (div_half_even_nonneg (n * q) ONE H0 Hq).
  split; [assumption|].
  revert Hu Hb. generalize (div_half_even (n * q) ONE). generalize (n * q).
  unfold ONE. intros. lia.
Qed.

(** The decimal [D / 10^p], [D <= 2^26], rounds to a finite float. *)
Lemma small_decimal_rounds D q :
  0 <= D <= 2 ^ 26 -> 1 <= q <= 10 ^ 323 ->
  0 <= round_mag (D * ONE) q < OVERFLOW.
Proof.
  intros HD Hq.
  assert (H1 : 0 < ONE) by (unfold ONE; lia).
  assert (HX : 0 <= D * ONE) by lia.
  pose proof (round_mag_nonneg (D * ONE) q HX ltac:(lia)) as Hn.
  split; [exact Hn|].
  destruct (round_mag_bounds (D * ONE) q HX ltac:(lia)) as (δ & Hδ & _ & Hu).
  assert (HR : round_mag (D * ONE) q <= q * round_mag (D * ONE) q).
  { rewrite <- (Z.mul_1_l (round_mag (D * ONE) q)) at 1.
    apply Z.mul_le_mono_nonneg_r; lia. }
  revert Hn Hδ Hu HR. generalize (round_mag (D * ONE) q) as R.
  generalize (q * round_mag (D * ONE) q) as U. intros U R.
  revert HD Hq. unfold ONE, OVERFLOW. intros. lia.
Qed.

Lemma of_decimal_small s D p :
  0 <= p -> of_decimal s D (- p) = round_ne s (D * ONE) (10 ^ p).
Proof.
  intros Hp. unfold of_decimal.
  destruct (Z.leb_spec 0 (- p)).
  - assert (p = 0) as -> by lia. simpl. rewrite Z.mul_1_r. reflexivity.
  - rewrite Z.opp_involutive. reflexivity.
Qed.

Lemma py_round_in_range s n p :
  0 <= p <= 323 -> 0 <= n -> n * 10 ^ p <= 2 ^ 26 * ONE ->
  exists D,
    0 <= D <= 2 ^ 26 /\
    py_round (FFin s n) p = inr (FFin s (round_mag (D * ONE) (10 ^ p))) /\
    0 <= round_mag (D * ONE) (10 ^ p) < OVERFLOW.
Proof.
  intros Hp Hn Hb. pose proof (pow10_bounds p Hp) as Hq.
  exists (div_half_even (n * 10 ^ p) ONE).
  pose proof (dec_mantissa_small n (10 ^ p) Hn ltac:(lia) Hb) as HD.
  pose proof (small_decimal_rounds _ _ HD Hq) as HR.
  split; [exact HD|]. split; [|exact HR].
  unfold py_round, NDIGITS_MAX, NDIGITS_MIN.
  destruct (Z.ltb_spec 323 p); [lia|].
  destruct (Z.ltb_spec p (-308)); [lia|].
  destruct (Z.leb_spec 0 p); [|lia].
  rewrite of_decimal_small by lia. unfold round_ne, pack.
  destruct (Z.ltb_spec (round_mag (div_half_even (n * 10 ^ p) ONE * ONE) (10 ^ p)) OVERFLOW);
    [reflexivity | lia].
Qed.

Lemma rounded_core (q Dhi Dlo U V δh δl : Z) :
  1 <= q <= 10 ^ 323 -> 0 <= Dlo -> Dlo + 1 <= Dhi <= 2 ^ 26 ->
  (δh = q \/ δh * 2 ^ 52 <= Dhi * ONE) ->
  2 * (Dhi * ONE) - δh <= 2 * U <= 2 * (Dhi * ONE) + δh ->
  (δl = q \/ δl * 2 ^ 52 <= Dlo * ONE) ->
  2 * V <= 2 * (Dlo * ONE) + δl ->
  2 ^ 28 * (U - V) <= U -> False.
Proof. unfold ONE. intros. lia. Qed.

Lemma rounded_apart q Dhi Dlo :
  1 <= q <= 10 ^ 323 -> 0 <= Dlo -> 0 <= Dhi <= 2 ^ 26 ->
  round_mag (Dlo * ONE) q < round_mag (Dhi * ONE) q ->
  2 ^ 28 * (round_mag (Dhi * ONE) q - round_mag (Dlo * ONE) q) <= round_mag (Dhi * ONE) q ->
  False.
Proof.
  intros Hq Hlo Hhi Hlt H28.
  assert (H1 : 0 < ONE) by (unfold ONE; lia).
  assert (HD : Dlo + 1 <= Dhi).
  { destruct (Z.le_gt_cases Dhi Dlo) as [Hle|]; [|lia]. exfalso.
    assert (round_mag (Dhi * ONE) q <= round_mag (Dlo * ONE) q); [|lia].
    apply round_mag_mono; try lia. apply Z.mul_le_mono_nonneg_r; [lia|].
    apply Z.mul_le_mono_nonneg_r; lia. }
  destruct (round_mag_bounds (Dhi * ONE) q ltac:(lia) ltac:(lia)) as (δh & Hδh & Hh).
  destruct (round_mag_bounds (Dlo * ONE) q ltac:(lia) ltac:(lia)) as (δl & Hδl & _ & Hl).
  apply (Z.mul_le_mono_nonneg_l _ _ q) in H28; [|lia].
  rewrite Z.mul_assoc, (Z.mul_comm q (2 ^ 28)), <- Z.mul_assoc, Z.mul_sub_distr_l in H28.
  apply (rounded_core q Dhi Dlo (q * round_mag (Dhi * ONE) q) (q * round_mag (Dlo * ONE) q)
           δh δl); try assumption; lia.
Qed.

Lemma passes_small_decimals se De sa Da q :
  1 <= q <= 10 ^ 323 -> 0 <= De <= 2 ^ 26 -> 0 <= Da <= 2 ^ 26 ->
  let e := FFin se (round_mag (De * ONE) q) in
  let a := FFin sa (round_mag (Da * ONE) q) in
  passes e a = fle e a /\ (is_close_2 e a = true <-> fcompare e a = Some Eq).
Proof.
  intros Hq HDe HDa.
  pose proof (small_decimal_rounds _ _ HDe Hq) as HRe.
  pose proof (small_decimal_rounds _ _ HDa Hq) as HRa.
  set (Re := round_mag (De * ONE) q) in *.
  set (Ra := round_mag (Da * ONE) q) in *.
  cbv zeta.
  assert (Far : is_close_2 (FFin se Re) (FFin sa Ra) = true -> sval se Re = sval sa Ra).
  { intros C. apply close_gives_bound in C; [|assumption..].
    destruct (Z.eq_dec (sval se Re) (sval sa Ra)) as [|NE]; [assumption|]. exfalso.
    destruct se, sa; unfold sval in *.
    - destruct (Z.lt_total Re Ra) as [L|[L|L]]; [|lia|].
      + apply (rounded_apart q Da De); try lia.
      + apply (rounded_apart q De Da); try lia.
    - lia.
    - lia.
    - destruct (Z.lt_total Re Ra) as [L|[L|L]]; [|lia|].
      + apply (rounded_apart q Da De); try lia.
      + apply (rounded_apart q De Da); try lia. }
  assert (Eqv : is_close_2 (FFin se Re) (FFin sa Ra) = true
                <-> fcompare (FFin se Re) (FFin sa Ra) = Some Eq).
  { unfold fcompare. split.
    - intros C. rewrite (Far C), Z.compare_refl. reflexivity.
    - intros [= C]. apply Z.compare_eq in C. apply close_when_equal; assumption. }
  split; [|exact Eqv].
  unfold passes, fle, fgt. unfold fcompare at 1 2.
  rewrite (Z.compare_antisym (sval se Re) (sval sa Ra)).
  destruct (Z.compare_spec (sval se Re) (sval sa Ra)) as [E|L|G]; simpl.
  - rewrite orb_false_r. apply close_when_equal; assumption.
  - apply orb_true_r.
  - rewrite orb_false_r. destruct (is_close_2 _ _) eqn:C; [|reflexivity].
    specialize (Far eq_refl). lia.
Qed.

(** X5.  On rounded scores the pass rule is [actual >= expected].  When
    the expected and the actual score have been rounded to the same number
    [p] of decimals (0 to 323) and are not large (at most [2^26] units of
    the last decimal), [is_close(expected, actual) or actual > expected]
    holds exactly when [expected <= actual]: two such scores are close
    only if they are equal, so that the tolerance never accepts an actual
    score below the expected one. *)
Theorem pass_rule_on_rounded_scores score parsed p expected actual :
  0 <= p <= 323 ->
  score_in_range score p = true -> score_in_range parsed p = true ->
  py_round score p = inr expected -> py_round parsed p = inr actual ->
  passes expected actual = fle expected actual /\
  (is_close_2 expected actual = true <-> fcompare expected actual = Some Eq).
Proof.
  intros Hp Rs Rp He Ha. pose proof (pow10_bounds p Hp) as Hq.
  destruct score as [| |se ns]; try discriminate.
  destruct parsed as [| |sa na]; try discriminate.
  simpl in Rs, Rp.
  apply andb_true_iff in Rs as [Rs1 Rs2]. apply andb_true_iff in Rp as [Rp1 Rp2].
  apply Z.leb_le in Rs1, Rs2, Rp1, Rp2.
  destruct (py_round_in_range se ns p Hp Rs1 Rs2) as (De & HDe & Ee & HRe).
  destruct (py_round_in_range sa na p Hp Rp1 Rp2) as (Da & HDa & Ea & HRa).
  rewrite Ee in He. rewrite Ea in Ha. injection He as <-. injection Ha as <-.
  apply (passes_small_decimals se De sa Da (10 ^ p)); assumption.
Qed.

Lemma pass_rule_on_rounded_scores_witness :
  passes f_0_4123 (of_decimal false 4122 (-4)) = fle f_0_4123 (of_decimal false 4122 (-4)) /\
  (is_close_2 f_0_4123 (of_decimal false 4122 (-4)) = true
   <-> fcompare f_0_4123 (of_decimal false 4122 (-4)) = Some Eq).
Proof.
  apply (pass_rule_on_rounded_scores f_0_4123 (of_decimal false 41224 (-5)) 4
           f_0_4123 (of_decimal false 4122 (-4)));
    [lia | vm_compute; reflexivity ..].
Defined.

(** ** Scores written as decimals *)

Lemma nearest_multiple x D :
  2 * Z.abs (x - D * ONE) < ONE -> 0 <= x -> div_half_even x ONE = D.
Proof.
  intros H Hx. assert (Hq : 0 < ONE) by (unfold ONE; lia).
  destruct (div_half_even_cases x ONE Hx Hq) as (m & r & E & Hr & Hm & C).
  revert H E Hr C. generalize (div_half_even x ONE). intros z H E Hr C. subst x.
  destruct C as [[C ->]|[[C ->]|[(C & _ & ->)|(C & _ & ->)]]];
    revert H Hr C; unfold ONE; intros; lia.
Qed.

Lemma distinct_core (q Dhi Dlo U V δh δl : Z) :
  1 <= q <= 10 ^ 323 -> 0 <= Dlo -> Dlo + 1 <= Dhi <= 2 ^ 26 ->
  (δh = q \/ δh * 2 ^ 52 <= Dhi * ONE) ->
  2 * (Dhi * ONE) - δh <= 2 * U ->
  (δl = q \/ δl * 2 ^ 52 <= Dlo * ONE) ->
  2 * V <= 2 * (Dlo * ONE) + δl ->
  V < U.
Proof. unfold ONE. intros. lia. Qed.

Lemma rounded_strictly_mono q Dlo Dhi :
  1 <= q <= 10 ^ 323 -> 0 <= Dlo -> Dlo + 1 <= Dhi <= 2 ^ 26 ->
  round_mag (Dlo * ONE) q < round_mag (Dhi * ONE) q.
Proof.
  intros Hq Hlo Hhi. assert (H1 : 0 < ONE) by (unfold ONE; lia).
  assert (Xh : 0 <= Dhi * ONE) by (apply Z.mul_nonneg_nonneg; lia).
  assert (Xl : 0 <= Dlo * ONE) by (apply Z.mul_nonneg_nonneg; lia).
  destruct (round_mag_bounds (Dhi * ONE) q Xh ltac:(lia)) as (δh & Hδh & Hh & _).
  destruct (round_mag_bounds (Dlo * ONE) q Xl ltac:(lia)) as (δl & Hδl & _ & Hl).
  pose proof (distinct_core q Dhi Dlo _ _ δh δl Hq Hlo Hhi Hδh Hh Hδl Hl) as H.
  apply Z.mul_lt_mono_pos_l in H; lia.
Qed.

Lemma round_trip_core (q D U δ : Z) :
  1 <= q <= 10 ^ 323 -> 0 <= D <= 2 ^ 26 ->
  (δ = q \/ δ * 2 ^ 52 <= D * ONE) ->
  2 * (D * ONE) - δ <= 2 * U <= 2 * (D * ONE) + δ ->
  2 * Z.abs (U - D * ONE) < ONE.
Proof. unfold ONE. intros. lia. Qed.

Lemma round_trip_mantissa q D :
  1 <= q <= 10 ^ 323 -> 0 <= D <= 2 ^ 26 ->
  div_half_even (round_mag (D * ONE) q * q) ONE = D.
Proof.
  intros Hq HD. assert (H1 : 0 < ONE) by (unfold ONE; lia).
  assert (HX : 0 <= D * ONE) by (apply Z.mul_nonneg_nonneg; lia).
  destruct (round_mag_bounds (D * ONE) q HX ltac:(lia)) as (δ & Hδ & Hb).
  pose proof (round_mag_nonneg (D * ONE) q HX ltac:(lia)).
  apply nearest_multiple.
  - rewrite (Z.mul_comm _ q). eapply round_trip_core; eauto.
  - apply Z.mul_nonneg_nonneg; lia.
Qed.

Lemma py_round_decimal s D p :
  0 <= p <= 323 -> 0 <= D <= 2 ^ 26 ->
  of_decimal s D (- p) = FFin s (round_mag (D * ONE) (10 ^ p)) /\
  py_round (of_decimal s D (- p)) p = inr (of_decimal s D (- p)).
Proof.
  intros Hp HD. pose proof (pow10_bounds p Hp) as Hq.
  pose proof (small_decimal_rounds _ _ HD Hq) as HR.
  assert (E : of_decimal s D (- p) = FFin s (round_mag (D * ONE) (10 ^ p))).
  { rewrite of_decimal_small by lia. unfold round_ne, pack.
    destruct (Z.ltb_spec (round_mag (D * ONE) (10 ^ p)) OVERFLOW); [reflexivity | lia]. }
  split; [exact E|]. rewrite E at 1.
  unfold py_round, NDIGITS_MAX, NDIGITS_MIN.
  destruct (Z.ltb_spec 323 p); [lia|].
  destruct (Z.ltb_spec p (-308)); [lia|].
  destruct (Z.leb_spec 0 p); [|lia].
  rewrite round_trip_mantissa by assumption.
  rewrite E. reflexivity.
Qed.

Lemma passes_decimals De Da p :
  0 <= p <= 323 -> 0 <= De <= 2 ^ 26 -> 0 <= Da <= 2 ^ 26 ->
  passes (of_decimal false De (- p)) (of_decimal false Da (- p)) = (De <=? Da).
Proof.
  intros Hp HDe HDa. pose proof (pow10_bounds p Hp) as Hq.
  destruct (py_round_decimal false De p Hp HDe) as (-> & _).
  destruct (py_round_decimal false Da p Hp HDa) as (-> & _).
  destruct (passes_small_decimals false De false Da (10 ^ p) Hq HDe HDa) as (-> & _).
  assert (H1 : 0 < ONE) by (unfold ONE; lia).
  unfold fle, fcompare, sval.
  destruct (Z.leb_spec De Da) as [Hle|Hgt].
  - assert (round_mag (De * ONE) (10 ^ p) <= round_mag (Da * ONE) (10 ^ p)).
    { apply round_mag_mono;
        [apply Z.mul_nonneg_nonneg; lia | lia | apply Z.mul_nonneg_nonneg; lia | lia |].
      apply Z.mul_le_mono_nonneg_r; [lia|]. apply Z.mul_le_mono_nonneg_r; lia. }
    destruct (Z.compare_spec (round_mag (De * ONE) (10 ^ p)) (round_mag (Da * ONE) (10 ^ p)));
      try reflexivity; lia.
  - pose proof (rounded_strictly_mono (10 ^ p) Da De Hq ltac:(lia) ltac:(lia)).
    destruct (Z.compare_spec (round_mag (De * ONE) (10 ^ p)) (round_mag (Da * ONE) (10 ^ p)));
      try reflexivity; lia.
Qed.

(** X6.  Scores written as decimals are compared as written.  Take two
    non-negative decimals with [p] digits after the point, [De / 10^p]
    expected and [Da / 10^p] actual, of at most [2^26] units, and the
    floats nearest to them (what the configuration and [float()] give).
    Rounding to [p] decimals leaves both floats unchanged, and the verdict
    is OK exactly when [De <= Da]. *)
Theorem decimal_scores_are_compared_as_written De Da p :
  0 <= p <= 323 -> 0 <= De <= 2 ^ 26 -> 0 <= Da <= 2 ^ 26 ->
  let expected := of_decimal false De (- p) in
  let actual := of_decimal false Da (- p) in
  py_round expected p = inr expected /\
  py_round actual p = inr actual /\
  (passes expected actual = true <-> De <= Da).
Proof.
  intros Hp HDe HDa. cbv zeta.
  split; [apply py_round_decimal; assumption|].
  split; [apply py_round_decimal; assumption|].
  rewrite (passes_decimals De Da p Hp HDe HDa). apply Z.leb_le.
Qed.

Lemma decimal_scores_are_compared_as_written_witness :
  py_round f_0_4123 4 = inr f_0_4123 /\
  py_round (of_decimal false 4122 (-4)) 4 = inr (of_decimal false 4122 (-4)) /\
  (passes f_0_4123 (of_decimal false 4122 (-4)) = true <-> 4123 <= 4122).
Proof.
  apply (decimal_scores_are_compared_as_written 4123 4122 4); lia.
Defined.

(** ** Reading a decimal *)

Lemma digit_cases d : 0 <= d <= 9 ->
  d = 0 \/ d = 1 \/ d = 2 \/ d = 3 \/ d = 4 \/ d = 5 \/ d = 6 \/ d = 7 \/ d = 8 \/ d = 9.
Proof. lia. Qed.

Lemma digit_val_char d : 0 <= d <= 9 -> digit_val (digit_char d) = Some d.
Proof.
  intros H. destruct (digit_cases d H) as [-> | [-> | [-> | [-> | [-> | [-> | [-> | [-> | [-> | ->]]]]]]]]];
    reflexivity.
Qed.

Lemma plain_facts c :
  plain c ->
  is_space c = false /\ Ascii.eqb c "_" = false /\
  Ascii.eqb c "-" = false /\ Ascii.eqb c "+" = false /\
  Ascii.eqb (lower c) "i" = false /\ Ascii.eqb (lower c) "n" = false.
Proof.
  intros [-> | (d & H & ->)]; [repeat split; reflexivity|].
  destruct (digit_cases d H) as [-> | [-> | [-> | [-> | [-> | [-> | [-> | [-> | [-> | ->]]]]]]]]];
    repeat split; reflexivity.
Qed.

Lemma drop_underscores_plain l :
  Forall plain l ->
  forall prev, match prev with Some p => Ascii.eqb p "_" = false | None => True end ->
  drop_underscores prev l = Some l.
Proof.
  induction 1 as [|c l Hc _ IH]; intros prev Hp; simpl.
  - destruct prev as [p|]; [|reflexivity].
    destruct (Ascii.eqb_spec p "_"); [discriminate|].
    destruct p as [[] [] [] [] [] [] [] []]; try reflexivity. congruence.
  - destruct (plain_facts c Hc) as (_ & Hu & _). rewrite Hu.
    rewrite (IH (Some c) Hu).
    destruct prev as [p|]; [|reflexivity].
    destruct (Ascii.eqb_spec p "_"); [discriminate|].
    destruct p as [[] [] [] [] [] [] [] []]; try reflexivity. congruence.
Qed.

Lemma lstrip_plain c l : plain c -> lstrip (c :: l) = c :: l.
Proof. intros Hc. simpl. destruct (plain_facts c Hc) as (-> & _). reflexivity. Qed.

Lemma strip_plain l : Forall plain l -> rev (lstrip (rev (lstrip l))) = l.
Proof.
  intros H. destruct l as [|c l]; [reflexivity|].
  rewrite lstrip_plain by (inversion H; assumption).
  destruct (rev (c :: l)) as [|x r] eqn:E.
  - apply (f_equal (@rev ascii)) in E. rewrite rev_involutive in E. discriminate.
  - assert (Hx : plain x).
    { rewrite Forall_forall in H. apply H. apply in_rev. rewrite E. left. reflexivity. }
    rewrite lstrip_plain by exact Hx. rewrite <- E. apply rev_involutive.
Qed.

Lemma take_sign_plain c l : plain c -> take_sign (c :: l) = (false, c :: l).
Proof.
  intros Hc. destruct (plain_facts c Hc) as (_ & _ & Hm & Hp & _).
  unfold take_sign.
  destruct c as [[] [] [] [] [] [] [] []]; try reflexivity; discriminate.
Qed.

Lemma not_a_word c l :
  plain c ->
  String.eqb (lower_string (c :: l)) "inf" = false /\
  String.eqb (lower_string (c :: l)) "infinity" = false /\
  String.eqb (lower_string (c :: l)) "nan" = false.
Proof.
  intros Hc. destruct (plain_facts c Hc) as (_ & _ & _ & _ & Hi & Hn).
  unfold lower_string. simpl. rewrite Hi, Hn. repeat split; reflexivity.
Qed.

Lemma take_digits_digits ds :
  Forall (fun d => 0 <= d <= 9) ds ->
  forall acc cnt rest,
    take_digits acc cnt (map digit_char ds ++ rest)
    = take_digits (fold_left (fun a d => 10 * a + d) ds acc)
        (cnt + Z.of_nat (List.length ds)) rest.
Proof.
  induction 1 as [|d ds Hd _ IH]; intros acc cnt rest.
  - simpl. rewrite Z.add_0_r. reflexivity.
  - cbn [map app take_digits]. rewrite (digit_val_char d Hd), IH.
    cbn [fold_left List.length]. f_equal. lia.
Qed.

Lemma digits_value_bounds ds :
  Forall (fun d => 0 <= d <= 9) ds ->
  0 <= digits_value ds < 10 ^ Z.of_nat (List.length ds).
Proof.
  unfold digits_value. intros H.
  assert (G : forall acc n, 0 <= acc < 10 ^ n -> 0 <= n ->
            0 <= fold_left (fun a d => 10 * a + d) ds acc < 10 ^ (n + Z.of_nat (List.length ds))).
  { induction H as [|d ds Hd _ IH]; intros acc n Hacc Hn.
    - simpl. rewrite Z.add_0_r. exact Hacc.
    - cbn [fold_left List.length]. rewrite Nat2Z.inj_succ.
      replace (n + Z.succ (Z.of_nat (List.length ds))) with ((n + 1) + Z.of_nat (List.length ds)) by lia.
      apply IH; [|lia]. rewrite Z.pow_add_r by lia. change (10 ^ 1) with 10. lia. }
  apply (G 0 0); [simpl; lia | lia].
Qed.

Lemma plain_digits ds : Forall (fun d => 0 <= d <= 9) ds -> Forall plain (map digit_char ds).
Proof.
  intros H. apply Forall_map. eapply Forall_impl; [|exact H].
  intros d Hd. right. exists d. split; [exact Hd | reflexivity].
Qed.

Lemma py_float_decimal ip fp :
  Forall (fun d => 0 <= d <= 9) ip -> Forall (fun d => 0 <= d <= 9) fp ->
  ip ++ fp <> [] ->
  py_float (decimal_text ip fp)
  = Some (of_decimal false (digits_value (ip ++ fp)) (- Z.of_nat (List.length fp))).
Proof.
  intros Hi Hf Hne. unfold py_float, decimal_text.
  rewrite list_ascii_of_string_of_list_ascii.
  set (l := map digit_char ip ++ "."%char :: map digit_char fp).
  assert (Hl : Forall plain l).
  { apply Forall_app. split; [apply plain_digits; exact Hi|].
    constructor; [left; reflexivity | apply plain_digits; exact Hf]. }
  rewrite (drop_underscores_plain l Hl None I).
  rewrite (strip_plain l Hl).
  assert (Hc : exists c l', l = c :: l' /\ plain c).
  { destruct l as [|c l'] eqn:E.
    - destruct ip; discriminate.
    - exists c, l'. split; [reflexivity|]. inversion Hl; assumption. }
  destruct Hc as (c & l' & El & Hc). rewrite El.
  rewrite (take_sign_plain c l' Hc).
  destruct (not_a_word c l' Hc) as (-> & -> & ->). cbn [orb].
  rewrite <- El. unfold parse_number, l.
  rewrite (take_digits_digits ip Hi 0 0).
  cbn [take_digits]. change (digit_val "."%char) with (@None Z). cbv iota.
  rewrite <- (app_nil_r (map digit_char fp)).
  rewrite (take_digits_digits fp Hf _ 0). cbn [take_digits].
  assert (Hcnt : (0 <? 0 + Z.of_nat (List.length ip) + (0 + Z.of_nat (List.length fp))) = true).
  { apply Z.ltb_lt. destruct ip, fp; simpl in *; try lia. congruence. }
  rewrite Hcnt. cbn [parse_exponent]. unfold digits_value. rewrite fold_left_app.
  reflexivity.
Qed.

(** X7.  [float()] reads a plain decimal as the float nearest to it.  For
    a text made of digits, a point and digits (at least one digit in
    all), the result is the correctly rounded value of the integer that
    all the digits write, scaled by ten to minus the number of digits
    after the point. *)
Theorem float_of_decimal_text ip fp :
  Forall (fun d => 0 <= d <= 9) ip -> Forall (fun d => 0 <= d <= 9) fp ->
  ip ++ fp <> [] ->
  py_float (decimal_text ip fp)
  = Some (of_decimal false (digits_value (ip ++ fp)) (- Z.of_nat (List.length fp))) /\
  0 <= digits_value (ip ++ fp) < 10 ^ Z.of_nat (List.length (ip ++ fp)).
Proof.
  intros Hi Hf Hne. split; [apply py_float_decimal; assumption|].
  apply digits_value_bounds. apply Forall_app. split; assumption.
Qed.

Lemma float_of_decimal_text_witness :
  py_float "0.4123" = Some f_0_4123.
Proof.
  refine (proj1 (float_of_decimal_text [0] [4; 1; 2; 3] _ _ _)).
  - repeat constructor; lia.
  - repeat constructor; lia.
  - discriminate.
Defined.

(** ** The verdict on scores written as decimals *)

(** X8.  The verdict in terms of what is written.  Let the configuration
    give the expected score of the triple as the decimal [De / 10^p] and
    the evaluator print, in the field that is read, the digits [ip], a
    point and [p] digits [fp], both numbers of at most [2^26] units, with
    [p] the precision of the metric.  Then the comparison logs one
    verdict, OK exactly when [De] is at most the number that the digits
    write, and records the printed score; it raises nothing. *)
Theorem verdict_on_written_decimals method i topic metric st out tr
  fields ip fp all_results scores De name :
  let p := mt_metric_precision metric in
  let Da := digits_value (ip ++ fp) in
  let expected := of_decimal false De (- p) in
  let actual := of_decimal false Da (- p) in
  py_split (strip out) (mt_separator metric) = inr fields ->
  py_index fields (mt_parse_index metric) = inr (decimal_text ip fp) ->
  Forall (fun d => 0 <= d <= 9) ip -> Forall (fun d => 0 <= d <= 9) fp ->
  ip ++ fp <> [] -> Z.of_nat (List.length fp) = p -> p <= 323 ->
  m_results method = Some all_results ->
  dict_get all_results (mt_metric metric) = Some scores ->
  py_index scores (Z.of_nat i) = inr expected ->
  0 <= De <= 2 ^ 26 -> Da <= 2 ^ 26 ->
  m_name method = Some name ->
  compare_scores method i topic metric st out tr
  = (tr ++ [verdict (De <=? Da) expected actual (mt_metric metric) name (t_id topic)],
     inr {| failures := if De <=? Da then failures st else true;
            results := record_result (results st) name (mt_metric metric) actual |}).
Proof.
  intros p Da expected actual. subst p Da expected actual.
  intros Hs Hx Hi Hf Hne Hlen Hp Hr Hm Hsc HDe HDa Hn.
  set (p := mt_metric_precision metric) in *.
  set (Da := digits_value (ip ++ fp)) in *.
  assert (Hp0 : 0 <= p <= 323) by lia.
  assert (HDa0 : 0 <= Da <= 2 ^ 26).
  { split; [|exact HDa]. apply digits_value_bounds. apply Forall_app. split; assumption. }
  unfold compare_scores, bind, lift, item, ret.
  rewrite Hs, Hx, Hr, Hm, Hsc. fold p.
  rewrite (proj2 (py_round_decimal false De p Hp0 HDe)).
  rewrite (py_float_decimal ip fp Hi Hf Hne), Hlen. fold Da.
  rewrite (proj2 (py_round_decimal false Da p Hp0 HDa0)).
  rewrite Hn. rewrite (passes_decimals De Da p Hp0 HDe HDa0).
  unfold verdict. destruct (De <=? Da); reflexivity.
Qed.

Lemma verdict_on_written_decimals_witness :
  compare_scores rrf_method 0 dl19 ndcg empty_state
    (String.append "ndcg_cut_10" (String.append TAB (String.append "all" (String.append TAB "0.4122")))) []
  = ([] ++ [verdict (4123 <=? digits_value ([0] ++ [4; 1; 2; 2]))
              (of_decimal false 4123 (- mt_metric_precision ndcg))
              (of_decimal false (digits_value ([0] ++ [4; 1; 2; 2])) (- mt_metric_precision ndcg))
              (mt_metric ndcg) "rrf" (t_id dl19)],
     inr {| failures := if 4123 <=? digits_value ([0] ++ [4; 1; 2; 2])
                        then failures empty_state else true;
            results := record_result (results empty_state) "rrf" (mt_metric ndcg)
                         (of_decimal false (digits_value ([0] ++ [4; 1; 2; 2]))
                            (- mt_metric_precision ndcg)) |}).
Proof.
  apply (verdict_on_written_decimals rrf_method 0 dl19 ndcg empty_state _ []
           ["ndcg_cut_10"; "all"; "0.4122"] [0] [4; 1; 2; 2]
           [("nDCG@10", [f_0_4123])] [f_0_4123] 4123 "rrf");
    try reflexivity; try (repeat constructor; lia); try discriminate.
Defined.

(** ** Loops *)

Lemma for_each_app {A S : Type} (body : A -> S -> M S) l1 l2 s tr :
  for_each body (l1 ++ l2) s tr = bind (for_each body l1 s) (for_each body l2) tr.
Proof.
  revert s tr. induction l1 as [|a l1 IH]; intros s tr; simpl; [reflexivity|].
  unfold bind. destruct (body a s tr) as [tr1 [e|s1]]; [reflexivity|].
  rewrite IH. reflexivity.
Qed.

(** A loop whose body leaves the state alone and appends known events. *)
Lemma for_each_const {A S : Type} (body : A -> S -> M S) (events : A -> list event) l :
  (forall a s tr, In a l -> body a s tr = (tr ++ events a, inr s)) ->
  forall s tr, for_each body l s tr = (tr ++ flat_map events l, inr s).
Proof.
  induction l as [|a l IH]; intros Hb s tr; simpl.
  - rewrite app_nil_r. reflexivity.
  - unfold bind. rewrite Hb by (left; reflexivity).
    rewrite IH by (intros; apply Hb; right; assumption).
    rewrite app_assoc. reflexivity.
Qed.

(** A loop whose body leaves the state alone. *)
Lemma for_each_keeps {A S : Type} (body : A -> S -> M S) (P : event -> Prop) l :
  (forall a s tr, In a l -> exists ev, body a s tr = (tr ++ ev, inr s) /\ Forall P ev) ->
  forall s tr, exists ev, for_each body l s tr = (tr ++ ev, inr s) /\ Forall P ev.
Proof.
  induction l as [|a l IH]; intros Hb s tr; simpl.
  - exists []. rewrite app_nil_r. split; [reflexivity | constructor].
  - destruct (Hb a s tr (or_introl eq_refl)) as (ev1 & E1 & F1).
    destruct (IH (fun a s tr H => Hb a s tr (or_intror H)) s (tr ++ ev1)) as (ev2 & E2 & F2).
    exists (ev1 ++ ev2). unfold bind. rewrite E1, E2, app_assoc.
    split; [reflexivity | apply Forall_app; split; assumption].
Qed.

(** The subprocesses of a loop that runs to its end. *)
Lemma for_each_spawns {A S : Type} (body : A -> S -> M S) (cmds : A -> list string) l :
  (forall a s tr tr' s', In a l -> body a s tr = (tr', inr s') ->
     exists ev, tr' = tr ++ ev /\ filter is_spawn ev = map Spawn (cmds a)) ->
  forall s tr tr' s', for_each body l s tr = (tr', inr s') ->
    exists ev, tr' = tr ++ ev /\ filter is_spawn ev = map Spawn (flat_map cmds l).
Proof.
  induction l as [|a l IH]; intros Hb s tr tr' s' H; simpl in H.
  - injection H as <- <-. exists []. rewrite app_nil_r. split; reflexivity.
  - unfold bind in H. destruct (body a s tr) as [tr1 [e|s1]] eqn:E; [discriminate|].
    destruct (Hb a s tr tr1 s1 (or_introl eq_refl) E) as (ev1 & -> & F1).
    destruct (IH (fun a s tr tr' s' Hin => Hb a s tr tr' s' (or_intror Hin)) _ _ _ _ H)
      as (ev2 & -> & F2).
    exists (ev1 ++ ev2). rewrite app_assoc. split; [reflexivity|].
    simpl. rewrite filter_app, map_app, F1, F2. reflexivity.
Qed.

(** The failure flag after a loop that runs to its end. *)
Lemma for_each_flag {A : Type} (body : A -> verify_state -> M verify_state) l :
  (forall a s tr tr' s', In a l -> body a s tr = (tr', inr s') ->
     exists ev, tr' = tr ++ ev /\ failures s' = failures s || existsb is_fail ev) ->
  forall s tr tr' s', for_each body l s tr = (tr', inr s') ->
    exists ev, tr' = tr ++ ev /\ failures s' = failures s || existsb is_fail ev.
Proof.
  induction l as [|a l IH]; intros Hb s tr tr' s' H; simpl in H.
  - injection H as <- <-. exists []. rewrite app_nil_r, orb_false_r. split; reflexivity.
  - unfold bind in H. destruct (body a s tr) as [tr1 [e|s1]] eqn:E; [discriminate|].
    destruct (Hb a s tr tr1 s1 (or_introl eq_refl) E) as (ev1 & -> & F1).
    destruct (IH (fun a s tr tr' s' Hin => Hb a s tr tr' s' (or_intror Hin)) _ _ _ _ H)
      as (ev2 & -> & F2).
    exists (ev1 ++ ev2). rewrite app_assoc. split; [reflexivity|].
    rewrite F2, F1, existsb_app, orb_assoc. reflexivity.
Qed.

(** ** One triple, whatever its outcome *)

(** A comparison that returns has logged one verdict and recorded the
    actual score. *)
Lemma compare_scores_returns method i topic metric st out tr tr' st' :
  compare_scores method i topic metric st out tr = (tr', inr st') ->
  exists expected actual name,
    m_name method = Some name /\
    tr' = tr ++ [verdict (passes expected actual) expected actual
                   (mt_metric metric) name (t_id topic)] /\
    st' = {| failures := if passes expected actual then failures st else true;
             results := record_result (results st) name (mt_metric metric) actual |}.
Proof.
  unfold compare_scores, bind, lift, item, ret, raise.
  destruct (py_split (strip out) (mt_separator metric)) as [e|fields]; [discriminate|].
  destruct (py_index fields (mt_parse_index metric)) as [e|eval_out]; [discriminate|].
  destruct (m_results method) as [all_results|]; [|discriminate].
  destruct (dict_get all_results (mt_metric metric)) as [scores|]; [|discriminate].
  destruct (py_index scores (Z.of_nat i)) as [e|score]; [discriminate|].
  destruct (py_round score (mt_metric_precision metric)) as [e|expected]; [discriminate|].
  destruct (py_float eval_out) as [parsed|]; [|discriminate].
  destruct (py_round parsed (mt_metric_precision metric)) as [e|actual]; [discriminate|].
  destruct (m_name method) as [name|]; [|discriminate].
  intros H. exists expected, actual, name. split; [reflexivity|].
  unfold verdict. destruct (passes expected actual);
    unfold logger_info, logger_error, emit in H; injection H as <- <-; split; reflexivity.
Qed.

(** The outcomes of [verify_triple] when it returns. *)
Lemma verify_triple_returns w method i topic metric st tr tr' st' :
  verify_triple w false method i topic metric st tr = (tr', inr st') ->
  let cmdline := eval_cmdline method topic metric in
  (st' = st /\
   (tr' = tr ++ [Spawn cmdline] \/
    exists e, tr' = tr ++ [Spawn cmdline; Log ERROR (MsgEvalFailed e)])) \/
  (exists expected actual name,
     m_name method = Some name /\
     tr' = tr ++ [Spawn cmdline;
                  verdict (passes expected actual) expected actual
                    (mt_metric metric) name (t_id topic)] /\
     st' = {| failures := if passes expected actual then failures st else true;
              results := record_result (results st) name (mt_metric metric) actual |}).
Proof.
  intros H cmdline. unfold verify_triple in H. fold (eval_cmdline method topic metric) in H.
  fold cmdline in H.
  destruct (result_line_spawns w cmdline tr) as (r & Hr).
  unfold bind at 1 in H. unfold try_except in H. rewrite Hr in H.
  destruct r as [e|[out|]].
  - destruct (is_exception e); [|discriminate].
    unfold bind, logger_error, emit, ret in H. injection H as <- <-.
    left. split; [reflexivity|]. right. exists e. rewrite <- app_assoc. reflexivity.
  - apply compare_scores_returns in H as (expected & actual & name & Hn & -> & ->).
    right. exists expected, actual, name. rewrite <- app_assoc. repeat split; [exact Hn|..]; reflexivity.
  - unfold ret in H. injection H as <- <-. left. split; [reflexivity|]. left. reflexivity.
Qed.

Lemma flat_map_enumerate {A B : Type} (f : A -> list B) (l : list A) :
  flat_map (fun it => f (snd it)) (enumerate l) = flat_map f l.
Proof.
  unfold enumerate. generalize 0%nat.
  induction l as [|a l IH]; intros start; simpl; [reflexivity|].
  rewrite IH. reflexivity.
Qed.

Lemma map_flat_map' {A B C : Type} (f : B -> C) (g : A -> list B) (l : list A) :
  flat_map (fun a => map f (g a)) l = map f (flat_map g l).
Proof.
  induction l as [|a l IH]; simpl; [reflexivity|]. rewrite IH, map_app. reflexivity.
Qed.

Lemma flat_map_singleton {A B : Type} (f : A -> B) (l : list A) :
  flat_map (fun a => [f a]) l = map f l.
Proof. induction l as [|a l IH]; simpl; [reflexivity|]. rewrite IH. reflexivity. Qed.

Lemma flat_map_ext_in {A B : Type} (f g : A -> list B) (l : list A) :
  (forall a, In a l -> f a = g a) -> flat_map f l = flat_map g l.
Proof.
  induction l as [|a l IH]; intros H; simpl; [reflexivity|].
  rewrite H by (left; reflexivity). rewrite IH by (intros; apply H; right; assumption).
  reflexivity.
Qed.

(** ** The verification in dry-run mode *)

Lemma verify_loops_dry w yd tr ms ts mts :
  methods yd = Some ms -> topics yd = Some ts -> metrics yd = Some mts ->
  verify_loops w yd true tr
  = (tr ++ map (fun line => Log INFO (MsgText line)) (eval_lines ms ts mts),
     inr {| failures := false; results := [] |}).
Proof.
  intros Hm Ht Hmt. unfold verify_loops. unfold bind at 1. rewrite Hm, item_some.
  cbv beta iota zeta. fold (verified_methods ms).
  rewrite (for_each_const _
    (fun method => map (fun line => Log INFO (MsgText line))
       (flat_map (fun topic_set => map (eval_cmdline method topic_set) mts) ts))).
  - unfold eval_lines. rewrite map_flat_map'. reflexivity.
  - intros method s t _. unfold bind at 1. rewrite Ht, item_some. cbv beta iota.
    rewrite (for_each_const _
      (fun it => map (fun line => Log INFO (MsgText line))
                   (map (eval_cmdline method (snd it)) mts))).
    + rewrite (flat_map_enumerate
                 (fun topic_set => map (fun line => Log INFO (MsgText line))
                                     (map (eval_cmdline method topic_set) mts))).
      rewrite map_flat_map'. reflexivity.
    + intros it s' t' _. unfold bind at 1. rewrite Hmt, item_some. cbv beta iota.
      rewrite (for_each_const _
        (fun metric => [Log INFO (MsgText (eval_cmdline method (snd it) metric))])).
      * rewrite flat_map_singleton, map_map. reflexivity.
      * intros metric s'' t'' _. reflexivity.
Qed.

(** X9.  In dry-run mode, with [methods], [topics] and [metrics] in the
    configuration, the verification logs the evaluation command line of
    every triple in the order of the loops (methods, topic sets, metrics)
    and nothing else between its header and its summary; it reads neither
    [results] nor any file, never raises, and always ends with the record
    that all tests passed. *)
Theorem dry_verification_trace w yd tr ms ts mts :
  methods yd = Some ms -> topics yd = Some ts -> metrics yd = Some mts ->
  evaluate_and_verify w yd true tr
  = (tr ++ [Log INFO MsgVerifying]
        ++ map (fun line => Log INFO (MsgText line)) (eval_lines ms ts mts)
        ++ [Log INFO MsgElapsed; Log INFO MsgAllPassed],
     inr tt).
Proof.
  intros Hm Ht Hmt. unfold evaluate_and_verify.
  unfold bind at 1. unfold logger_info at 1, emit.
  unfold bind at 1. rewrite (verify_loops_dry w yd _ ms ts mts Hm Ht Hmt).
  unfold bind, logger_info, emit. cbn [failures].
  rewrite <- !app_assoc. reflexivity.
Qed.

Lemma dry_verification_trace_witness :
  evaluate_and_verify (world_failing (config_of [rrf_method; normalize_method]))
    (config_of [rrf_method; normalize_method]) true []
  = ([Log INFO MsgVerifying;
      Log INFO (MsgText "bin/trec_eval -c -m ndcg_cut.10 tools/topics-and-qrels/qrels.dl19.txt runs/fused.rrf.txt");
      Log INFO (MsgText "bin/trec_eval -c -m ndcg_cut.10 tools/topics-and-qrels/qrels.dl19.txt runs/fused.norm.txt");
      Log INFO MsgElapsed; Log INFO MsgAllPassed], inr tt).
Proof.
  apply (dry_verification_trace (world_failing (config_of [rrf_method; normalize_method]))
           (config_of [rrf_method; normalize_method]) []
           [rrf_method; normalize_method] [dl19] [ndcg]); reflexivity.
Defined.

(** ** The summary of the verification *)

Lemma is_fail_verdict pass expected actual metric name topics :
  is_fail (verdict pass expected actual metric name topics) = negb pass.
Proof. destruct pass; reflexivity. Qed.

Lemma verify_triple_flag w dry method i topic metric st tr tr' st' :
  verify_triple w dry method i topic metric st tr = (tr', inr st') ->
  exists ev, tr' = tr ++ ev /\ failures st' = failures st || existsb is_fail ev.
Proof.
  destruct dry.
  - unfold verify_triple, bind, logger_info, emit, ret. intros [= <- <-].
    eexists. split; [reflexivity|]. simpl. rewrite orb_false_r. reflexivity.
  - intros H. apply verify_triple_returns in H.
    destruct H as [(-> & [-> | (e & ->)]) | (expected & actual & name & _ & -> & ->)];
      eexists; (split; [reflexivity|]); simpl; rewrite ?orb_false_r; try reflexivity.
    rewrite is_fail_verdict. destruct (passes expected actual); simpl;
      rewrite ?orb_false_r, ?orb_true_r; reflexivity.
Qed.

Lemma verify_loops_flag w yd dry tr tr' st :
  verify_loops w yd dry tr = (tr', inr st) ->
  exists ev, tr' = tr ++ ev /\ failures st = existsb is_fail ev.
Proof.
  unfold verify_loops. unfold bind at 1.
  destruct (methods yd) as [ms|]; [|discriminate]. rewrite item_some. cbv beta iota zeta.
  intros H. apply for_each_flag in H; [exact H|]. clear H.
  intros method s t t' s' _. unfold bind at 1.
  destruct (topics yd) as [ts|]; [|discriminate]. rewrite item_some. cbv beta iota.
  intros H. apply for_each_flag in H; [exact H|]. clear H.
  intros it s0 t0 t0' s0' _. unfold bind at 1.
  destruct (metrics yd) as [mts|]; [|discriminate]. rewrite item_some. cbv beta iota.
  intros H. apply for_each_flag in H; [exact H|]. clear H.
  intros metric s1 t1 t1' s1' _. apply verify_triple_flag.
Qed.

(** X10.  The summary agrees with the verdicts.  A verification that runs
    to its end has logged, between its header and the two closing
    records, the events of its triples; its last record says that some
    tests failed exactly when a FAIL verdict is among them, and that all
    tests passed otherwise. *)
Theorem summary_agrees_with_verdicts w yd dry tr tr' :
  evaluate_and_verify w yd dry tr = (tr', inr tt) ->
  exists ev,
    tr' = tr ++ [Log INFO MsgVerifying] ++ ev
             ++ [Log INFO MsgElapsed; summary (existsb is_fail ev)].
Proof.
  unfold evaluate_and_verify. unfold bind at 1. unfold logger_info at 1, emit.
  unfold bind at 1.
  destruct (verify_loops w yd dry (tr ++ [Log INFO MsgVerifying])) as [tr1 [e|st]] eqn:E;
    [discriminate|].
  apply verify_loops_flag in E as (ev & -> & F).
  unfold bind, logger_info, logger_error, emit. rewrite F. intros H. exists ev.
  unfold summary. destruct (existsb is_fail ev); injection H as <-;
    rewrite <- !app_assoc; reflexivity.
Qed.

Lemma summary_agrees_with_verdicts_witness :
  exists ev,
    fst (evaluate_and_verify (world_of (config_of [rrf_method]) (eval_output "0.3000"))
           (config_of [rrf_method]) false [])
    = [] ++ [Log INFO MsgVerifying] ++ ev
         ++ [Log INFO MsgElapsed; summary (existsb is_fail ev)].
Proof.
  apply (summary_agrees_with_verdicts
           (world_of (config_of [rrf_method]) (eval_output "0.3000"))
           (config_of [rrf_method]) false []).
  vm_compute. reflexivity.
Defined.

(** ** Evaluations that all fail *)

Lemma verify_triple_skipped w method i topic metric st tr :
  evaluation_failed (popen w (spawned tr) (eval_cmdline method topic metric)) ->
  exists ev, verify_triple w false method i topic metric st tr = (tr ++ ev, inr st) /\
             Forall skip_event ev.
Proof.
  intros H. destruct (result_line_failed _ _ _ H) as (e & He & Hr).
  exists [Spawn (eval_cmdline method topic metric); Log ERROR (MsgEvalFailed e)].
  split.
  - unfold verify_triple. fold (eval_cmdline method topic metric).
    unfold bind at 1. unfold try_except. rewrite Hr, He.
    unfold bind, logger_error, emit, ret. rewrite <- app_assoc. reflexivity.
  - constructor; [left; reflexivity|]. constructor; [|constructor].
    right. exists e. reflexivity.
Qed.

(** X11.  When every evaluation fails (it cannot be started, ends with a
    non-zero return code, or prints nothing that can be read), no triple
    gets a verdict, and the verification still ends with the record that
    all tests passed. *)
Theorem all_evaluations_failing_is_a_pass w yd tr ms ts mts :
  methods yd = Some ms -> topics yd = Some ts -> metrics yd = Some mts ->
  (forall n cmd, evaluation_failed (popen w n cmd)) ->
  exists ev,
    evaluate_and_verify w yd false tr
    = (tr ++ [Log INFO MsgVerifying] ++ ev ++ [Log INFO MsgElapsed; Log INFO MsgAllPassed],
       inr tt) /\
    Forall skip_event ev.
Proof.
  intros Hm Ht Hmt Hw.
  assert (L : forall t, exists ev,
             verify_loops w yd false t = (t ++ ev, inr {| failures := false; results := [] |})
             /\ Forall skip_event ev).
  { intros t. unfold verify_loops. unfold bind at 1. rewrite Hm, item_some.
    cbv beta iota zeta. apply for_each_keeps.
    intros method s t1 _. unfold bind at 1. rewrite Ht, item_some. cbv beta iota.
    apply for_each_keeps.
    intros it s' t2 _. unfold bind at 1. rewrite Hmt, item_some. cbv beta iota.
    apply for_each_keeps.
    intros metric s'' t3 _. apply verify_triple_skipped. apply Hw. }
  destruct (L (tr ++ [Log INFO MsgVerifying])) as (ev & E & F).
  exists ev. split; [|exact F].
  unfold evaluate_and_verify. unfold bind at 1. unfold logger_info at 1, emit.
  unfold bind at 1. rewrite E. unfold bind, logger_info, emit. cbn [failures].
  rewrite <- !app_assoc. reflexivity.
Qed.

Lemma all_evaluations_failing_is_a_pass_witness :
  exists ev,
    evaluate_and_verify (world_failing (config_of [rrf_method])) (config_of [rrf_method])
      false []
    = ([] ++ [Log INFO MsgVerifying] ++ ev ++ [Log INFO MsgElapsed; Log INFO MsgAllPassed],
       inr tt) /\
    Forall skip_event ev.
Proof.
  apply (all_evaluations_failing_is_a_pass (world_failing (config_of [rrf_method]))
           (config_of [rrf_method]) [] [rrf_method] [dl19] [ndcg]); try reflexivity.
  intros n cmd. right. left. exists 1, (Some ""). split; [reflexivity | discriminate].
Defined.

(** ** Running the fusion commands *)

Lemma all_strings_none l : In None l -> all_strings l = None.
Proof.
  induction l as [|[s|] l IH]; simpl; [intros [] | | reflexivity].
  intros [H|H]; [discriminate|]. rewrite IH by exact H. reflexivity.
Qed.

Lemma join_tokens_none l : In None l -> join_tokens l = inl TypeError.
Proof. intros H. unfold join_tokens. rewrite all_strings_none by exact H. reflexivity. Qed.

Lemma join_tokens_error l e : join_tokens l = inl e -> e = TypeError /\ In None l.
Proof.
  unfold join_tokens. destruct (all_strings l) eqn:E; [discriminate|].
  intros [= <-]. split; [reflexivity|].
  induction l as [|[s|] l IH]; simpl in *; [discriminate | | left; reflexivity].
  right. apply IH. destruct (all_strings l); [discriminate | reflexivity].
Qed.

Lemma bind_lift {A B : Type} (r : exn + A) (f : A -> M B) tr :
  bind (lift r) f tr = match r with inl e => (tr, inl e) | inr a => f a tr end.
Proof. unfold bind, lift. destruct r; reflexivity. Qed.

(** One command: it is announced and started; what it returns or raises
    is logged, and the loop goes on. *)
Lemma run_one_command w cmd tr :
  exists ev,
    (logger_info (MsgRunning cmd) ;;;
     try_except
       (return_code <- subprocess_call w cmd ;;
        if negb (return_code =? 0)
        then logger_error (MsgCommandFailed return_code cmd)
        else ret tt)
       (fun e => logger_error (MsgCommandError cmd e))) tr
    = (tr ++ Log INFO (MsgRunning cmd) :: Spawn cmd :: ev, inr tt) /\
    filter is_spawn ev = [] /\ forallb fusion_event ev = true.
Proof.
  unfold bind at 1. unfold logger_info at 1, emit.
  unfold try_except, bind, subprocess_call.
  destruct (call w (spawned (tr ++ [Log INFO (MsgRunning cmd)])) cmd) as [rc|].
  - destruct (negb (rc =? 0)).
    + exists [Log ERROR (MsgCommandFailed rc cmd)].
      unfold logger_error, emit. rewrite <- !app_assoc. repeat split; reflexivity.
    + exists []. unfold ret. rewrite <- !app_assoc. repeat split; reflexivity.
  - exists [Log ERROR (MsgCommandError cmd OSError)].
    simpl. unfold logger_error, emit. rewrite <- !app_assoc. repeat split; reflexivity.
Qed.

Lemma run_fusion_ok w cmds texts :
  joined cmds texts ->
  forall tr, exists ev,
    run_fusion_commands w cmds tr = (tr ++ ev, inr tt) /\
    filter is_spawn ev = map Spawn texts /\
    forallb fusion_event ev = true /\
    (forall text, In text texts -> In (Log INFO (MsgRunning text)) ev).
Proof.
  unfold run_fusion_commands.
  induction 1 as [|cmd text cmds texts Hj _ IH]; intros tr.
  - exists []. simpl. rewrite app_nil_r. repeat split. intros text [].
  - simpl. unfold bind at 1. rewrite bind_lift, Hj.
    destruct (run_one_command w text tr) as (ev1 & E1 & F1 & G1). rewrite E1.
    destruct (IH (tr ++ Log INFO (MsgRunning text) :: Spawn text :: ev1))
      as (ev2 & E2 & F2 & G2 & R2).
    exists ((Log INFO (MsgRunning text) :: Spawn text :: ev1) ++ ev2).
    rewrite E2, <- app_assoc. split; [reflexivity|]. split; [|split].
    + rewrite filter_app. simpl. rewrite F1, F2. reflexivity.
    + rewrite forallb_app. simpl. rewrite G1, G2. reflexivity.
    + intros t [<-|Ht]; [left; reflexivity|].
      apply in_or_app. right. apply R2. exact Ht.
Qed.

Lemma run_fusion_returns w cmds tr tr' :
  run_fusion_commands w cmds tr = (tr', inr tt) -> exists texts, joined cmds texts.
Proof.
  unfold run_fusion_commands. revert tr.
  induction cmds as [|cmd cmds IH]; intros tr H.
  - exists []. constructor.
  - simpl in H. unfold bind at 1 in H. rewrite bind_lift in H.
    destruct (join_tokens cmd) as [e|text] eqn:Hj; [discriminate|].
    destruct (run_one_command w text tr) as (ev1 & E1 & _). rewrite E1 in H.
    apply IH in H as (texts & Ht). exists (text :: texts). constructor; assumption.
Qed.

Lemma run_fusion_stops w (pre : list command) (cmd : command) (post : list command) texts :
  joined pre texts -> In None cmd ->
  forall tr, exists ev,
    run_fusion_commands w (pre ++ cmd :: post) tr = (tr ++ ev, inl TypeError) /\
    filter is_spawn ev = map Spawn texts /\ forallb fusion_event ev = true.
Proof.
  intros Hj Hn tr. destruct (run_fusion_ok w pre texts Hj tr) as (ev & E & F & G & _).
  exists ev. split; [|split; assumption].
  unfold run_fusion_commands in *. rewrite for_each_app. unfold bind at 1. rewrite E.
  simpl. unfold bind at 1. rewrite bind_lift.
  rewrite (join_tokens_none cmd Hn). reflexivity.
Qed.

(** X12.  When no token is missing, every fusion command is announced and
    started, in the order of the list, whatever the earlier ones did: a
    command that fails or cannot be started is logged and the next one is
    run.  [run_fusion_commands] then returns normally, and starts nothing
    else. *)
Theorem fusion_commands_all_run w cmds texts tr :
  joined cmds texts ->
  exists ev,
    run_fusion_commands w cmds tr = (tr ++ ev, inr tt) /\
    filter is_spawn ev = map Spawn texts /\
    forallb fusion_event ev = true /\
    (forall text, In text texts -> In (Log INFO (MsgRunning text)) ev).
Proof. intros H. apply run_fusion_ok. exact H. Qed.

Lemma fusion_commands_all_run_witness :
  exists ev,
    run_fusion_commands (world_fusion_failing (config_of [])) [[Some "a"; Some "b"]; [Some "c"]; [Some "d"]] []
    = ([] ++ ev, inr tt) /\
    filter is_spawn ev = map Spawn ["a b"; "c"; "d"] /\
    forallb fusion_event ev = true /\
    (forall text, In text ["a b"; "c"; "d"] -> In (Log INFO (MsgRunning text)) ev).
Proof.
  apply (fusion_commands_all_run (world_fusion_failing (config_of []))
           [[Some "a"; Some "b"]; [Some "c"]; [Some "d"]] ["a b"; "c"; "d"] []).
  repeat constructor.
Defined.

(** X13.  A command with a missing token ([None], the value of an absent
    [output]) stops [run_fusion_commands] with a [TypeError]: the commands
    before it have been started, it and the commands after it are not. *)
Theorem fusion_command_with_none_stops w (pre : list command) (cmd : command)
  (post : list command) texts tr :
  joined pre texts -> In None cmd ->
  exists ev,
    run_fusion_commands w (pre ++ cmd :: post) tr = (tr ++ ev, inl TypeError) /\
    filter is_spawn ev = map Spawn texts.
Proof.
  intros Hj Hn. destruct (run_fusion_stops w pre cmd post texts Hj Hn tr) as (ev & E & F & _).
  exists ev. split; assumption.
Qed.

Lemma fusion_command_with_none_stops_witness :
  exists ev,
    run_fusion_commands (world_of (config_of []) "")
      ([[Some "a"]] ++ [Some "b"; None] :: [[Some "c"]]) []
    = ([] ++ ev, inl TypeError) /\
    filter is_spawn ev = map Spawn ["a"].
Proof.
  apply (fusion_command_with_none_stops (world_of (config_of []) "")
           [[Some "a"]] [Some "b"; None] [[Some "c"]] ["a"] []).
  - repeat constructor.
  - right. left. reflexivity.
Defined.

(** ** The subprocesses of a run *)

Lemma verify_triple_spawn w method i topic metric st tr tr' st' :
  verify_triple w false method i topic metric st tr = (tr', inr st') ->
  exists ev, tr' = tr ++ ev /\
             filter is_spawn ev = map Spawn [eval_cmdline method topic metric].
Proof.
  intros H. apply verify_triple_returns in H.
  destruct H as [(_ & [-> | (e & ->)]) | (expected & actual & name & _ & -> & _)];
    eexists; (split; [reflexivity|]); try reflexivity.
  unfold verdict. destruct (passes expected actual); reflexivity.
Qed.

Lemma verify_loops_spawns w yd tr tr' st ms ts mts :
  methods yd = Some ms -> topics yd = Some ts -> metrics yd = Some mts ->
  verify_loops w yd false tr = (tr', inr st) ->
  exists ev, tr' = tr ++ ev /\ filter is_spawn ev = map Spawn (eval_lines ms ts mts).
Proof.
  intros Hm Ht Hmt. unfold verify_loops. unfold bind at 1. rewrite Hm, item_some.
  cbv beta iota zeta. fold (verified_methods ms). intros H.
  apply (for_each_spawns _
           (fun method => flat_map (fun topic_set => map (eval_cmdline method topic_set) mts) ts))
    in H; [exact H|]. clear H.
  intros method s t t' s' _. unfold bind at 1. rewrite Ht, item_some. cbv beta iota.
  intros H.
  apply (for_each_spawns _ (fun it => map (eval_cmdline method (snd it)) mts)) in H.
  { rewrite (flat_map_enumerate (fun topic_set => map (eval_cmdline method topic_set) mts)) in H.
    exact H. }
  clear H. intros it s0 t0 t0' s0' _. unfold bind at 1. rewrite Hmt, item_some.
  cbv beta iota. intros H.
  apply (for_each_spawns _ (fun metric => [eval_cmdline method (snd it) metric])) in H.
  { rewrite flat_map_singleton in H. exact H. }
  clear H. intros metric s1 t1 t1' s1' _. apply verify_triple_spawn.
Qed.

Lemma evaluate_and_verify_spawns w yd tr tr' ms ts mts :
  methods yd = Some ms -> topics yd = Some ts -> metrics yd = Some mts ->
  evaluate_and_verify w yd false tr = (tr', inr tt) ->
  exists ev, tr' = tr ++ ev /\ filter is_spawn ev = map Spawn (eval_lines ms ts mts).
Proof.
  intros Hm Ht Hmt. unfold evaluate_and_verify.
  unfold bind at 1. unfold logger_info at 1, emit. unfold bind at 1.
  destruct (verify_loops w yd false (tr ++ [Log INFO MsgVerifying])) as [tr1 [e|st]] eqn:E;
    [discriminate|].
  apply (verify_loops_spawns w yd _ _ _ ms ts mts Hm Ht Hmt) in E as (ev & -> & F).
  unfold bind, logger_info, logger_error, emit.
  destruct (failures st); intros [= <-];
    eexists; (split; [rewrite <- !app_assoc; reflexivity|]);
    rewrite !filter_app, F; simpl; rewrite app_nil_r; reflexivity.
Qed.

(** X14.  The subprocesses of a complete run.  A run that is not a dry run
    and reaches the end of the script has started the fusion commands, in
    the order of the configured methods, then one evaluation per triple,
    in the order of the loops, and nothing else. *)
Theorem complete_run_subprocesses w a yd ms rs files ts mts tr :
  dry_run a = false ->
  load_yaml w (config_path a) = Some yd ->
  methods yd = Some ms -> runs yd = Some rs -> files_of rs = Some files ->
  topics yd = Some ts -> metrics yd = Some mts ->
  run w a = (tr, inr tt) ->
  exists texts,
    joined (map (fusion_command (use_pyserini a) files) (fusion_methods ms)) texts /\
    filter is_spawn tr = map Spawn (texts ++ eval_lines ms ts mts).
Proof.
  intros Hd Hl Hm Hr Hf Ht Hmt. unfold run.
  rewrite (main_checked w a yd rs files [] Hl Hr Hf).
  destruct (find _ files); [discriminate|].
  unfold after_checks.
  rewrite (bind_ok _ _ [] ([] ++ [Log INFO (MsgUsing (use_pyserini a))]) tt) by reflexivity.
  rewrite (bind_ok _ _ _ _ _ (construct_ok yd (use_pyserini a) ms rs files _ Hm Hr Hf)).
  rewrite Hd. unfold bind at 1.
  set (tr2 := ([] ++ [Log INFO (MsgUsing (use_pyserini a))])
              ++ [Log INFO (MsgTesting (map m_name (fusion_methods ms)))]).
  destruct (run_fusion_commands w _ tr2) as [tr3 [e|[]]] eqn:E; [discriminate|].
  destruct (run_fusion_returns _ _ _ _ E) as (texts & Hj).
  destruct (run_fusion_ok w _ texts Hj tr2) as (ev & E' & F & _).
  rewrite E in E'. injection E' as ->.
  unfold bind at 1.
  destruct (evaluate_and_verify w yd false _) as [tr4 [e|[]]] eqn:E2; [discriminate|].
  apply (evaluate_and_verify_spawns w yd _ _ ms ts mts Hm Ht Hmt) in E2 as (ev2 & -> & F2).
  unfold logger_info, emit. intros [= <-]. exists texts. split; [exact Hj|].
  cbn [filter is_spawn]. rewrite !filter_app, F, F2, map_app. simpl. rewrite app_nil_r.
  reflexivity.
Qed.

Lemma complete_run_subprocesses_witness :
  exists texts,
    joined (map (fusion_command false ["runs/a.txt"; "runs/b.txt"]) (fusion_methods [rrf_method; normalize_method])) texts /\
    filter is_spawn (fst (run (world_of (config_of [rrf_method; normalize_method]) (eval_output "0.4123")) execute))
    = map Spawn (texts ++ eval_lines [rrf_method; normalize_method] [dl19] [ndcg]).
Proof.
  apply (complete_run_subprocesses
           (world_of (config_of [rrf_method; normalize_method]) (eval_output "0.4123")) execute
           (config_of [rrf_method; normalize_method]) [rrf_method; normalize_method] two_runs
           ["runs/a.txt"; "runs/b.txt"] [dl19] [ndcg]);
    [reflexivity .. | vm_compute; reflexivity].
Defined.

(** ** A method without [output] *)

Lemma fusion_command_none b files method :
  m_output method = None -> In None (fusion_command b files method).
Proof.
  intros Ho. unfold fusion_command. destruct b.
  - unfold pyserini_cmd. rewrite Ho. rewrite !in_app_iff. simpl. auto 10.
  - unfold anserini_command. rewrite Ho. simpl. auto 10.
Qed.

Lemma first_with_none (cmds : list command) :
  (exists cmd, In cmd cmds /\ In None cmd) ->
  exists pre cmd post texts,
    cmds = pre ++ cmd :: post /\ joined pre texts /\ In None cmd.
Proof.
  induction cmds as [|c cmds IH]; intros (cmd & Hin & Hn); [destruct Hin|].
  destruct (join_tokens c) as [e|text] eqn:Hj.
  - apply join_tokens_error in Hj as [_ Hc].
    exists [], c, cmds, []. repeat split; [constructor | exact Hc].
  - destruct Hin as [->|Hin].
    + rewrite (join_tokens_none cmd Hn) in Hj. discriminate.
    + destruct (IH (ex_intro _ cmd (conj Hin Hn))) as (pre & c' & post & texts & -> & Hp & Hc).
      exists (c :: pre), c', post, (text :: texts).
      repeat split; [constructor; assumption | exact Hc].
Qed.

Lemma forallb_not_in {A : Type} (p : A -> bool) (l : list A) (a : A) :
  forallb p l = true -> p a = false -> ~ In a l.
Proof.
  intros H Ha Hin. rewrite forallb_forall in H. rewrite (H a Hin) in Ha. discriminate.
Qed.

(** X15.  A method that gets a fusion command but has no [output] in the
    configuration ends the run with a [TypeError], exit status 1, in
    dry-run mode and outside it, before the verification starts. *)
Theorem missing_output_ends_the_run w a yd ms rs files :
  load_yaml w (config_path a) = Some yd ->
  methods yd = Some ms -> runs yd = Some rs -> files_of rs = Some files ->
  (forall f, In f files -> path_exists w f = true) ->
  (exists method, In method (fusion_methods ms) /\ m_output method = None) ->
  snd (run w a) = inl TypeError /\
  exit_status (snd (run w a)) = 1 /\
  ~ In (Log INFO MsgVerifying) (fst (run w a)).
Proof.
  intros Hl Hm Hr Hf Hall (method & Hin & Ho).
  assert (Hc : exists cmd, In cmd (map (fusion_command (use_pyserini a) files) (fusion_methods ms))
                           /\ In None cmd).
  { exists (fusion_command (use_pyserini a) files method).
    split; [apply in_map; exact Hin | apply fusion_command_none; exact Ho]. }
  assert (E : exists ev,
             run w a = ([Log INFO (MsgUsing (use_pyserini a));
                         Log INFO (MsgTesting (map m_name (fusion_methods ms)))] ++ ev,
                        inl TypeError) /\
             forallb fusion_event ev = true).
  { unfold run. rewrite (main_checked w a yd rs files [] Hl Hr Hf).
    rewrite (find_all_present (path_exists w) files Hall).
    unfold after_checks.
    rewrite (bind_ok _ _ [] ([] ++ [Log INFO (MsgUsing (use_pyserini a))]) tt) by reflexivity.
    rewrite (bind_ok _ _ _ _ _ (construct_ok yd (use_pyserini a) ms rs files _ Hm Hr Hf)).
    destruct (dry_run a).
    - exists []. unfold bind at 1. rewrite bind_lift. rewrite join_tokens_none.
      + split; reflexivity.
      + destruct Hc as (cmd & Hcin & Hn). apply in_concat. exists cmd. split; assumption.
    - destruct (first_with_none _ Hc) as (pre & cmd & post & texts & -> & Hp & Hn).
      destruct (run_fusion_stops w pre cmd post texts Hp Hn
                  (([] ++ [Log INFO (MsgUsing (use_pyserini a))])
                   ++ [Log INFO (MsgTesting (map m_name (fusion_methods ms)))]))
        as (ev & E & _ & G).
      exists ev. unfold bind at 1. rewrite E. split; [reflexivity | exact G]. }
  destruct E as (ev & -> & G). repeat split. simpl fst.
  intros [H|[H|H]]; try discriminate.
  exact (forallb_not_in fusion_event ev (Log INFO MsgVerifying) G eq_refl H).
Qed.

Lemma missing_output_ends_the_run_witness :
  snd (run (world_of (config_of [rrf_method; no_output_method]) "") execute) = inl TypeError /\
  exit_status (snd (run (world_of (config_of [rrf_method; no_output_method]) "") execute)) = 1 /\
  ~ In (Log INFO MsgVerifying)
       (fst (run (world_of (config_of [rrf_method; no_output_method]) "") execute)).
Proof.
  apply (missing_output_ends_the_run (world_of (config_of [rrf_method; no_output_method]) "")
           execute (config_of [rrf_method; no_output_method])
           [rrf_method; no_output_method] two_runs ["runs/a.txt"; "runs/b.txt"]);
    try reflexivity.
  exists no_output_method. split; [right; left; reflexivity | reflexivity].
Defined.

(** ** The check of the run files *)

Lemma check_run_files_app w rs1 rs2 tr :
  check_run_files w (rs1 ++ rs2) tr
  = bind (check_run_files w rs1) (fun _ => check_run_files w rs2) tr.
Proof.
  unfold check_run_files. rewrite for_each_app. unfold bind.
  destruct (for_each _ rs1 tt tr) as [tr1 [e|[]]]; reflexivity.
Qed.

(** X16.  The run files are checked in the order of the configuration, in
    dry-run mode too, and the check stops at the first one that does not
    exist: that file is the only thing logged, the exit status is 1, and
    the runs after it are not looked at (not even for their [file]). *)
Theorem first_missing_run_file_ends_the_run w a yd before present run_ missing after :
  load_yaml w (config_path a) = Some yd ->
  runs yd = Some (before ++ run_ :: after) ->
  files_of before = Some present ->
  (forall f, In f present -> path_exists w f = true) ->
  r_file run_ = Some missing -> path_exists w missing = false ->
  run w a = ([Log ERROR (MsgRunFileMissing missing)], inl (SystemExit 1)).
Proof.
  intros Hl Hr Hf Hall Hm He. unfold run. rewrite main_unfold.
  unfold bind at 1. rewrite Hl. simpl.
  unfold bind at 1. rewrite Hr. simpl.
  unfold bind at 1. rewrite check_run_files_app.
  unfold bind at 1. rewrite (check_run_files_spec w before present [] Hf).
  rewrite (find_all_present (path_exists w) present Hall).
  unfold check_run_files. simpl. unfold bind at 1. unfold bind at 1.
  rewrite Hm. simpl. rewrite He. reflexivity.
Qed.

Lemma first_missing_run_file_witness :
  run (world_without (config_of [rrf_method]) "runs/b.txt") dry_pyserini
  = ([Log ERROR (MsgRunFileMissing "runs/b.txt")], inl (SystemExit 1)).
Proof.
  apply (first_missing_run_file_ends_the_run
           (world_without (config_of [rrf_method]) "runs/b.txt") dry_pyserini
           (config_of [rrf_method]) [ {| r_file := Some "runs/a.txt" |} ] ["runs/a.txt"]
           {| r_file := Some "runs/b.txt" |} "runs/b.txt" []); try reflexivity.
  intros f [<-|[]]. reflexivity.
Defined.

(** ** The builder's log *)

(** X17.  The builder logs one record, the names of the methods it builds
    commands for, and only when the configuration has [methods]; these
    names are among [rrf], [average] and [interpolation], so that the
    default name [average] and the branch for [normalize] are never
    used. *)
Theorem builder_logs_the_tested_methods yd (b : bool) tr :
  fst (construct_fusion_commands yd b tr)
  = tr ++ match methods yd with
          | Some ms => [Log INFO (MsgTesting (map m_name (fusion_methods ms)))]
          | None => []
          end
  /\ (forall ms method, methods yd = Some ms -> In method (fusion_methods ms) ->
        m_name method = Some (get_or (m_name method) "average") /\
        In (get_or (m_name method) "average") fusion_supported_methods).
Proof.
  split.
  - destruct (methods yd) as [ms|] eqn:Hm.
    + destruct (fusion_methods ms) as [|m0 l0] eqn:Hfm.
      * rewrite (construct_nothing yd b ms tr Hm Hfm). reflexivity.
      * assert (Hne : fusion_methods ms <> []) by (rewrite Hfm; discriminate).
        rewrite <- Hfm.
        destruct (runs yd) as [rs|] eqn:Hr.
        -- destruct (files_of rs) as [files|] eqn:Hf.
           ++ rewrite (construct_ok yd b ms rs files tr Hm Hr Hf). reflexivity.
           ++ rewrite (construct_no_file yd b ms rs tr Hm Hne Hr Hf). reflexivity.
        -- rewrite (construct_no_runs yd b ms tr Hm Hne Hr). reflexivity.
    + rewrite (construct_no_methods yd b tr Hm). rewrite app_nil_r. reflexivity.
  - intros ms method _ Hin. apply fusion_methods_named in Hin as (n & -> & Hn).
    simpl. split; [reflexivity|].
    destruct Hn as [-> | [-> | ->]]; simpl; auto.
Qed.

(** ** The exceptions that leave the script *)

Lemma ensures_try_catch {A : Type} P R R' (m : M A) (handler : exn -> M A) :
  ensures P R' m -> (forall e, R' e -> is_exception e = true) ->
  (forall e, ensures P R (handler e)) -> ensures P R (try_except m handler).
Proof.
  intros Hm Hc Hh tr. unfold try_except.
  destruct (Hm tr) as (l & Htr & Hl & He).
  destruct (m tr) as [tr1 [e|a]] eqn:E; simpl in *; subst tr1.
  - rewrite (Hc e (He e eq_refl)).
    destruct (Hh e (tr ++ l)) as (l' & Htr' & Hl' & He').
    exists (l ++ l'). rewrite Htr', app_assoc. repeat split; [|exact He'].
    apply Forall_app; split; assumption.
  - exists l. repeat split; [assumption | discriminate].
Qed.

Lemma py_split_escapes s sep e : py_split s sep = inl e -> escapes e.
Proof. unfold py_split. destruct sep; intros [= <-]; reflexivity. Qed.

Lemma py_index_escapes {A : Type} (l : list A) i e : py_index l i = inl e -> escapes e.
Proof.
  unfold py_index.
  destruct (_ || _); [intros [= <-]; reflexivity|].
  destruct (nth_error _ _); [discriminate | intros [= <-]; reflexivity].
Qed.

Lemma py_round_escapes x nd e : py_round x nd = inl e -> escapes e.
Proof.
  unfold py_round. destruct x; try discriminate.
  destruct (_ <? _); [discriminate|]. destruct (_ <? _); [discriminate|].
  destruct (of_decimal _ _ _); try discriminate. intros [= <-]; reflexivity.
Qed.

Lemma join_tokens_escapes l e : join_tokens l = inl e -> escapes e.
Proof. intros H. apply join_tokens_error in H as [-> _]. reflexivity. Qed.

Lemma construct_fusion_commands_escapes yd b :
  ensures (fun _ => True) escapes (construct_fusion_commands yd b).
Proof.
  unfold construct_fusion_commands.
  apply ensures_bind; [apply ensures_item; reflexivity | intros ms].
  apply ensures_bind; [apply ensures_emit; exact I | intros _].
  apply ensures_for_each. intros m acc _. unfold add_fusion_command.
  apply ensures_bind; [apply ensures_item; reflexivity | intros rs].
  apply ensures_bind; [apply ensures_map_M; intros r; apply ensures_item; reflexivity | intros fs].
  destruct b; [|apply ensures_ret].
  apply ensures_bind; [|intros; apply ensures_ret].
  unfold pyserini_command.
  repeat match goal with |- context [if ?b then _ else _] => destruct b end;
    try apply ensures_ret.
  apply ensures_bind; [apply ensures_emit; exact I | intros; apply ensures_ret].
Qed.

Lemma run_fusion_commands_escapes w cmds :
  ensures (fun _ => True) escapes (run_fusion_commands w cmds).
Proof.
  unfold run_fusion_commands. apply ensures_for_each. intros cmd_list [] _.
  apply ensures_bind; [apply ensures_lift; apply join_tokens_escapes | intros cmd].
  apply ensures_bind; [apply ensures_emit; exact I | intros _].
  apply (ensures_try_catch _ _ is_exn).
  - apply ensures_bind; [apply subprocess_call_ensures | intros rc].
    destruct (negb _); [apply ensures_emit; exact I | apply ensures_ret].
  - auto.
  - intros e. apply ensures_emit. exact I.
Qed.

Lemma compare_scores_escapes method i topic metric st out :
  ensures (fun _ => True) escapes (compare_scores method i topic metric st out).
Proof.
  unfold compare_scores.
  apply ensures_bind; [apply ensures_lift; apply py_split_escapes | intros fields].
  apply ensures_bind; [apply ensures_lift; apply py_index_escapes | intros eval_out].
  apply ensures_bind; [apply ensures_item; reflexivity | intros all_results].
  apply ensures_bind; [apply ensures_item; reflexivity | intros scores].
  apply ensures_bind; [apply ensures_lift; apply py_index_escapes | intros score].
  apply ensures_bind; [apply ensures_lift; apply py_round_escapes | intros expected].
  apply ensures_bind.
  { destruct (py_float eval_out); [apply ensures_ret | apply ensures_raise; reflexivity]. }
  intros parsed.
  apply ensures_bind; [apply ensures_lift; apply py_round_escapes | intros actual].
  apply ensures_bind; [apply ensures_item; reflexivity | intros name].
  apply ensures_bind; [|intros; apply ensures_ret].
  destruct (passes expected actual);
    (apply ensures_bind; [apply ensures_emit; exact I | intros; apply ensures_ret]).
Qed.

Lemma evaluate_and_verify_escapes w yd dry :
  ensures (fun _ => True) escapes (evaluate_and_verify w yd dry).
Proof.
  unfold evaluate_and_verify.
  apply ensures_bind; [apply ensures_emit; exact I | intros _].
  apply ensures_bind.
  { unfold verify_loops.
    apply ensures_bind; [apply ensures_item; reflexivity | intros ms].
    apply ensures_for_each. intros method st _.
    apply ensures_bind; [apply ensures_item; reflexivity | intros ts].
    apply ensures_for_each. intros it st' _.
    apply ensures_bind; [apply ensures_item; reflexivity | intros mts].
    apply ensures_for_each. intros metric st'' _.
    unfold verify_triple. destruct dry.
    - apply ensures_bind; [apply ensures_emit; exact I | intros; apply ensures_ret].
    - apply ensures_bind.
      + apply (ensures_try_catch _ _ is_exn); [apply result_line_ensures | auto |].
        intros e. apply ensures_bind; [apply ensures_emit; exact I | intros; apply ensures_ret].
      + intros [out|]; [apply compare_scores_escapes | apply ensures_ret]. }
  intros st.
  apply ensures_bind; [apply ensures_emit; exact I | intros _].
  destruct (failures st); apply ensures_emit; exact I.
Qed.

Lemma main_escapes w a : ensures (fun _ => True) escapes (main w a).
Proof.
  rewrite main_unfold.
  apply ensures_bind.
  { destruct (load_yaml w (config_path a)); [apply ensures_ret|].
    apply ensures_bind; [apply ensures_emit; exact I | intros _].
    apply ensures_raise. reflexivity. }
  intros yd. apply ensures_bind; [apply ensures_item; reflexivity | intros rs].
  apply ensures_bind.
  { unfold check_run_files. apply ensures_for_each. intros r [] _.
    apply ensures_bind; [apply ensures_item; reflexivity | intros f].
    destruct (negb _); [|apply ensures_ret].
    apply ensures_bind; [apply ensures_emit; exact I | intros _].
    apply ensures_raise. reflexivity. }
  intros _. unfold after_checks.
  apply ensures_bind; [apply ensures_emit; exact I | intros _].
  apply ensures_bind; [apply construct_fusion_commands_escapes | intros cmds].
  apply ensures_bind.
  { destruct (dry_run a).
    - apply ensures_bind; [apply ensures_lift; apply join_tokens_escapes | intros text].
      apply ensures_emit; exact I.
    - apply run_fusion_commands_escapes. }
  intros _.
  apply ensures_bind; [apply evaluate_and_verify_escapes | intros _].
  apply ensures_emit; exact I.
Qed.

(** X18.  No failure of a subprocess ends the run.  Whatever the fusion
    and evaluation commands do (they cannot be started, return a non-zero
    code, print bytes that do not decode), the exceptions that can leave
    the script are those of its own lookups and conversions ([KeyError],
    [IndexError], [ValueError], [TypeError], [OverflowError]) and the
    [exit(1)] of the two checks at its start. *)
Theorem subprocess_failures_never_end_the_run w a e :
  snd (run w a) = inl e -> may_escape e = true.
Proof.
  intros H. destruct (main_escapes w a []) as (l & _ & _ & He). apply He. exact H.
Qed.

Lemma subprocess_failures_never_end_the_run_witness :
  may_escape ValueError = true.
Proof.
  apply (subprocess_failures_never_end_the_run
           (world_of (config_of [rrf_method]) (eval_output "n/a")) execute ValueError).
  vm_compute. reflexivity.
Defined.

(** ** The result line *)

Lemma py_index_last {A : Type} (l : list A) a :
  py_index l (-1) = inr a -> exists l', l = l' ++ [a].
Proof.
  unfold py_index. change (-1 <? 0) with true. cbv iota.
  destruct (_ || _) eqn:E; [discriminate|].
  apply orb_false_iff in E as [E1 E2]. apply Z.ltb_ge in E1.
  destruct (nth_error l _) eqn:N; [|discriminate]. intros [= <-].
  apply nth_error_split in N as (l1 & l2 & -> & Hlen).
  destruct l2 as [|x l2]; [exists l1; reflexivity|].
  exfalso. rewrite length_app in Hlen. cbn [List.length] in Hlen. lia.
Qed.

Lemma filter_last {A : Type} (p : A -> bool) (l l' : list A) a :
  filter p l = l' ++ [a] ->
  exists before after,
    l = before ++ a :: after /\ p a = true /\ Forall (fun x => p x = false) after.
Proof.
  induction l as [|x l IH] using rev_ind; intros H.
  - destruct l'; discriminate.
  - rewrite filter_app in H. simpl in H. destruct (p x) eqn:Px.
    + apply app_inj_tail in H as [_ ->]. exists l, []. repeat split; [exact Px | constructor].
    + rewrite app_nil_r in H. destruct (IH H) as (before & after & -> & Pa & Fa).
      exists before, (after ++ [x]). rewrite <- app_assoc. repeat split; [exact Pa|].
      apply Forall_app. split; [exact Fa | repeat constructor; exact Px].
Qed.

(** X19.  When the body of the [try] yields a line, it is the last line of
    the evaluator's output that is not blank: the evaluation returned 0,
    its output decoded, and every line after the one taken is blank.  The
    body never yields a blank line, so that the [continue] under
    [if not out.strip()] is never taken. *)
Theorem result_line_is_the_last_nonblank_line w cmdline tr tr' r :
  result_line w cmdline tr = (tr', inr r) ->
  exists text before out after,
    popen w (spawned tr) cmdline = ProcDone 0 (Some text) /\
    py_split text NL = inr (before ++ out :: after) /\
    nonblank out = true /\ Forall (fun line => nonblank line = false) after /\
    r = Some out /\ tr' = tr ++ [Spawn cmdline].
Proof.
  unfold result_line, check_output, subprocess_popen, decode, bind, lift.
  destruct (popen w (spawned tr) cmdline) as [|rc out0]; [discriminate|].
  cbn -[py_split py_index nonblank].
  destruct (Z.eqb_spec rc 0) as [->|]; [|discriminate]. cbn -[py_split py_index nonblank].
  destruct out0 as [text|]; [|discriminate]. cbn -[py_split py_index nonblank].
  destruct (py_split text NL) as [e|lines] eqn:Hs; [discriminate|].
  destruct (py_index (filter nonblank lines) (-1)) as [e|out] eqn:Hi; [discriminate|].
  cbn -[nonblank]. rewrite (last_line_nonblank _ _ Hi). cbn -[nonblank].
  intros [= <- <-].
  apply py_index_last in Hi as (l' & Hl).
  apply filter_last in Hl as (before & after & -> & Po & Fa).
  exists text, before, out, after. repeat split; assumption.
Qed.

Lemma result_line_is_the_last_nonblank_line_witness :
  exists text before out after,
    popen (world_of (config_of [rrf_method]) (eval_output "0.4123")) (spawned []) "cmd"
    = ProcDone 0 (Some text) /\
    py_split text NL = inr (before ++ out :: after) /\
    nonblank out = true /\ Forall (fun line => nonblank line = false) after /\
    Some (strip (eval_output "0.4123")) = Some out /\
    [Spawn "cmd"] = [] ++ [Spawn "cmd"].
Proof.
  apply (result_line_is_the_last_nonblank_line
           (world_of (config_of [rrf_method]) (eval_output "0.4123")) "cmd" []).
  vm_compute. reflexivity.
Defined.

(** ** The recorded scores *)

Lemma dict_get_set_same {V : Type} (d : list (string * V)) key v :
  dict_get (dict_set d key v) key = Some v.
Proof.
  induction d as [|[k v0] d IH]; simpl.
  - rewrite String.eqb_refl. reflexivity.
  - destruct (String.eqb k key) eqn:E; simpl; rewrite E; [reflexivity | exact IH].
Qed.

Lemma dict_get_set_other {V : Type} (d : list (string * V)) key key' v :
  key' <> key -> dict_get (dict_set d key v) key' = dict_get d key'.
Proof.
  intros Hne. induction d as [|[k v0] d IH]; simpl.
  - destruct (String.eqb_spec key key'); [congruence | reflexivity].
  - destruct (String.eqb_spec k key) as [->|]; simpl.
    + destruct (String.eqb_spec key key'); [congruence | reflexivity].
    + destruct (String.eqb k key'); [reflexivity | exact IH].
Qed.

Lemma recorded_same results name metric actual :
  recorded (record_result results name metric actual) name metric = Some actual.
Proof.
  unfold recorded, record_result. rewrite dict_get_set_same. apply dict_get_set_same.
Qed.

(** X20.  Recording a score stores it under the method's name and the
    metric, and changes no other entry: a later score for the same name
    and metric (another topic set) replaces the earlier one. *)
Theorem record_result_lookup results name metric actual :
  recorded (record_result results name metric actual) name metric = Some actual /\
  (forall name' metric', (name', metric') <> (name, metric) ->
     recorded (record_result results name metric actual) name' metric'
     = recorded results name' metric') /\
  (forall later,
     recorded (record_result (record_result results name metric actual) name metric later)
       name metric = Some later).
Proof.
  split; [apply recorded_same | split; [|intros; apply recorded_same]].
  intros name' metric' Hne. unfold recorded, record_result.
  destruct (String.eqb_spec name' name) as [->|Hn].
  - rewrite dict_get_set_same.
    assert (Hm : metric' <> metric) by congruence.
    rewrite dict_get_set_other by exact Hm.
    destruct (dict_get results name) as [scores|] eqn:E; simpl.
    + rewrite E. reflexivity.
    + rewrite dict_get_set_same. reflexivity.
  - rewrite dict_get_set_other by exact Hn.
    destruct (dict_get results name); [reflexivity|].
    rewrite dict_get_set_other by exact Hn. reflexivity.
Qed.

(** X21.  What one triple does when the loop goes on after it.  Either the
    triple is skipped, the state is unchanged and no verdict is logged;
    or its evaluation is followed by exactly one verdict, the failure
    flag is raised when the verdict is FAIL and kept otherwise, and the
    actual score that was judged is the one recorded for the method and
    the metric. *)
Theorem triple_is_skipped_or_judged w method i topic metric st tr tr' st' :
  verify_triple w false method i topic metric st tr = (tr', inr st') ->
  (st' = st /\ exists ev, tr' = tr ++ Spawn (eval_cmdline method topic metric) :: ev /\
                          Forall skip_event ev) \/
  (exists expected actual name,
     m_name method = Some name /\
     tr' = tr ++ [Spawn (eval_cmdline method topic metric);
                  verdict (passes expected actual) expected actual
                    (mt_metric metric) name (t_id topic)] /\
     failures st' = failures st || negb (passes expected actual) /\
     recorded (results st') name (mt_metric metric) = Some actual).
Proof.
  intros H. apply verify_triple_returns in H.
  destruct H as [(-> & [-> | (e & ->)]) | (expected & actual & name & Hn & -> & ->)].
  - left. split; [reflexivity|]. exists []. split; [reflexivity | constructor].
  - left. split; [reflexivity|]. eexists. split; [reflexivity|].
    constructor; [|constructor]. right. exists e. reflexivity.
  - right. exists expected, actual, name. repeat split; [exact Hn | |].
    + simpl. destruct (passes expected actual); simpl; rewrite ?orb_false_r, ?orb_true_r; reflexivity.
    + simpl. apply recorded_same.
Qed.

Lemma triple_is_skipped_or_judged_witness :
  ({| failures := false; results := [("rrf", [("nDCG@10", f_0_4123)])] |} = empty_state /\
   exists ev,
     [Spawn (eval_cmdline rrf_method dl19 ndcg);
      Log INFO (MsgOk f_0_4123 f_0_4123 "nDCG@10" "rrf" "dl19")]
     = [] ++ Spawn (eval_cmdline rrf_method dl19 ndcg) :: ev /\ Forall skip_event ev) \/
  (exists expected actual name,
     m_name rrf_method = Some name /\
     [Spawn (eval_cmdline rrf_method dl19 ndcg);
      Log INFO (MsgOk f_0_4123 f_0_4123 "nDCG@10" "rrf" "dl19")]
     = [] ++ [Spawn (eval_cmdline rrf_method dl19 ndcg);
              verdict (passes expected actual) expected actual
                (mt_metric ndcg) name (t_id dl19)] /\
     failures {| failures := false; results := [("rrf", [("nDCG@10", f_0_4123)])] |}
     = failures empty_state || negb (passes expected actual) /\
     recorded (results {| failures := false; results := [("rrf", [("nDCG@10", f_0_4123)])] |})
       name (mt_metric ndcg) = Some actual).
Proof.
  apply (triple_is_skipped_or_judged
           (world_of (config_of [rrf_method]) (eval_output "0.4123"))
           rrf_method 0 dl19 ndcg empty_state []).
  vm_compute. reflexivity.
Defined.

(** ** Splitting *)

Lemma prefix_app sep s :
  String.prefix sep s = true -> exists rest, s = String.append sep rest.
Proof.
  revert s. induction sep as [|c sep IH]; intros s H.
  - exists s. reflexivity.
  - destruct s as [|c' s]; [discriminate|]. simpl in H.
    destruct (Ascii.ascii_dec c c') as [->|]; [|discriminate].
    destruct (IH s H) as (rest & ->). exists rest. reflexivity.
Qed.

Lemma split_go_skip sep a :
  forall b cur, split_go sep (String.length a) (String.append a b) cur = split_go sep 0 b cur.
Proof.
  induction a as [|c a IH]; intros b cur; simpl.
  - destruct b; reflexivity.
  - apply IH.
Qed.

Lemma split_go_nonempty sep skip s cur : split_go sep skip s cur <> [].
Proof.
  revert skip cur. induction s as [|c s IH]; intros skip cur; cbn [split_go]; [discriminate|].
  destruct skip; [|apply IH].
  destruct (String.prefix sep (String c s)); [discriminate | apply IH].
Qed.

Lemma concat_cons sep x l :
  l <> [] -> String.concat sep (x :: l) = String.append x (String.append sep (String.concat sep l)).
Proof. destruct l; [congruence | reflexivity]. Qed.

Lemma string_of_list_app l1 l2 :
  string_of_list_ascii (l1 ++ l2)
  = String.append (string_of_list_ascii l1) (string_of_list_ascii l2).
Proof. induction l1 as [|c l1 IH]; simpl; [reflexivity | rewrite IH; reflexivity]. Qed.

Lemma append_assoc a b c :
  String.append (String.append a b) c = String.append a (String.append b c).
Proof. induction a as [|x a IH]; simpl; [reflexivity | rewrite IH; reflexivity]. Qed.

Lemma append_length a b :
  String.length (String.append a b) = (String.length a + String.length b)%nat.
Proof. induction a as [|x a IH]; simpl; [reflexivity | rewrite IH; reflexivity]. Qed.

Lemma split_go_join sep :
  sep <> "" ->
  forall n s cur, (String.length s <= n)%nat ->
    String.concat sep (split_go sep 0 s cur)
    = String.append (string_of_list_ascii (rev cur)) s.
Proof.
  intros Hsep. induction n as [|n IH]; intros s cur Hn.
  - destruct s; [|simpl in Hn; lia]. simpl.
    induction (string_of_list_ascii (rev cur)) as [|x a IHa]; simpl; [reflexivity|].
    rewrite <- IHa. reflexivity.
  - destruct s as [|c s].
    + simpl. induction (string_of_list_ascii (rev cur)) as [|x a IHa]; simpl; [reflexivity|].
      rewrite <- IHa. reflexivity.
    + cbn [split_go]. destruct (String.prefix sep (String c s)) eqn:P.
      * destruct (prefix_app _ _ P) as (rest & E).
        destruct sep as [|c0 sep']; [congruence|].
        simpl in E. injection E as -> ->.
        rewrite concat_cons by apply split_go_nonempty.
        cbn [String.length Nat.pred]. rewrite split_go_skip.
        rewrite IH.
        -- reflexivity.
        -- simpl in Hn. rewrite append_length in Hn. lia.
      * rewrite IH by (simpl in Hn; lia).
        simpl rev. rewrite string_of_list_app, append_assoc. reflexivity.
Qed.

(** X22.  Splitting loses nothing: the pieces that [split] makes of a text,
    joined again with the separator, are the text; and an empty separator
    is a [ValueError].  So the lines taken from the evaluator's output, and
    the fields taken from a result line, are exactly what stands between
    the separators. *)
Theorem split_then_join s sep :
  match py_split s sep with
  | inr pieces => sep <> "" /\ pieces <> [] /\ String.concat sep pieces = s
  | inl e => sep = "" /\ e = ValueError
  end.
Proof.
  unfold py_split. destruct sep as [|c sep]; [split; reflexivity|].
  split; [discriminate|]. split; [apply split_go_nonempty|].
  apply (split_go_join (String c sep) ltac:(discriminate) (String.length s) s []). lia.
Qed.

(** ** The evaluation command *)

Lemma path_join_relative q :
  String.prefix "/" q = false ->
  path_join "tools/topics-and-qrels" q = String.append "tools/topics-and-qrels/" q.
Proof. intros H. unfold path_join. rewrite H. reflexivity. Qed.

(** X23.  The evaluation command line is made of four fields separated by
    single spaces: the command of the metric; its [params], or nothing
    when they are absent or empty; the [qrel] file of the topic set in
    [tools/topics-and-qrels], or as it is when it is an absolute path, or
    nothing when it is absent or empty; and the [output] of the method,
    which is the word [None] when the method has none. *)
Theorem evaluation_command_line method topic_set metric :
  exists params qrel output,
    eval_cmdline method topic_set metric
    = String.append (mt_command metric)
        (String.append " " (String.append params
           (String.append " " (String.append qrel (String.append " " output))))) /\
    params = get_or (mt_params metric) "" /\
    (t_qrel topic_set = None -> qrel = "") /\
    (forall q, t_qrel topic_set = Some q ->
       (q = "" -> qrel = "") /\
       (String.prefix "/" q = true -> qrel = q) /\
       (q <> "" -> String.prefix "/" q = false ->
        qrel = String.append "tools/topics-and-qrels/" q)) /\
    (m_output method = None -> output = "None") /\
    (forall o, m_output method = Some o -> output = o).
Proof.
  unfold eval_cmdline, eval_cmd.
  eexists _, _, _. split; [reflexivity|].
  split; [|split; [|split; [|split]]].
  - destruct (mt_params metric) as [[|c p]|]; reflexivity.
  - intros ->. reflexivity.
  - intros q ->. split; [|split].
    + intros ->. reflexivity.
    + intros H. destruct q as [|c q]; [discriminate|]. cbn [truthy]. unfold path_join.
      rewrite H. reflexivity.
    + intros Hq H. destruct q as [|c q]; [congruence|]. cbn [truthy].
      apply path_join_relative. exact H.
  - intros ->. reflexivity.
  - intros o ->. reflexivity.
Qed.

(** ** Keys read by the verification *)

Lemma verify_loops_unfold w yd dry tr ms :
  methods yd = Some ms ->
  verify_loops w yd dry tr
  = for_each
      (fun method st =>
         all_topics <- item "topics" (topics yd) ;;
         for_each
           (fun it st =>
              all_metrics <- item "metrics" (metrics yd) ;;
              for_each
                (fun metric st => verify_triple w dry method (fst it) (snd it) metric st)
                all_metrics st)
           (enumerate all_topics) st)
      (verified_methods ms) {| failures := false; results := [] |} tr.
Proof. intros Hm. unfold verify_loops. unfold bind at 1. rewrite Hm. reflexivity. Qed.

Lemma evaluate_and_verify_raises w yd dry tr e :
  verify_loops w yd dry (tr ++ [Log INFO MsgVerifying]) = (tr ++ [Log INFO MsgVerifying], inl e) ->
  evaluate_and_verify w yd dry tr = (tr ++ [Log INFO MsgVerifying], inl e).
Proof.
  intros H. unfold evaluate_and_verify. unfold bind at 1. unfold logger_info at 1, emit.
  unfold bind at 1. rewrite H. reflexivity.
Qed.

Lemma evaluate_and_verify_nothing w yd dry tr :
  verify_loops w yd dry (tr ++ [Log INFO MsgVerifying])
  = (tr ++ [Log INFO MsgVerifying], inr {| failures := false; results := [] |}) ->
  evaluate_and_verify w yd dry tr
  = (tr ++ [Log INFO MsgVerifying; Log INFO MsgElapsed; Log INFO MsgAllPassed], inr tt).
Proof.
  intros H. unfold evaluate_and_verify. unfold bind at 1. unfold logger_info at 1, emit.
  unfold bind at 1. rewrite H. unfold bind, logger_info, emit. cbn [failures].
  rewrite <- !app_assoc. reflexivity.
Qed.

(** X24.  The verification reads the keys of the configuration as it goes.
    A missing [methods] is a [KeyError] at once.  [topics] is read only
    when there is a method to verify, and [metrics] only when there is
    also a topic set: without a method to verify, or with an empty list
    of topic sets, the verification reports that all tests passed
    whatever else is missing; otherwise the missing key is a [KeyError]
    before any evaluation. *)
Theorem verification_reads_keys_when_needed w yd (dry : bool) tr :
  (methods yd = None ->
   evaluate_and_verify w yd dry tr
   = (tr ++ [Log INFO MsgVerifying], inl (KeyError "methods"))) /\
  (forall ms, methods yd = Some ms ->
     (verified_methods ms = [] \/ (topics yd = Some [])) ->
     evaluate_and_verify w yd dry tr
     = (tr ++ [Log INFO MsgVerifying; Log INFO MsgElapsed; Log INFO MsgAllPassed], inr tt)) /\
  (forall ms, methods yd = Some ms -> verified_methods ms <> [] -> topics yd = None ->
     evaluate_and_verify w yd dry tr
     = (tr ++ [Log INFO MsgVerifying], inl (KeyError "topics"))) /\
  (forall ms ts, methods yd = Some ms -> verified_methods ms <> [] ->
     topics yd = Some ts -> ts <> [] -> metrics yd = None ->
     evaluate_and_verify w yd dry tr
     = (tr ++ [Log INFO MsgVerifying], inl (KeyError "metrics"))).
Proof.
  split; [|split; [|split]].
  - intros Hm. apply evaluate_and_verify_raises.
    unfold verify_loops, bind. rewrite Hm. reflexivity.
  - intros ms Hm [He|Ht]; apply evaluate_and_verify_nothing;
      rewrite (verify_loops_unfold _ _ _ _ _ Hm).
    + rewrite He. reflexivity.
    + rewrite (for_each_const _ (fun _ => [])).
      * rewrite (flat_map_ext_in _ (fun _ => [] ++ [])) by reflexivity.
        induction (verified_methods ms) as [|m l IH]; simpl;
          [rewrite app_nil_r; reflexivity|].
        simpl in IH. exact IH.
      * intros m s t _. unfold bind. rewrite Ht. simpl. rewrite app_nil_r. reflexivity.
  - intros ms Hm Hne Ht. apply evaluate_and_verify_raises.
    rewrite (verify_loops_unfold _ _ _ _ _ Hm).
    destruct (verified_methods ms) as [|m l]; [congruence|].
    simpl. unfold bind. rewrite Ht. reflexivity.
  - intros ms ts Hm Hne Ht Hts Hmt. apply evaluate_and_verify_raises.
    rewrite (verify_loops_unfold _ _ _ _ _ Hm).
    destruct (verified_methods ms) as [|m l]; [congruence|].
    destruct ts as [|t ts]; [congruence|].
    simpl. unfold bind at 1. unfold bind at 1. rewrite Ht, item_some. cbv beta iota.
    unfold enumerate. simpl. unfold bind at 1. unfold bind at 1. rewrite Hmt. reflexivity.
Qed.

(** ** A dry run from the first line to the last *)

(** X25.  The whole output of a dry run.  With the configuration loaded,
    the run files in place and no token missing, a dry run logs the
    backend, the methods that get a command, all the fusion commands as
    one line, then the header of the verification, one evaluation command
    line per triple and the closing records; it ends with exit status
    0. *)
Theorem dry_run_output w a yd ms rs files ts mts text :
  dry_run a = true ->
  load_yaml w (config_path a) = Some yd ->
  methods yd = Some ms -> runs yd = Some rs -> files_of rs = Some files ->
  topics yd = Some ts -> metrics yd = Some mts ->
  (forall f, In f files -> path_exists w f = true) ->
  join_tokens (List.concat (map (fusion_command (use_pyserini a) files) (fusion_methods ms)))
  = inr text ->
  run w a
  = ([Log INFO (MsgUsing (use_pyserini a));
      Log INFO (MsgTesting (map m_name (fusion_methods ms)));
      Log INFO (MsgText text);
      Log INFO MsgVerifying]
     ++ map (fun line => Log INFO (MsgText line)) (eval_lines ms ts mts)
     ++ [Log INFO MsgElapsed; Log INFO MsgAllPassed; Log INFO MsgElapsed],
     inr tt) /\
  exit_status (snd (run w a)) = 0.
Proof.
  intros Hd Hl Hm Hr Hf Ht Hmt Hall Hj.
  assert (E : run w a
              = ([Log INFO (MsgUsing (use_pyserini a));
                  Log INFO (MsgTesting (map m_name (fusion_methods ms)));
                  Log INFO (MsgText text);
                  Log INFO MsgVerifying]
                 ++ map (fun line => Log INFO (MsgText line)) (eval_lines ms ts mts)
                 ++ [Log INFO MsgElapsed; Log INFO MsgAllPassed; Log INFO MsgElapsed],
                 inr tt)).
  { unfold run. rewrite (main_checked w a yd rs files [] Hl Hr Hf).
    rewrite (find_all_present (path_exists w) files Hall).
    unfold after_checks.
    rewrite (bind_ok _ _ [] ([] ++ [Log INFO (MsgUsing (use_pyserini a))]) tt) by reflexivity.
    rewrite (bind_ok _ _ _ _ _ (construct_ok yd (use_pyserini a) ms rs files _ Hm Hr Hf)).
    rewrite Hd.
    rewrite (bind_ok _ _ _ ((([] ++ [Log INFO (MsgUsing (use_pyserini a))])
                ++ [Log INFO (MsgTesting (map m_name (fusion_methods ms)))])
                ++ [Log INFO (MsgText text)]) tt)
      by (rewrite bind_lift, Hj; reflexivity).
    unfold evaluate_and_verify.
    unfold bind at 1. unfold bind at 1. unfold logger_info at 1, emit.
    unfold bind at 1. rewrite (verify_loops_dry w yd _ ms ts mts Hm Ht Hmt).
    unfold bind, logger_info, emit. cbn [failures].
    rewrite <- !app_assoc. reflexivity. }
  rewrite E. split; reflexivity.
Qed.

Lemma dry_run_output_witness :
  run (world_of (config_of [rrf_method; normalize_method]) "") dry_pyserini
  = ([Log INFO (MsgUsing true);
      Log INFO (MsgTesting [Some "rrf"]);
      Log INFO (MsgText "python -m pyserini.fusion --method rrf --runs runs/a.txt runs/b.txt --output runs/fused.rrf.txt --runtag pyserini.rrf --k 1000 --depth 1000 --rrf.k 60");
      Log INFO MsgVerifying]
     ++ map (fun line => Log INFO (MsgText line))
          (eval_lines [rrf_method; normalize_method] [dl19] [ndcg])
     ++ [Log INFO MsgElapsed; Log INFO MsgAllPassed; Log INFO MsgElapsed],
     inr tt) /\
  exit_status (snd (run (world_of (config_of [rrf_method; normalize_method]) "") dry_pyserini)) = 0.
Proof.
  apply (dry_run_output (world_of (config_of [rrf_method; normalize_method]) "") dry_pyserini
           (config_of [rrf_method; normalize_method]) [rrf_method; normalize_method]
           two_runs ["runs/a.txt"; "runs/b.txt"] [dl19] [ndcg]);
    reflexivity.
Defined.

(** ** The comparison with ranx *)

Lemma one_minus_default : one_minus (YFloat alpha_default) = inr (YFloat alpha_default).
Proof. vm_compute. reflexivity. Qed.

(** X26.  The arguments that [compare_with_ranx] gives to [fuse], method by
    method: [rrf] with [k] (60 by default); [sum] for [average]; [sum]
    with min-max normalisation for [normalize]; [wsum] for
    [interpolation], with the weights [alpha] and [1 - alpha], which are
    0.5 and 0.5 by default.  A method under another name, or without a
    name, is a [KeyError]; an [alpha] that is not a number is a
    [TypeError]. *)
Theorem ranx_arguments_by_method m :
  (m_name m = Some "rrf" ->
   fuse_arguments m
   = inr ("rrf", {| fa_norm := None; fa_method := "rrf";
                    fa_params := [("k", Value (get_or (m_rrf_k m) (YInt 60)))] |})) /\
  (m_name m = Some "average" ->
   fuse_arguments m
   = inr ("average", {| fa_norm := None; fa_method := "sum"; fa_params := [] |})) /\
  (m_name m = Some "normalize" ->
   fuse_arguments m
   = inr ("normalize", {| fa_norm := Some "min-max"; fa_method := "sum"; fa_params := [] |})) /\
  (m_name m = Some "interpolation" ->
   (m_alpha m = None ->
    fuse_arguments m
    = inr ("interpolation",
           {| fa_norm := None; fa_method := "wsum";
              fa_params := [("weights", Weights (YFloat alpha_default) (YFloat alpha_default))] |})) /\
   (forall f, m_alpha m = Some (YFloat f) ->
    fuse_arguments m
    = inr ("interpolation",
           {| fa_norm := None; fa_method := "wsum";
              fa_params := [("weights", Weights (YFloat f) (YFloat (fsub (FFin false ONE) f)))] |})) /\
   (forall s, m_alpha m = Some (YStr s) \/ m_alpha m = Some YNull ->
    fuse_arguments m = inl TypeError)) /\
  (m_name m = None -> fuse_arguments m = inl (KeyError "name")) /\
  (forall name, m_name m = Some name ->
     name_in (Some name) verify_supported_methods = false ->
     fuse_arguments m = inl (KeyError name)).
Proof.
  unfold fuse_arguments.
  split; [|split; [|split; [|split; [|split]]]].
  - intros ->. reflexivity.
  - intros ->. reflexivity.
  - intros ->. reflexivity.
  - intros ->. cbn [dict_get fusion_method_ranx String.eqb Ascii.eqb Bool.eqb].
    split; [|split].
    + intros ->. cbn [get_or]. rewrite one_minus_default. reflexivity.
    + intros f ->. reflexivity.
    + intros s [-> | ->]; reflexivity.
  - intros ->. reflexivity.
  - intros name -> Hn. unfold name_in, verify_supported_methods in Hn. simpl in Hn.
    unfold fusion_method_ranx. cbn [dict_get].
    rewrite (String.eqb_sym "rrf"), (String.eqb_sym "average"),
      (String.eqb_sym "interpolation"), (String.eqb_sym "normalize").
    destruct (String.eqb name "rrf"); [discriminate|].
    destruct (String.eqb name "average"); [discriminate|].
    destruct (String.eqb name "interpolation"); [discriminate|].
    destruct (String.eqb name "normalize"); [discriminate|]. reflexivity.
Qed.

Section RanxFacts.

Variables qrels_t run_t scores_t : Type.
Variable lib : library qrels_t run_t scores_t.

Lemma load_runs_store q todo :
  forall done,
  exists pre rest rs,
    todo = pre ++ rest /\ List.length rs = (List.length done + List.length pre)%nat /\
    fst (load_runs lib q done todo) = map inr rs ++ map inl rest /\
    (forall all, snd (load_runs lib q done todo) = inr all -> rest = [] /\ all = rs).
Proof.
  induction todo as [|r todo IH]; intros done; simpl.
  - exists [], [], (rev done). rewrite length_rev, Nat.add_0_r.
    split; [reflexivity|]. split; [reflexivity|].
    split; [simpl; rewrite app_nil_r; reflexivity|].
    intros all [= <-]. split; reflexivity.
  - destruct (Run_from_file lib r) as [e|loaded].
    { exists [], (r :: todo), (rev done). rewrite length_rev, Nat.add_0_r.
      split; [reflexivity|]. split; [reflexivity|]. split; [reflexivity | discriminate]. }
    destruct (make_comparable lib loaded q) as [e|comparable].
    { exists [], (r :: todo), (rev done). rewrite length_rev, Nat.add_0_r.
      split; [reflexivity|]. split; [reflexivity|]. split; [reflexivity | discriminate]. }
    destruct (IH (comparable :: done)) as (pre & rest & rs & -> & Hl & Hs & Hr).
    exists (r :: pre), rest, rs. cbn [List.length] in Hl.
    split; [reflexivity|]. split; [cbn [List.length]; lia|]. split; assumption.
Qed.

(** X27.  [compare_with_ranx] changes the list [runs] of its caller: when
    it returns or raises, a first part of the paths has been replaced by
    as many loaded runs and the rest is untouched; nothing is replaced
    when the judgments cannot be read, and everything is once the loop
    over the methods is reached, even if it raises there. *)
Theorem ranx_replaces_the_runs_in_place qrel_file runs methods metrics :
  (exists pre rest rs,
     runs = pre ++ rest /\ List.length rs = List.length pre /\
     fst (compare_with_ranx lib qrel_file runs methods metrics) = map inr rs ++ map inl rest /\
     (forall e, Qrels_from_file lib qrel_file = inl e -> pre = []) /\
     (forall q all, Qrels_from_file lib qrel_file = inr q ->
        snd (load_runs lib q [] runs) = inr all -> rest = [] /\ rs = all)).
Proof.
  unfold compare_with_ranx.
  destruct (Qrels_from_file lib qrel_file) as [e|q].
  - exists [], runs, [].
    split; [reflexivity|]. split; [reflexivity|]. split; [reflexivity|].
    split; [reflexivity | discriminate].
  - destruct (load_runs_store q runs []) as (pre & rest & rs & -> & Hl & Hs & Hr).
    exists pre, rest, rs.
    split; [reflexivity|]. split; [exact Hl|]. split.
    { destruct (load_runs lib q [] (pre ++ rest)) as [runs' [e|all]]; exact Hs. }
    split; [discriminate|].
    intros q' all [= <-] H. destruct (Hr all H) as (-> & ->). split; reflexivity.
Qed.

Lemma fuse_arguments_name m name args :
  fuse_arguments m = inr (name, args) ->
  m_name m = Some name /\ name_in (Some name) verify_supported_methods = true.
Proof.
  unfold fuse_arguments. destruct (m_name m) as [n|]; [|discriminate].
  destruct (dict_get fusion_method_ranx n) as [rm|] eqn:E; [|discriminate].
  intros H.
  assert (n = name) as ->.
  { cbv zeta in H.
    destruct (String.eqb rm "wsum"); [destruct (one_minus _); [discriminate|]|
      destruct (String.eqb rm "rrf")]; injection H as <- _; reflexivity. }
  split; [reflexivity|].
  unfold fusion_method_ranx in E. cbn [dict_get] in E.
  unfold name_in, verify_supported_methods. cbn [existsb].
  rewrite (String.eqb_sym "rrf"), (String.eqb_sym "average"),
    (String.eqb_sym "interpolation"), (String.eqb_sym "normalize") in E.
  destruct (String.eqb name "rrf"); [reflexivity|].
  destruct (String.eqb name "average"); [reflexivity|].
  destruct (String.eqb name "interpolation"); [reflexivity|].
  destruct (String.eqb name "normalize"); [reflexivity | discriminate].
Qed.

Lemma fuse_methods_entries q rs metrics methods :
  forall acc d,
    fuse_methods lib q rs metrics methods acc = inr d ->
    (forall m, In m methods ->
       exists name, m_name m = Some name /\
                    name_in (Some name) verify_supported_methods = true /\
                    exists s, dict_get d name = Some s) /\
    (forall name s, dict_get d name = Some s ->
       dict_get acc name = Some s \/
       exists m args fused,
         In m methods /\ fuse_arguments m = inr (name, args) /\
         fuse lib rs args = inr fused /\ evaluate lib q fused metrics = inr s) /\
    (forall name s, dict_get acc name = Some s -> exists s', dict_get d name = Some s').
Proof.
  induction methods as [|m methods IH]; intros acc d H; simpl in H.
  - injection H as <-. repeat split; [intros m [] | auto | eauto].
  - destruct (fuse_arguments m) as [e|[name args]] eqn:Ea; [discriminate|].
    destruct (fuse lib rs args) as [e|fused] eqn:Ef; [discriminate|].
    destruct (evaluate lib q fused metrics) as [e|results] eqn:Ee; [discriminate|].
    destruct (IH _ _ H) as (K & P & Q).
    destruct (fuse_arguments_name _ _ _ Ea) as (Hn & Hs).
    repeat split.
    + intros m' [<-|Hin]; [|apply K; exact Hin].
      exists name. repeat split; [exact Hn | exact Hs|].
      apply (Q name results). apply dict_get_set_same.
    + intros name' s Hd. destruct (P name' s Hd) as [Hacc|(m' & args' & fused' & Hin & R)].
      * destruct (String.eqb_spec name' name) as [->|Hne].
        -- rewrite dict_get_set_same in Hacc. injection Hacc as <-.
           right. exists m, args, fused. repeat split; [left; reflexivity | assumption..].
        -- rewrite dict_get_set_other in Hacc by exact Hne. left. exact Hacc.
      * right. exists m', args', fused'. split; [right; exact Hin | exact R].
    + intros name' s Hacc. destruct (String.eqb_spec name' name) as [->|Hne].
      * apply (Q name results). apply dict_get_set_same.
      * apply (Q name' s). rewrite dict_get_set_other by exact Hne. exact Hacc.
Qed.

(** X28.  The result of [compare_with_ranx] is keyed by the names of the
    methods.  When it returns, every method has one of the four names and
    an entry under it, and every entry is what [evaluate] returned for
    the run that [fuse] made of all the loaded runs with the arguments of
    a method of that name. *)
Theorem ranx_results_are_keyed_by_method qrel_file runs methods metrics d :
  snd (compare_with_ranx lib qrel_file runs methods metrics) = inr d ->
  exists q rs,
    Qrels_from_file lib qrel_file = inr q /\
    load_runs lib q [] runs = (map inr rs, inr rs) /\
    (forall m, In m methods ->
       exists name, m_name m = Some name /\
                    name_in (Some name) verify_supported_methods = true /\
                    exists s, dict_get d name = Some s) /\
    (forall name s, dict_get d name = Some s ->
       exists m args fused,
         In m methods /\ fuse_arguments m = inr (name, args) /\
         fuse lib rs args = inr fused /\ evaluate lib q fused metrics = inr s).
Proof.
  unfold compare_with_ranx.
  destruct (Qrels_from_file lib qrel_file) as [e|q]; [discriminate|].
  destruct (load_runs_store q runs []) as (pre & rest & rs & Hruns & Hl & Hs & Hr).
  destruct (load_runs lib q [] runs) as [runs' [e|all]] eqn:El; [discriminate|].
  simpl in *. destruct (Hr all eq_refl) as (-> & ->). intros H.
  exists q, rs. split; [reflexivity|]. split.
  { rewrite El, Hs. simpl. rewrite app_nil_r. reflexivity. }
  destruct (fuse_methods_entries q rs metrics methods [] d H) as (K & P & _).
  split; [exact K|].
  intros name s Hd. destruct (P name s Hd) as [Hacc|R]; [discriminate | exact R].
Qed.

End RanxFacts.

Lemma ranx_results_are_keyed_by_method_witness :
  exists q rs,
    Qrels_from_file toy_library "qrels.txt" = inr q /\
    load_runs toy_library q [] ["a.txt"; "b.txt"] = (map inr rs, inr rs) /\
    (forall m, In m [rrf_method; normalize_method] ->
       exists name, m_name m = Some name /\
                    name_in (Some name) verify_supported_methods = true /\
                    exists s, dict_get [("rrf", "rrf+a.txt+b.txt"); ("normalize", "sum+a.txt+b.txt")] name = Some s) /\
    (forall name s,
       dict_get [("rrf", "rrf+a.txt+b.txt"); ("normalize", "sum+a.txt+b.txt")] name = Some s ->
       exists m args fused,
         In m [rrf_method; normalize_method] /\ fuse_arguments m = inr (name, args) /\
         fuse toy_library rs args = inr fused /\
         evaluate toy_library q fused ["ndcg@10"] = inr s).
Proof.
  apply (ranx_results_are_keyed_by_method string string string toy_library
           "qrels.txt" ["a.txt"; "b.txt"] [rrf_method; normalize_method] ["ndcg@10"]).
  reflexivity.
Defined.

